(** * Signaling-mediated peer streaming: viewer and publisher hooks

    A shallow embedding of the two React hooks that implement the
    proctoring video links:

    - [Viewer]    : [useProctoringStreams]
                    (web-frontend/src/admin/hooks/useProctoringStreams.ts)
    - [Publisher] : [useAICameraMonitor], the WebRTC part
                    (teardownPeerConnection, respondToProctorOfferRequest and
                    the socket handlers of the signaling effect).
    - [Monitoring]: [useAICameraMonitor], starting and stopping the
                    monitoring (startMonitoring, stopMonitoring and the
                    detections updater of analyzeFrame).

    Both hooks are single-threaded and event driven.  Every reaction to an
    event is a function [World -> World]; an [await] splits a handler into
    the part that runs at once and a continuation that is parked in the
    [pending] list of the world until the awaited promise settles.  Every
    observable side effect (calls on a peer connection, messages sent on a
    socket, console output, stopped tracks) is appended to the [trace] of
    the world, in program order.

    What lies outside the two files is taken as follows.  The browser
    settles the promises of [setRemoteDescription], [createAnswer],
    [createOffer], [setLocalDescription] and [addIceCandidate] with a
    result it chooses, except that the result of an operation whose
    connection has been closed is dropped, as the operations chain of
    [RTCPeerConnection] prescribes.  [cameraManager.currentStream] and the
    result of [cameraManager.start()] are chosen by the environment.  React
    applies the queued state updaters in order and copies the rendered
    state into [streamStatesRef] at a commit, which may come after any
    number of events.  The model covers a mounted hook; the cleanup on
    unmount removes every listener and is not an event of the model.

    The viewer keeps its registries in plain objects.  They are modelled
    as finite maps of their own properties.  A lookup [obj[key]] also finds
    the members every object inherits from [Object.prototype]; [inherited]
    names those keys.  Where the viewer looks a key up and goes one way or
    the other on the truthiness of what it finds (lines 79, 92, 141 and
    414), the model goes the same way for such a key: no idle entry is
    written, the teardown only logs the failed close, no socket is opened
    and the [emit] on what was found throws, and no stream is requested.
    The publisher keeps its links in a [Map], which has no such keys. *)

From Stdlib Require Import ZArith.
From stdpp Require Import gmap strings list fin_maps.

Open Scope string_scope.
Open Scope list_scope.

(** ** Values shared by both hooks *)

(** JavaScript truthiness of a string: only the empty string is falsy. *)
Definition truthy (s : string) : bool := negb (bool_decide (s = "")).

(** The names of the members of [Object.prototype].  In a plain object
    without an own property of that name, [obj[key]] is the inherited
    member: a function, or the prototype itself for [__proto__].  It is
    truthy, and it has none of the fields ([pc], [remoteSocketId],
    [status], [stream]) and methods ([emit]) the hooks read from an
    entry. *)
Definition inherited (key : string) : bool :=
  bool_decide (key ∈ ["constructor"; "hasOwnProperty"; "isPrototypeOf";
                      "propertyIsEnumerable"; "toLocaleString"; "toString";
                      "valueOf"; "__proto__"; "__defineGetter__";
                      "__defineSetter__"; "__lookupGetter__";
                      "__lookupSetter__"]).

(** [MediaStream]: a handle and the tracks [getTracks()] returns. *)
Record MediaStream := {
  stream_id : nat;
  getTracks : list nat
}.

(** [RTCSessionDescriptionInit]. *)
Record RTCSessionDescriptionInit := {
  sdp_type : string;
  sdp : string
}.

(** A value thrown or used to reject a promise: [error instanceof Error]
    with its [message], or anything else. *)
Inductive Thrown :=
  | ErrorObject (message : string)
  | NotAnError.

(** [RTCPeerConnection.connectionState]. *)
Inductive RTCPeerConnectionState :=
  | cs_new | cs_connecting | cs_connected | cs_disconnected | cs_failed | cs_closed.

(** The three observer slots of a peer connection the hooks assign. *)
Inductive HandlerSlot := slot_ontrack | slot_onicecandidate | slot_onconnectionstatechange.

(** Messages a hook sends with [socket.emit]. *)
Inductive Outbound :=
  | proctor_request_stream (studentIdToView : string)
  | webrtc_offer (offer : RTCSessionDescriptionInit) (targetSocketId : string)
  | webrtc_answer (answer : RTCSessionDescriptionInit) (targetSocketId : string)
  | webrtc_ice_candidate (candidate : string) (targetSocketId : string).

(** Observable effects, in the order the code performs them.  [pc] is the
    index of the connection in the world's table of created connections. *)
Inductive Effect :=
  | PcSetHandlerNull (pc : nat) (slot : HandlerSlot)
  | PcClose (pc : nat)
  | PcAddTrack (pc : nat) (track : nat)
  | PcSetRemoteDescription (pc : nat) (d : RTCSessionDescriptionInit)
  | PcSetLocalDescription (pc : nat) (d : RTCSessionDescriptionInit)
  | PcCreateOffer (pc : nat)
  | PcCreateAnswer (pc : nat)
  | PcAddIceCandidate (pc : nat) (candidate : option string)
  | TrackStop (track : nat)
  | SocketOpen (examId : string)
  | SocketEmit (examId : string) (m : Outbound)
  | CameraStart
  | ConsoleWarn (text : string)
  | ConsoleError (text : string)
  | UncaughtTypeError.   (* a call on a value that is no function; nothing catches it *)

(** How an awaited promise settles.  The value of a fulfilled promise is a
    session description for [createOffer]/[createAnswer]; the other awaited
    operations resolve to [undefined] and the value is not looked at. *)
Inductive Settled :=
  | Fulfilled (value : RTCSessionDescriptionInit)
  | Rejected (reason : Thrown).

#[global] Instance MediaStream_eq_dec : EqDecision MediaStream.
Proof. solve_decision. Defined.

#[global] Instance RTCSessionDescriptionInit_eq_dec :
  EqDecision RTCSessionDescriptionInit.
Proof. solve_decision. Defined.

#[global] Instance Outbound_eq_dec : EqDecision Outbound.
Proof. solve_decision. Defined.

#[global] Instance HandlerSlot_eq_dec : EqDecision HandlerSlot.
Proof. solve_decision. Defined.

#[global] Instance Effect_eq_dec : EqDecision Effect.
Proof. solve_decision. Defined.

(** ** The viewer hook: [useProctoringStreams] *)

Module Viewer.

(** [LiveStreamStatus] *)
Inductive LiveStreamStatus := idle | waiting | connecting | live | error.

#[global] Instance LiveStreamStatus_eq_dec : EqDecision LiveStreamStatus.
Proof. solve_decision. Defined.

(** [StreamState]; the optional field [error] is [error_message] here
    (the status [error] has the name), [undefined] and [null] are [None]. *)
Record StreamState := {
  status : LiveStreamStatus;
  stream : option MediaStream;
  lastUpdated : option Z;
  error_message : option string;
  remoteSocketId : option string
}.

(** The fields of [ProctoringSession] the hook reads; [userId] after
    [String(...)]. *)
Record ProctoringSession := {
  session_id : string;
  session_examId : string;
  session_userId : string;
  session_active : bool   (* session.status === 'active' *)
}.

(** The closures the offer handler installs on a connection, as the
    variables they capture. *)
Record RTCPeerConnection := {
  ontrack : option (string * string);         (* sessionId, senderSocketId *)
  onicecandidate : option (string * string);  (* examId of the socket, senderSocketId *)
  onconnectionstatechange : option string;    (* sessionId *)
  closed : bool
}.

(** An entry of [peersRef]. *)
Record PeerInfo := {
  peer_pc : nat;
  peer_remoteSocketId : string;
  peer_examId : string
}.

(** The variables of the offer handler that its continuation uses. *)
Record OfferCtx := {
  ctx_sessionId : string;
  ctx_senderSocketId : string;
  ctx_examId : string
}.

(** A suspended [webrtc_offer_received] handler: the operation of the
    connection it awaits. *)
Inductive Task :=
  | AwaitSetRemoteDescription (pc : nat) (ctx : OfferCtx)
  | AwaitCreateAnswer (pc : nat) (ctx : OfferCtx)
  | AwaitSetLocalDescription (pc : nat) (ctx : OfferCtx)
      (answer : RTCSessionDescriptionInit).

Definition task_pc (t : Task) : nat :=
  match t with
  | AwaitSetRemoteDescription pc _ => pc
  | AwaitCreateAnswer pc _ => pc
  | AwaitSetLocalDescription pc _ _ => pc
  end.

(** The state of one mounted hook.  [streamStates] is the React state
    with every queued updater applied in order (all updates of the hook
    are functional updaters, so this is the state of the next render);
    [streamStatesRef] is the copy the effect of lines 65-67 stores after
    a render, which is what the callbacks read. *)
Record World := {
  streamStates : gmap string StreamState;
  streamStatesRef : gmap string StreamState;
  socketsRef : gset string;
  peersRef : gmap string PeerInfo;
  remoteSessionMap : gmap string string;
  sessionsRef : list ProctoringSession;
  requestedSessionsRef : gset string;
  pcs : list RTCPeerConnection;
  pending : list Task;
  trace : list Effect
}.

Definition initial : World :=
  {| streamStates := ∅; streamStatesRef := ∅; socketsRef := ∅;
     peersRef := ∅; remoteSessionMap := ∅; sessionsRef := [];
     requestedSessionsRef := ∅; pcs := []; pending := []; trace := [] |}.

(** Field updates. *)
Definition setStreamStates (f : gmap string StreamState → gmap string StreamState)
    (w : World) : World :=
  {| streamStates := f (streamStates w); streamStatesRef := streamStatesRef w;
     socketsRef := socketsRef w; peersRef := peersRef w;
     remoteSessionMap := remoteSessionMap w; sessionsRef := sessionsRef w;
     requestedSessionsRef := requestedSessionsRef w; pcs := pcs w;
     pending := pending w; trace := trace w |}.

Definition with_streamStatesRef (m : gmap string StreamState) (w : World) : World :=
  {| streamStates := streamStates w; streamStatesRef := m;
     socketsRef := socketsRef w; peersRef := peersRef w;
     remoteSessionMap := remoteSessionMap w; sessionsRef := sessionsRef w;
     requestedSessionsRef := requestedSessionsRef w; pcs := pcs w;
     pending := pending w; trace := trace w |}.

Definition with_socketsRef (f : gset string → gset string) (w : World) : World :=
  {| streamStates := streamStates w; streamStatesRef := streamStatesRef w;
     socketsRef := f (socketsRef w); peersRef := peersRef w;
     remoteSessionMap := remoteSessionMap w; sessionsRef := sessionsRef w;
     requestedSessionsRef := requestedSessionsRef w; pcs := pcs w;
     pending := pending w; trace := trace w |}.

Definition with_peersRef (f : gmap string PeerInfo → gmap string PeerInfo)
    (w : World) : World :=
  {| streamStates := streamStates w; streamStatesRef := streamStatesRef w;
     socketsRef := socketsRef w; peersRef := f (peersRef w);
     remoteSessionMap := remoteSessionMap w; sessionsRef := sessionsRef w;
     requestedSessionsRef := requestedSessionsRef w; pcs := pcs w;
     pending := pending w; trace := trace w |}.

Definition with_remoteSessionMap (f : gmap string string → gmap string string)
    (w : World) : World :=
  {| streamStates := streamStates w; streamStatesRef := streamStatesRef w;
     socketsRef := socketsRef w; peersRef := peersRef w;
     remoteSessionMap := f (remoteSessionMap w); sessionsRef := sessionsRef w;
     requestedSessionsRef := requestedSessionsRef w; pcs := pcs w;
     pending := pending w; trace := trace w |}.

Definition with_sessionsRef (l : list ProctoringSession) (w : World) : World :=
  {| streamStates := streamStates w; streamStatesRef := streamStatesRef w;
     socketsRef := socketsRef w; peersRef := peersRef w;
     remoteSessionMap := remoteSessionMap w; sessionsRef := l;
     requestedSessionsRef := requestedSessionsRef w; pcs := pcs w;
     pending := pending w; trace := trace w |}.

Definition with_requestedSessionsRef (f : gset string → gset string)
    (w : World) : World :=
  {| streamStates := streamStates w; streamStatesRef := streamStatesRef w;
     socketsRef := socketsRef w; peersRef := peersRef w;
     remoteSessionMap := remoteSessionMap w; sessionsRef := sessionsRef w;
     requestedSessionsRef := f (requestedSessionsRef w); pcs := pcs w;
     pending := pending w; trace := trace w |}.

Definition with_pcs (f : list RTCPeerConnection → list RTCPeerConnection)
    (w : World) : World :=
  {| streamStates := streamStates w; streamStatesRef := streamStatesRef w;
     socketsRef := socketsRef w; peersRef := peersRef w;
     remoteSessionMap := remoteSessionMap w; sessionsRef := sessionsRef w;
     requestedSessionsRef := requestedSessionsRef w; pcs := f (pcs w);
     pending := pending w; trace := trace w |}.

Definition with_pending (f : list Task → list Task) (w : World) : World :=
  {| streamStates := streamStates w; streamStatesRef := streamStatesRef w;
     socketsRef := socketsRef w; peersRef := peersRef w;
     remoteSessionMap := remoteSessionMap w; sessionsRef := sessionsRef w;
     requestedSessionsRef := requestedSessionsRef w; pcs := pcs w;
     pending := f (pending w); trace := trace w |}.

(** Append one effect to the trace. *)
Definition perform (e : Effect) (w : World) : World :=
  {| streamStates := streamStates w; streamStatesRef := streamStatesRef w;
     socketsRef := socketsRef w; peersRef := peersRef w;
     remoteSessionMap := remoteSessionMap w; sessionsRef := sessionsRef w;
     requestedSessionsRef := requestedSessionsRef w; pcs := pcs w;
     pending := pending w; trace := trace w ++ [e] |}.

(** Park a handler at an [await]. *)
Definition suspend (t : Task) (w : World) : World :=
  with_pending (λ l, (l ++ [t])%list) w.

(** *** Operations on a connection *)

Definition set_ontrack (h : option (string * string)) (p : RTCPeerConnection) :=
  {| ontrack := h; onicecandidate := onicecandidate p;
     onconnectionstatechange := onconnectionstatechange p; closed := closed p |}.
Definition set_onicecandidate (h : option (string * string)) (p : RTCPeerConnection) :=
  {| ontrack := ontrack p; onicecandidate := h;
     onconnectionstatechange := onconnectionstatechange p; closed := closed p |}.
Definition set_onconnectionstatechange (h : option string) (p : RTCPeerConnection) :=
  {| ontrack := ontrack p; onicecandidate := onicecandidate p;
     onconnectionstatechange := h; closed := closed p |}.
Definition set_closed (p : RTCPeerConnection) :=
  {| ontrack := ontrack p; onicecandidate := onicecandidate p;
     onconnectionstatechange := onconnectionstatechange p; closed := true |}.

(** [pc.ontrack = null], etc., and [pc.close()]: none of them throws. *)
Definition pc_ontrack_null (pc : nat) (w : World) : World :=
  perform (PcSetHandlerNull pc slot_ontrack)
    (with_pcs (alter (set_ontrack None) pc) w).
Definition pc_onicecandidate_null (pc : nat) (w : World) : World :=
  perform (PcSetHandlerNull pc slot_onicecandidate)
    (with_pcs (alter (set_onicecandidate None) pc) w).
Definition pc_onconnectionstatechange_null (pc : nat) (w : World) : World :=
  perform (PcSetHandlerNull pc slot_onconnectionstatechange)
    (with_pcs (alter (set_onconnectionstatechange None) pc) w).
Definition pc_close (pc : nat) (w : World) : World :=
  perform (PcClose pc) (with_pcs (alter set_closed pc) w).

(** [new RTCPeerConnection(...)]: a fresh connection at the next index. *)
Definition fresh_pc : RTCPeerConnection :=
  {| ontrack := None; onicecandidate := None;
     onconnectionstatechange := None; closed := false |}.

(** *** [teardownPeer] (lines 90-117)

    For a session id for which [inherited] holds and that has no link,
    [peerInfo] is the inherited member: [peerInfo.pc] is [undefined], the
    first assignment of the [try] block throws and the [catch] logs it;
    the two [delete]s find nothing to remove. *)

Definition stop_tracks (ms : MediaStream) (w : World) : World :=
  foldl (λ w t, perform (TrackStop t) w) w (getTracks ms).

Definition teardownPeer (sessionId : string) (w : World) : World :=
  let w1 :=
    match peersRef w !! sessionId with
    | Some peerInfo =>
        let pc := peer_pc peerInfo in
        let w := pc_ontrack_null pc w in
        let w := pc_onicecandidate_null pc w in
        let w := pc_onconnectionstatechange_null pc w in
        let w := pc_close pc w in
        let w := with_peersRef (delete sessionId) w in
        if truthy (peer_remoteSocketId peerInfo)
        then with_remoteSessionMap (delete (peer_remoteSocketId peerInfo)) w
        else w
    | None =>
        if inherited sessionId
        then perform (ConsoleWarn "Không thể đóng kết nối WebRTC:") w
        else w
    end in
  match streamStatesRef w1 !! sessionId ≫= stream with
  | Some existingStream => stop_tracks existingStream w1
  | None => w1
  end.

(** *** [stopStream] (lines 119-135) *)

Definition stopStream (sessionId : string) (nextStatus : LiveStreamStatus)
    (errorMessage : option string) (w : World) : World :=
  let w := teardownPeer sessionId w in
  let w := with_requestedSessionsRef (λ s, s ∖ {[sessionId]}) w in
  setStreamStates (λ prev,
    <[sessionId :=
       {| status := nextStatus;
          stream := None;
          lastUpdated := prev !! sessionId ≫= lastUpdated;
          error_message := errorMessage;
          remoteSocketId := None |}]> prev) w.

(** *** [ensureSocket] (lines 137-362)

    One socket per exam, created on first use; its listeners are the
    [on_...] functions below, each closed over [examId].  For an exam id
    for which [inherited] holds, line 141 finds the inherited member and
    line 142 returns it: no socket is created and none is stored. *)

Definition ensureSocket (examId : string) (w : World) : World :=
  if bool_decide (examId ∈ socketsRef w) || inherited examId then w
  else with_socketsRef (λ s, {[examId]} ∪ s) (perform (SocketOpen examId) w).

(** [for (const session of relatedSessions) stopStream(session.id, 'error', msg)] *)
Definition stop_sessions (related : list ProctoringSession) (msg : string)
    (w : World) : World :=
  foldl (λ w session, stopStream (session_id session) error (Some msg) w)
    w related.

(** [socket.on('reconnect_failed', ...)] (lines 184-192) *)
Definition on_reconnect_failed (examId : string) (w : World) : World :=
  stop_sessions
    (filter (λ session, session_examId session = examId) (sessionsRef w))
    "Không thể kết nối lại với máy chủ giám sát" w.

(** [socket.on('disconnect', ...)] (lines 194-202) *)
Definition on_disconnect (examId : string) (w : World) : World :=
  stop_sessions
    (filter (λ session, session_examId session = examId) (sessionsRef w))
    "Mất kết nối tới máy chủ giám sát" w.

(** [socket.on('user_left', ...)] (lines 204-212) *)
Definition on_user_left (examId userId : string) (w : World) : World :=
  stop_sessions
    (filter (λ session,
       session_examId session = examId ∧ session_userId session = userId)
       (sessionsRef w))
    "Thí sinh đã ngắt kết nối" w.

(** [socket.on('webrtc_offer_received', ...)] up to its first [await]
    (lines 214-300). *)
Definition on_offer_received (examId : string) (offer : RTCSessionDescriptionInit)
    (senderSocketId studentId : string) (w : World) : World :=
  match List.find (λ session,
          bool_decide (session_examId session = examId
                       ∧ session_userId session = studentId))
          (sessionsRef w) with
  | None => w
  | Some targetSession =>
      let sessionId := session_id targetSession in
      let w := teardownPeer sessionId w in
      let pc := length (pcs w) in
      let w := with_pcs (λ l, (l ++ [fresh_pc])%list) w in
      let w := with_peersRef
                 <[sessionId := {| peer_pc := pc;
                                   peer_remoteSocketId := senderSocketId;
                                   peer_examId := examId |}]> w in
      let w := with_remoteSessionMap <[senderSocketId := sessionId]> w in
      let w := with_pcs (alter (set_ontrack (Some (sessionId, senderSocketId))) pc) w in
      let w := with_pcs
                 (alter (set_onicecandidate (Some (examId, senderSocketId))) pc) w in
      let w := with_pcs (alter (set_onconnectionstatechange (Some sessionId)) pc) w in
      let w := perform (PcSetRemoteDescription pc offer) w in
      suspend (AwaitSetRemoteDescription pc
                 {| ctx_sessionId := sessionId;
                    ctx_senderSocketId := senderSocketId;
                    ctx_examId := examId |}) w
  end.

(** The rest of the offer handler (lines 300-327), one [await] at a time.
    A rejection at any of the three lands in the [catch]. *)
Definition resume (t : Task) (o : Settled) (w : World) : World :=
  match t, o with
  | AwaitSetRemoteDescription pc ctx, Fulfilled _ =>
      suspend (AwaitCreateAnswer pc ctx) (perform (PcCreateAnswer pc) w)
  | AwaitCreateAnswer pc ctx, Fulfilled answer =>
      suspend (AwaitSetLocalDescription pc ctx answer)
        (perform (PcSetLocalDescription pc answer) w)
  | AwaitSetLocalDescription pc ctx answer, Fulfilled _ =>
      let sessionId := ctx_sessionId ctx in
      let w := perform (SocketEmit (ctx_examId ctx)
                          (webrtc_answer answer (ctx_senderSocketId ctx))) w in
      setStreamStates (λ prev,
        <[sessionId :=
           {| status := connecting;
              stream := prev !! sessionId ≫= stream;
              lastUpdated := prev !! sessionId ≫= lastUpdated;
              error_message := None;
              remoteSocketId := Some (ctx_senderSocketId ctx) |}]> prev) w
  | AwaitSetRemoteDescription _ ctx, Rejected reason
  | AwaitCreateAnswer _ ctx, Rejected reason
  | AwaitSetLocalDescription _ ctx _, Rejected reason =>
      stopStream (ctx_sessionId ctx) error
        (Some (match reason with
               | ErrorObject message => message
               | NotAnError => "Không thể thiết lập kết nối video"
               end)) w
  end.

(** The browser settles the promise of the [n]-th suspended handler.  The
    WebRTC operations chain drops the result of an operation whose
    connection was closed in the meantime (its promise never settles), so
    the continuation of such a handler never runs. *)
Definition settle (n : nat) (o : Settled) (w : World) : World :=
  match pending w !! n with
  | None => w
  | Some t =>
      let w := with_pending (delete n) w in
      match pcs w !! task_pc t with
      | Some p => if closed p then w else resume t o w
      | None => w
      end
  end.

(** [socket.on('webrtc_ice_candidate_received', ...)] (lines 331-356).
    Nothing follows the awaited [addIceCandidate] and its [catch] is
    empty, so the handler ends with the call. *)
Definition on_ice_candidate_received (candidate : option string)
    (senderSocketId : string) (w : World) : World :=
  match remoteSessionMap w !! senderSocketId with
  | None => w
  | Some sessionId =>
      if truthy sessionId then
        match peersRef w !! sessionId with
        | None => w
        | Some peerInfo => perform (PcAddIceCandidate (peer_pc peerInfo) candidate) w
        end
      else w
  end.

(** *** The observers of a connection (lines 245-298) *)

(** [pc.ontrack] with [event.streams] *)
Definition ontrack_handler (sessionId senderSocketId : string)
    (streams : list MediaStream) (now : Z) (w : World) : World :=
  match streams with
  | [] => w
  | remoteStream :: _ =>
      if bool_decide (length (getTracks remoteStream) = 0) then w
      else
        setStreamStates (λ prev,
          <[sessionId :=
             {| status := live;
                stream := Some remoteStream;
                lastUpdated := Some now;
                error_message := None;
                remoteSocketId := Some senderSocketId |}]> prev) w
  end.

(** [pc.onicecandidate] with [event.candidate] *)
Definition onicecandidate_handler (examId senderSocketId : string)
    (candidate : option string) (w : World) : World :=
  match candidate with
  | Some c => perform (SocketEmit examId (webrtc_ice_candidate c senderSocketId)) w
  | None => w
  end.

(** [{ ...prev[sessionId], status: 'live', lastUpdated: Date.now() }] *)
Definition mark_live (now : Z) (prev : option StreamState) : StreamState :=
  {| status := live;
     stream := prev ≫= stream;
     lastUpdated := Some now;
     error_message := prev ≫= error_message;
     remoteSocketId := prev ≫= remoteSocketId |}.

(** [pc.onconnectionstatechange] with [pc.connectionState] *)
Definition onconnectionstatechange_handler (sessionId : string)
    (state : RTCPeerConnectionState) (now : Z) (w : World) : World :=
  match state with
  | cs_failed =>
      stopStream sessionId error (Some "Không thể thiết lập kết nối video") w
  | cs_disconnected =>
      stopStream sessionId error (Some "Kết nối video đã bị gián đoạn") w
  | cs_closed => stopStream sessionId idle None w
  | cs_connected =>
      match streamStatesRef w !! sessionId with
      | Some currentState =>
          if bool_decide (status currentState ≠ live) && bool_decide (is_Some (stream currentState))
          then setStreamStates (λ prev,
                 <[sessionId := mark_live now (prev !! sessionId)]> prev) w
          else w
      | None => w
      end
  | cs_new | cs_connecting => w
  end.

(** *** [requestStream] (lines 364-404)

    [socket] is what [ensureSocket] returns: the socket of the exam, or, for
    an exam id for which [inherited] holds, the inherited member.  That one
    is truthy, so line 385 does not return, and it has no [emit]: the call
    of line 399 throws a [TypeError], after the session was marked and the
    state update was queued. *)

Definition requestStream (sessionId : string) (force : bool) (w : World) : World :=
  match List.find (λ s, bool_decide (session_id s = sessionId)) (sessionsRef w) with
  | None => w
  | Some session =>
      let outstanding :=
        match streamStatesRef w !! sessionId with
        | Some currentState =>
            bool_decide (status currentState = waiting
                         ∨ status currentState = connecting
                         ∨ status currentState = live)
        | None => false
        end in
      if negb force && outstanding then w
      else
        let w := ensureSocket (session_examId session) w in
        let w := with_requestedSessionsRef (λ s, {[sessionId]} ∪ s) w in
        let w := setStreamStates (λ prev,
                   <[sessionId :=
                      {| status := waiting;
                         stream := prev !! sessionId ≫= stream;
                         lastUpdated := prev !! sessionId ≫= lastUpdated;
                         error_message := None;
                         remoteSocketId := None |}]> prev) w in
        if bool_decide (session_examId session ∈ socketsRef w)
        then perform (SocketEmit (session_examId session)
                        (proctor_request_stream (session_userId session))) w
        else perform UncaughtTypeError w
  end.

(** *** The effects of the hook *)

(** Lines 65-67: after a render, the ref takes the rendered state. *)
Definition commit (w : World) : World :=
  with_streamStatesRef (streamStates w) w.

(** Lines 69-88: a new [allSessions] is stored in [sessionsRef] and every
    session without an entry gets an idle one.  For a session id for which
    [inherited] holds, [next[session.id]] is the inherited member and line
    79 writes nothing. *)
Definition sessions_changed (allSessions : list ProctoringSession) (w : World) : World :=
  let w := with_sessionsRef allSessions w in
  match allSessions with
  | [] => w
  | _ =>
      setStreamStates (λ prev,
        foldl (λ next session,
                 match next !! session_id session with
                 | Some _ => next
                 | None =>
                     if inherited (session_id session) then next
                     else
                       <[session_id session :=
                          {| status := idle; stream := None; lastUpdated := None;
                             error_message := None; remoteSocketId := None |}]> next
                 end) prev allSessions) w
  end.

(** Lines 406-426: the auto-request effect.  For a session id for which
    [inherited] holds and that has no entry, [state] is the inherited
    member: it is truthy and its [status] is not ['idle'], so line 415 asks
    for nothing.  [Object.entries] is taken in the order of the map's keys;
    the order only fixes the order of the resulting effects in the trace.
    [requestStream] throws for a session of an exam whose id [inherited]
    holds of, and the exception ends the effect at that call.  The model
    has no exceptions: it records the error and goes on with the loops.
    It is the effect of the code for every list in which no session that
    is asked for has such an exam id. *)
Definition auto_request (autoRequest : bool) (w : World) : World :=
  if negb autoRequest then w
  else
    let activeSessionIds : gset string :=
      list_to_set (session_id <$> List.filter session_active (sessionsRef w)) in
    let w1 :=
      foldl (λ w session,
               if session_active session then
                 match streamStatesRef w !! session_id session with
                 | None =>
                     if inherited (session_id session) then w
                     else requestStream (session_id session) false w
                 | Some state =>
                     if bool_decide (status state = idle)
                     then requestStream (session_id session) false w
                     else w
                 end
               else w) w (sessionsRef w) in
    foldl (λ w '(sessionId, state),
             if bool_decide ((sessionId ∉ activeSessionIds)
                             ∧ is_Some (stream state))
             then stopStream sessionId idle None w
             else w) w1 (map_to_list (streamStatesRef w)).

(** *** Events and the transition function *)

Inductive SocketEvent :=
  | reconnect_failed
  | disconnect
  | user_left (userId : string)
  | webrtc_offer_received (offer : RTCSessionDescriptionInit)
      (senderSocketId studentId : string)
  | webrtc_ice_candidate_received (candidate : option string)
      (senderSocketId : string).

Inductive Event :=
  | EvSessions (allSessions : list ProctoringSession)
  | EvCommit
  | EvAutoRequest (autoRequest : bool)
  | EvRequestStream (sessionId : string) (force : bool)
  | EvStopStream (sessionId : string)   (* the page: stopStream(sessionId, 'idle') *)
  | EvSocket (examId : string) (e : SocketEvent)
  | EvTrack (pc : nat) (streams : list MediaStream) (now : Z)
  | EvIceCandidate (pc : nat) (candidate : option string)
  | EvConnectionState (pc : nat) (state : RTCPeerConnectionState) (now : Z)
  | EvSettle (n : nat) (o : Settled).

Definition socket_event (examId : string) (e : SocketEvent) (w : World) : World :=
  if bool_decide (examId ∈ socketsRef w) then
    match e with
    | reconnect_failed => on_reconnect_failed examId w
    | disconnect => on_disconnect examId w
    | user_left userId => on_user_left examId userId w
    | webrtc_offer_received offer senderSocketId studentId =>
        on_offer_received examId offer senderSocketId studentId w
    | webrtc_ice_candidate_received candidate senderSocketId =>
        on_ice_candidate_received candidate senderSocketId w
    end
  else w.

Definition step (ev : Event) (w : World) : World :=
  match ev with
  | EvSessions allSessions => sessions_changed allSessions w
  | EvCommit => commit w
  | EvAutoRequest autoRequest => auto_request autoRequest w
  | EvRequestStream sessionId force => requestStream sessionId force w
  | EvStopStream sessionId => stopStream sessionId idle None w
  | EvSocket examId e => socket_event examId e w
  | EvTrack pc streams now =>
      match pcs w !! pc ≫= ontrack with
      | Some (sessionId, senderSocketId) =>
          ontrack_handler sessionId senderSocketId streams now w
      | None => w
      end
  | EvIceCandidate pc candidate =>
      match pcs w !! pc ≫= onicecandidate with
      | Some (examId, senderSocketId) =>
          onicecandidate_handler examId senderSocketId candidate w
      | None => w
      end
  | EvConnectionState pc state now =>
      match pcs w !! pc ≫= onconnectionstatechange with
      | Some sessionId => onconnectionstatechange_handler sessionId state now w
      | None => w
      end
  | EvSettle n o => settle n o w
  end.

Definition run (evs : list Event) (w : World) : World :=
  foldl (λ w ev, step ev w) w evs.

(** The worlds the hook can be in. *)
Inductive reachable : World → Prop :=
  | reachable_initial : reachable initial
  | reachable_step ev w : reachable w → reachable (step ev w).

(** *** [stats] (lines 449-465) *)

Record StreamStats := {
  totalLive : nat;
  totalConnecting : nat;
  totalError : nat
}.

Definition stats (streamStates : gmap string StreamState) : StreamStats :=
  let values := (map_to_list streamStates).*2 in
  {| totalLive := length (filter (λ state, status state = live) values);
     totalConnecting :=
       length (filter (λ state, status state = connecting ∨ status state = waiting)
                 values);
     totalError := length (filter (λ state, status state = error) values) |}.

(** *** The cleanup on unmount (lines 428-447)

    Every registered connection is closed, the listeners of every socket
    are removed, and the three registries are reset.  A socket without
    listeners is a socket the model no longer delivers events for; whether
    it was connected, and so is disconnected, is not observed. *)


End Viewer.

(** ** The publisher hook: the WebRTC part of [useAICameraMonitor] *)

Module Publisher.

(** A connection of the publisher.  The hook installs [onicecandidate]
    and [onconnectionstatechange], both closed over [proctorSocketId];
    it never installs [ontrack].  The two descriptions are what the
    browser reports after the corresponding operation succeeded. *)
Record RTCPeerConnection := {
  onicecandidate : option string;
  onconnectionstatechange : option string;
  closed : bool;
  localDescription : option RTCSessionDescriptionInit;
  remoteDescription : option RTCSessionDescriptionInit
}.

(** A suspended handler and what it awaits. *)
Inductive Task :=
  | AwaitCameraStart (proctorSocketId : string)
  | AwaitCreateOffer (pc : nat) (proctorSocketId : string)
  | AwaitSetLocalDescription (pc : nat) (proctorSocketId : string)
      (offer : RTCSessionDescriptionInit)
  | AwaitSetRemoteDescription (pc : nat) (senderSocketId : string)
      (answer : RTCSessionDescriptionInit)
  | AwaitAddIceCandidate (pc : nat).

(** The connection whose operation a task awaits, if any. *)
Definition task_pc (t : Task) : option nat :=
  match t with
  | AwaitCameraStart _ => None
  | AwaitCreateOffer pc _ => Some pc
  | AwaitSetLocalDescription pc _ _ => Some pc
  | AwaitSetRemoteDescription pc _ _ => Some pc
  | AwaitAddIceCandidate pc => Some pc
  end.

(** How [cameraManager.start()] settles. *)
Inductive CameraSettled :=
  | CameraFulfilled (stream : option MediaStream)
  | CameraRejected (reason : Thrown).

(** The state of one mounted hook after its signaling effect has created
    the socket.  [socketRef] is [socketRef.current] with the socket's
    [connected] flag; [currentStream] is [cameraManager.currentStream]. *)
Record World := {
  normalizedExamId : string;
  normalizedStudentId : string;
  socketRef : option bool;
  peerConnectionsRef : gmap string nat;
  pcs : list RTCPeerConnection;
  currentStream : option MediaStream;
  pending : list Task;
  trace : list Effect
}.

Definition initial (examId studentId : string) : World :=
  {| normalizedExamId := examId; normalizedStudentId := studentId;
     socketRef := Some false; peerConnectionsRef := ∅; pcs := [];
     currentStream := None; pending := []; trace := [] |}.

Definition with_socketRef (s : option bool) (w : World) : World :=
  {| normalizedExamId := normalizedExamId w;
     normalizedStudentId := normalizedStudentId w;
     socketRef := s; peerConnectionsRef := peerConnectionsRef w;
     pcs := pcs w; currentStream := currentStream w;
     pending := pending w; trace := trace w |}.

Definition with_peerConnectionsRef (f : gmap string nat → gmap string nat)
    (w : World) : World :=
  {| normalizedExamId := normalizedExamId w;
     normalizedStudentId := normalizedStudentId w;
     socketRef := socketRef w; peerConnectionsRef := f (peerConnectionsRef w);
     pcs := pcs w; currentStream := currentStream w;
     pending := pending w; trace := trace w |}.

Definition with_pcs (f : list RTCPeerConnection → list RTCPeerConnection)
    (w : World) : World :=
  {| normalizedExamId := normalizedExamId w;
     normalizedStudentId := normalizedStudentId w;
     socketRef := socketRef w; peerConnectionsRef := peerConnectionsRef w;
     pcs := f (pcs w); currentStream := currentStream w;
     pending := pending w; trace := trace w |}.

Definition with_currentStream (s : option MediaStream) (w : World) : World :=
  {| normalizedExamId := normalizedExamId w;
     normalizedStudentId := normalizedStudentId w;
     socketRef := socketRef w; peerConnectionsRef := peerConnectionsRef w;
     pcs := pcs w; currentStream := s;
     pending := pending w; trace := trace w |}.

Definition with_pending (f : list Task → list Task) (w : World) : World :=
  {| normalizedExamId := normalizedExamId w;
     normalizedStudentId := normalizedStudentId w;
     socketRef := socketRef w; peerConnectionsRef := peerConnectionsRef w;
     pcs := pcs w; currentStream := currentStream w;
     pending := f (pending w); trace := trace w |}.

Definition perform (e : Effect) (w : World) : World :=
  {| normalizedExamId := normalizedExamId w;
     normalizedStudentId := normalizedStudentId w;
     socketRef := socketRef w; peerConnectionsRef := peerConnectionsRef w;
     pcs := pcs w; currentStream := currentStream w;
     pending := pending w; trace := trace w ++ [e] |}.

Definition suspend (t : Task) (w : World) : World :=
  with_pending (λ l, (l ++ [t])%list) w.

(** [socket.emit(...)] on the hook's one socket. *)
Definition emit (m : Outbound) (w : World) : World :=
  perform (SocketEmit (normalizedExamId w) m) w.

(** *** Operations on a connection *)

Definition fresh_pc : RTCPeerConnection :=
  {| onicecandidate := None; onconnectionstatechange := None; closed := false;
     localDescription := None; remoteDescription := None |}.

Definition set_onicecandidate (h : option string) (p : RTCPeerConnection) :=
  {| onicecandidate := h; onconnectionstatechange := onconnectionstatechange p;
     closed := closed p; localDescription := localDescription p;
     remoteDescription := remoteDescription p |}.
Definition set_onconnectionstatechange (h : option string) (p : RTCPeerConnection) :=
  {| onicecandidate := onicecandidate p; onconnectionstatechange := h;
     closed := closed p; localDescription := localDescription p;
     remoteDescription := remoteDescription p |}.
Definition set_closed (p : RTCPeerConnection) :=
  {| onicecandidate := onicecandidate p;
     onconnectionstatechange := onconnectionstatechange p;
     closed := true; localDescription := localDescription p;
     remoteDescription := remoteDescription p |}.
Definition set_localDescription (d : RTCSessionDescriptionInit) (p : RTCPeerConnection) :=
  {| onicecandidate := onicecandidate p;
     onconnectionstatechange := onconnectionstatechange p;
     closed := closed p; localDescription := Some d;
     remoteDescription := remoteDescription p |}.
Definition set_remoteDescription (d : RTCSessionDescriptionInit) (p : RTCPeerConnection) :=
  {| onicecandidate := onicecandidate p;
     onconnectionstatechange := onconnectionstatechange p;
     closed := closed p; localDescription := localDescription p;
     remoteDescription := Some d |}.

(** *** [teardownPeerConnection] (lines 123-139) *)

Definition teardownPeerConnection (proctorSocketId : string) (w : World) : World :=
  match peerConnectionsRef w !! proctorSocketId with
  | None => w
  | Some peer =>
      let w := perform (PcSetHandlerNull peer slot_onicecandidate)
                 (with_pcs (alter (set_onicecandidate None) peer) w) in
      let w := perform (PcSetHandlerNull peer slot_ontrack) w in
      let w := perform (PcSetHandlerNull peer slot_onconnectionstatechange)
                 (with_pcs (alter (set_onconnectionstatechange None) peer) w) in
      let w := perform (PcClose peer) (with_pcs (alter set_closed peer) w) in
      with_peerConnectionsRef (delete proctorSocketId) w
  end.

(** *** [teardownAllPeers] (lines 141-146)

    [Map.forEach] visits the links in the order in which they were
    registered, which the registry of the model does not keep; the model
    takes them in the order of the map's keys.  The two differ in the
    order of the teardown effects of different links in the trace, and in
    nothing else. *)

Definition teardownAllPeers (w : World) : World :=
  let w := foldl (λ w entry, teardownPeerConnection entry.1 w) w
             (map_to_list (peerConnectionsRef w)) in
  with_peerConnectionsRef (λ _, ∅) w.

(** *** [respondToProctorOfferRequest] (lines 148-220) *)

(** Lines 180-208 up to the awaited [createOffer]. *)
Definition open_link (proctorSocketId : string) (stream : MediaStream)
    (w : World) : World :=
  let peerConnection := length (pcs w) in
  let w := with_pcs (λ l, (l ++ [fresh_pc])%list) w in
  let w := with_peerConnectionsRef <[proctorSocketId := peerConnection]> w in
  let w := foldl (λ w track, perform (PcAddTrack peerConnection track) w) w
             (getTracks stream) in
  let w := with_pcs
             (alter (set_onicecandidate (Some proctorSocketId)) peerConnection) w in
  let w := with_pcs
             (alter (set_onconnectionstatechange (Some proctorSocketId))
                peerConnection) w in
  let w := perform (PcCreateOffer peerConnection) w in
  suspend (AwaitCreateOffer peerConnection proctorSocketId) w.

(** Lines 148-173 up to the awaited [cameraManager.start()], or all the
    way to [createOffer] when the camera already runs. *)
Definition respondToProctorOfferRequest (proctorSocketId : string)
    (w : World) : World :=
  match socketRef w with
  | Some true =>
      let w :=
        match peerConnectionsRef w !! proctorSocketId with
        | Some _ => teardownPeerConnection proctorSocketId w
        | None => w
        end in
      match currentStream w with
      | Some stream => open_link proctorSocketId stream w
      | None => suspend (AwaitCameraStart proctorSocketId) (perform CameraStart w)
      end
  | _ =>
      perform (ConsoleWarn "[AICameraMonitor] Socket chưa sẵn sàng để gửi stream") w
  end.

(** The continuation of [await cameraManager.start()] (lines 168-178). *)
Definition resume_camera (proctorSocketId : string) (o : CameraSettled)
    (w : World) : World :=
  match o with
  | CameraRejected _ =>
      perform (ConsoleError
        "[AICameraMonitor] Không thể khởi tạo camera để stream cho giám thị") w
  | CameraFulfilled None =>
      perform (ConsoleWarn
        "[AICameraMonitor] Không có camera stream để gửi cho giám thị") w
  | CameraFulfilled (Some stream) => open_link proctorSocketId stream w
  end.

(** The continuations of the awaited operations of a connection:
    lines 204-217, 270-277 and 287-294. *)
Definition resume (t : Task) (o : Settled) (w : World) : World :=
  match t, o with
  | AwaitCameraStart _, _ => w
  | AwaitCreateOffer pc proctorSocketId, Fulfilled offer =>
      suspend (AwaitSetLocalDescription pc proctorSocketId offer)
        (perform (PcSetLocalDescription pc offer) w)
  | AwaitSetLocalDescription pc proctorSocketId offer, Fulfilled _ =>
      emit (webrtc_offer offer proctorSocketId) w
  | AwaitCreateOffer _ proctorSocketId, Rejected _
  | AwaitSetLocalDescription _ proctorSocketId _, Rejected _ =>
      teardownPeerConnection proctorSocketId
        (perform (ConsoleError
           "[AICameraMonitor] Lỗi khi tạo WebRTC offer cho giám thị") w)
  | AwaitSetRemoteDescription _ _ _, Fulfilled _ => w
  | AwaitSetRemoteDescription _ senderSocketId _, Rejected _ =>
      teardownPeerConnection senderSocketId
        (perform (ConsoleError
           "[AICameraMonitor] Không thể thiết lập remote description") w)
  | AwaitAddIceCandidate _, Fulfilled _ => w
  | AwaitAddIceCandidate _, Rejected _ =>
      perform (ConsoleError "[AICameraMonitor] Không thể thêm ICE candidate") w
  end.

(** What the browser has done to the connection when an operation
    fulfils: the description that was set is now reported. *)
Definition operation_done (t : Task) (o : Settled) (w : World) : World :=
  match t, o with
  | AwaitSetLocalDescription pc _ offer, Fulfilled _ =>
      with_pcs (alter (set_localDescription offer) pc) w
  | AwaitSetRemoteDescription pc _ answer, Fulfilled _ =>
      with_pcs (alter (set_remoteDescription answer) pc) w
  | _, _ => w
  end.

(** The browser settles the promise of the [n]-th suspended handler with
    the result of an operation of a connection.  The WebRTC operations
    chain drops the result of an operation whose connection was closed in
    the meantime (its promise never settles). *)
Definition settle (n : nat) (o : Settled) (w : World) : World :=
  match pending w !! n with
  | None => w
  | Some t =>
      match task_pc t with
      | None => w
      | Some pc =>
          let w := with_pending (delete n) w in
          match pcs w !! pc with
          | Some p =>
              if closed p then w else resume t o (operation_done t o w)
          | None => w
          end
      end
  end.

(** The promise of [cameraManager.start()] of the [n]-th suspended
    handler settles. *)
Definition settle_camera (n : nat) (o : CameraSettled) (w : World) : World :=
  match pending w !! n with
  | Some (AwaitCameraStart proctorSocketId) =>
      resume_camera proctorSocketId o (with_pending (delete n) w)
  | _ => w
  end.

(** *** The socket handlers (lines 252-299) *)

Definition handleOfferRequest (proctorSocketId studentIdToView : option string)
    (w : World) : World :=
  match proctorSocketId with
  | None => w
  | Some proctorSocketId =>
      if negb (truthy proctorSocketId) then w
      else
        match studentIdToView with
        | Some studentIdToView =>
            if truthy studentIdToView
               && negb (bool_decide (studentIdToView = normalizedStudentId w))
            then w
            else respondToProctorOfferRequest proctorSocketId w
        | None => respondToProctorOfferRequest proctorSocketId w
        end
  end.

Definition handleAnswerReceived (answer : option RTCSessionDescriptionInit)
    (senderSocketId : string) (w : World) : World :=
  match peerConnectionsRef w !! senderSocketId, answer with
  | Some peer, Some answer =>
      let apply :=
        match pcs w !! peer ≫= remoteDescription with
        | None => true
        | Some d => negb (bool_decide (sdp_type d = sdp_type answer))
        end in
      if apply
      then suspend (AwaitSetRemoteDescription peer senderSocketId answer)
             (perform (PcSetRemoteDescription peer answer) w)
      else w
  | _, _ => w
  end.

Definition handleIceCandidateReceived (candidate : option string)
    (senderSocketId : string) (w : World) : World :=
  match peerConnectionsRef w !! senderSocketId with
  | None => w
  | Some peer =>
      match candidate with
      | Some c =>
          suspend (AwaitAddIceCandidate peer)
            (perform (PcAddIceCandidate peer (Some c)) w)
      | None => w
      end
  end.

Definition handleSocketDisconnect (w : World) : World := teardownAllPeers w.

(** *** The observers of a connection (lines 187-201) *)

Definition onicecandidate_handler (proctorSocketId : string)
    (candidate : option string) (w : World) : World :=
  match candidate with
  | Some c => emit (webrtc_ice_candidate c proctorSocketId) w
  | None => w
  end.

Definition onconnectionstatechange_handler (proctorSocketId : string)
    (state : RTCPeerConnectionState) (w : World) : World :=
  match state with
  | cs_failed | cs_disconnected | cs_closed =>
      teardownPeerConnection proctorSocketId w
  | _ => w
  end.

(** *** Events and the transition function *)

Inductive Event :=
  | EvSocketConnect
  | EvSocketDisconnect
  | EvOfferRequest (proctorSocketId studentIdToView : option string)
  | EvAnswerReceived (answer : option RTCSessionDescriptionInit)
      (senderSocketId : string)
  | EvIceCandidateReceived (candidate : option string) (senderSocketId : string)
  | EvIceCandidate (pc : nat) (candidate : option string)
  | EvConnectionState (pc : nat) (state : RTCPeerConnectionState)
  | EvCamera (stream : option MediaStream)  (* cameraManager.currentStream changes *)
  | EvStopMonitoring
  | EvSettle (n : nat) (o : Settled)
  | EvSettleCamera (n : nat) (o : CameraSettled).

Definition step (ev : Event) (w : World) : World :=
  match ev with
  | EvSocketConnect => with_socketRef (Some true) w
  | EvSocketDisconnect => handleSocketDisconnect (with_socketRef (Some false) w)
  | EvOfferRequest proctorSocketId studentIdToView =>
      handleOfferRequest proctorSocketId studentIdToView w
  | EvAnswerReceived answer senderSocketId =>
      handleAnswerReceived answer senderSocketId w
  | EvIceCandidateReceived candidate senderSocketId =>
      handleIceCandidateReceived candidate senderSocketId w
  | EvIceCandidate pc candidate =>
      match pcs w !! pc ≫= onicecandidate with
      | Some proctorSocketId => onicecandidate_handler proctorSocketId candidate w
      | None => w
      end
  | EvConnectionState pc state =>
      match pcs w !! pc ≫= onconnectionstatechange with
      | Some proctorSocketId =>
          onconnectionstatechange_handler proctorSocketId state w
      | None => w
      end
  | EvCamera stream => with_currentStream stream w
  | EvStopMonitoring => teardownAllPeers w
  | EvSettle n o => settle n o w
  | EvSettleCamera n o => settle_camera n o w
  end.

Definition run (evs : list Event) (w : World) : World :=
  foldl (λ w ev, step ev w) w evs.

(** *** [handleAdminWarning] and [handleExamTerminated] (lines 301-414)

    What the handler passes to the callback of the hook, if it calls it.
    [sessionId] is the optional prop of the hook; the optional fields of
    the event are [None] when absent; [now] is [new Date().toISOString()]. *)

Definition truthy_opt (o : option string) : bool :=
  match o with Some s => truthy s | None => false end.

Record AdminWarning := {
  aw_sessionId : option string;
  aw_userId : option string;
  aw_examId : option string;
  aw_message : option string;
  aw_sentBy : option string;
  aw_timestamp : option string
}.

Record WarningShown := {
  shown_message : string;
  shown_sentBy : option string;
  shown_timestamp : string
}.

Definition handleAdminWarning (sessionId : option string) (onAdminWarning : bool)
    (now : string) (data : AdminWarning) (w : World) : option WarningShown :=
  let shouldProcess :=
    if truthy_opt sessionId && truthy_opt (aw_sessionId data)
       && bool_decide (aw_sessionId data = sessionId)
    then Some true
    else if truthy_opt (aw_userId data)
            && bool_decide (aw_userId data = Some (normalizedStudentId w))
    then
      if truthy_opt (aw_examId data) then
        if bool_decide (aw_examId data = Some (normalizedExamId w))
        then Some true
        else None          (* return *)
      else Some true
    else Some false in
  match shouldProcess with
  | Some true =>
      if onAdminWarning then
        Some {| shown_message :=
                  if truthy_opt (aw_message data)
                  then default "" (aw_message data)
                  else "Bạn đã nhận được cảnh báo từ giám thị";
                shown_sentBy := aw_sentBy data;
                shown_timestamp :=
                  if truthy_opt (aw_timestamp data)
                  then default "" (aw_timestamp data)
                  else now |}
      else None
  | _ => None
  end.

Record ExamTerminated := {
  et_sessionId : option string;
  et_examId : option string;
  et_userId : option string;
  et_reason : option string;
  et_terminatedBy : option string
}.

Record TerminationShown := {
  shown_reason : string;
  shown_terminatedBy : option string
}.

Definition handleExamTerminated (sessionId : option string) (onExamTerminated : bool)
    (data : ExamTerminated) (w : World) : option TerminationShown :=
  let shouldProcess :=
    if truthy_opt sessionId && truthy_opt (et_sessionId data)
       && bool_decide (et_sessionId data = sessionId)
    then Some true
    else if truthy_opt (et_userId data)
            && bool_decide (et_userId data = Some (normalizedStudentId w))
    then
      if truthy_opt (et_examId data) then
        if bool_decide (et_examId data = Some (normalizedExamId w))
        then Some true
        else None          (* return *)
      else Some true
    else Some false in
  match shouldProcess with
  | Some true =>
      if onExamTerminated then
        Some {| shown_reason :=
                  if truthy_opt (et_reason data)
                  then default "" (et_reason data)
                  else "Phiên thi đã bị dừng bởi giám thị";
                shown_terminatedBy := et_terminatedBy data |}
      else None
  | _ => None
  end.

End Publisher.

(** ** The publisher hook: starting and stopping the monitoring

    [startMonitoring] and [stopMonitoring] of [useAICameraMonitor] (lines
    606-697) with the refs they guard: the use of the shared camera, the
    analysis timer and the visibility listener.  [stopMonitoring] also tears
    down the links of the hook, which are the [Publisher.World] kept in
    [links]. *)

Module Monitoring.

(** What the [catch] of [startMonitoring] looks at: an [Error] with its
    [name] and [message], or some other value. *)
Inductive Caught :=
  | CaughtError (name message : string)
  | CaughtOther.

Inductive Effect :=
  | IncrementUsage                       (* cameraManager.incrementUsage() *)
  | DecrementUsage                       (* cameraManager.decrementUsage() *)
  | StartCamera                          (* cameraManager.start() *)
  | SetInterval (timer : nat)            (* setInterval(analyzeFrame, 3000) *)
  | ClearInterval (timer : nat)
  | AddVisibilityListener (listener : nat)
  | RemoveVisibilityListener (listener : nat)
  | AnalyzeFrame                         (* analyzeFrame(), not awaited *)
  | LogError (text : string)
  | LogInfo (text : string).

#[global] Instance Effect_eq_dec : EqDecision Effect.
Proof. solve_decision. Defined.

(** [CheatingDetection] without its two optional fields. *)
Record CheatingDetection := {
  detection_type : string;
  severity : string;
  confidence : nat;
  timestamp : Z;
  description : string
}.

(** The fields of [CameraState] the two functions write. *)
Record CameraState := {
  isActive : bool;
  isAnalyzing : bool;
  error : option string;
  detections : list CheatingDetection;
  metrics : option nat
}.

Record World := {
  state : CameraState;
  isActiveRef : bool;
  cameraUsageRef : bool;
  analysisIntervalRef : option nat;
  visibilityListenerRef : option nat;
  fresh : nat;              (* the next timer or listener handle *)
  starting : nat;           (* calls suspended at [await cameraManager.start()] *)
  links : Publisher.World;
  trace : list Effect
}.

Definition initial (links : Publisher.World) : World :=
  {| state := {| isActive := false; isAnalyzing := false; error := None;
                 detections := []; metrics := None |};
     isActiveRef := false; cameraUsageRef := false;
     analysisIntervalRef := None; visibilityListenerRef := None;
     fresh := 1; starting := 0; links := links; trace := [] |}.

Definition perform (e : Effect) (w : World) : World :=
  {| state := state w; isActiveRef := isActiveRef w;
     cameraUsageRef := cameraUsageRef w;
     analysisIntervalRef := analysisIntervalRef w;
     visibilityListenerRef := visibilityListenerRef w;
     fresh := fresh w; starting := starting w; links := links w;
     trace := trace w ++ [e] |}.

Definition with_state (f : CameraState → CameraState) (w : World) : World :=
  {| state := f (state w); isActiveRef := isActiveRef w;
     cameraUsageRef := cameraUsageRef w;
     analysisIntervalRef := analysisIntervalRef w;
     visibilityListenerRef := visibilityListenerRef w;
     fresh := fresh w; starting := starting w; links := links w;
     trace := trace w |}.

Definition with_isActiveRef (b : bool) (w : World) : World :=
  {| state := state w; isActiveRef := b;
     cameraUsageRef := cameraUsageRef w;
     analysisIntervalRef := analysisIntervalRef w;
     visibilityListenerRef := visibilityListenerRef w;
     fresh := fresh w; starting := starting w; links := links w;
     trace := trace w |}.

Definition with_cameraUsageRef (b : bool) (w : World) : World :=
  {| state := state w; isActiveRef := isActiveRef w;
     cameraUsageRef := b;
     analysisIntervalRef := analysisIntervalRef w;
     visibilityListenerRef := visibilityListenerRef w;
     fresh := fresh w; starting := starting w; links := links w;
     trace := trace w |}.

Definition with_analysisIntervalRef (t : option nat) (w : World) : World :=
  {| state := state w; isActiveRef := isActiveRef w;
     cameraUsageRef := cameraUsageRef w;
     analysisIntervalRef := t;
     visibilityListenerRef := visibilityListenerRef w;
     fresh := fresh w; starting := starting w; links := links w;
     trace := trace w |}.

Definition with_visibilityListenerRef (l : option nat) (w : World) : World :=
  {| state := state w; isActiveRef := isActiveRef w;
     cameraUsageRef := cameraUsageRef w;
     analysisIntervalRef := analysisIntervalRef w;
     visibilityListenerRef := l;
     fresh := fresh w; starting := starting w; links := links w;
     trace := trace w |}.

Definition with_fresh (n : nat) (w : World) : World :=
  {| state := state w; isActiveRef := isActiveRef w;
     cameraUsageRef := cameraUsageRef w;
     analysisIntervalRef := analysisIntervalRef w;
     visibilityListenerRef := visibilityListenerRef w;
     fresh := n; starting := starting w; links := links w;
     trace := trace w |}.

Definition with_starting (n : nat) (w : World) : World :=
  {| state := state w; isActiveRef := isActiveRef w;
     cameraUsageRef := cameraUsageRef w;
     analysisIntervalRef := analysisIntervalRef w;
     visibilityListenerRef := visibilityListenerRef w;
     fresh := fresh w; starting := n; links := links w;
     trace := trace w |}.

Definition with_links (f : Publisher.World → Publisher.World) (w : World) : World :=
  {| state := state w; isActiveRef := isActiveRef w;
     cameraUsageRef := cameraUsageRef w;
     analysisIntervalRef := analysisIntervalRef w;
     visibilityListenerRef := visibilityListenerRef w;
     fresh := fresh w; starting := starting w; links := f (links w);
     trace := trace w |}.

(** [updateState({...})] for the fields given. *)
Definition set_error (e : option string) (st : CameraState) : CameraState :=
  {| isActive := isActive st; isAnalyzing := isAnalyzing st; error := e;
     detections := detections st; metrics := metrics st |}.
Definition set_isAnalyzing (b : bool) (st : CameraState) : CameraState :=
  {| isActive := isActive st; isAnalyzing := b; error := error st;
     detections := detections st; metrics := metrics st |}.
Definition set_isActive (b : bool) (st : CameraState) : CameraState :=
  {| isActive := b; isAnalyzing := isAnalyzing st; error := error st;
     detections := detections st; metrics := metrics st |}.
Definition clear_results (st : CameraState) : CameraState :=
  {| isActive := isActive st; isAnalyzing := isAnalyzing st; error := error st;
     detections := []; metrics := None |}.

(** [startMonitoring] up to [await cameraManager.start()] (lines 606-619). *)
Definition startMonitoring (w : World) : World :=
  if isActiveRef w then w
  else
    let w := with_state (λ st, set_isAnalyzing true (set_error None st)) w in
    let w :=
      if cameraUsageRef w then w
      else with_cameraUsageRef true (perform IncrementUsage w) in
    with_starting (S (starting w)) (perform StartCamera w).

(** The message the [catch] shows (lines 641-651). *)
Definition errorMessage (err : Caught) : string :=
  match err with
  | CaughtError name message =>
      if bool_decide (name = "NotAllowedError") then
        "Bạn đã từ chối quyền truy cập camera. Vui lòng cho phép camera để tiếp tục."
      else if bool_decide (name = "NotFoundError") then
        "Không tìm thấy camera. Vui lòng kiểm tra camera của bạn."
      else if bool_decide (name = "NotReadableError") then
        "Camera đang được sử dụng bởi ứng dụng khác."
      else if truthy message then message
      else "Không thể khởi động camera AI"
  | CaughtOther => "Không thể khởi động camera AI"
  end.

(** The rest of [startMonitoring] once the camera has started (lines
    621-637), or its [catch] (lines 638-660). *)
Definition startMonitoring_settled (result : option Caught) (w : World) : World :=
  match starting w with
  | 0 => w
  | S n =>
      let w := with_starting n w in
      match result with
      | None =>
          let w := with_state (λ st, set_isAnalyzing false (set_isActive true st)) w in
          let w := with_isActiveRef true w in
          let w :=
            match analysisIntervalRef w with
            | Some _ => w
            | None =>
                with_fresh (S (fresh w))
                  (with_analysisIntervalRef (Some (fresh w))
                     (perform (SetInterval (fresh w)) w))
            end in
          let w := perform AnalyzeFrame w in
          let w := perform (AddVisibilityListener (fresh w)) w in
          with_fresh (S (fresh w)) (with_visibilityListenerRef (Some (fresh w)) w)
      | Some err =>
          let w := perform (LogError "Error starting camera monitoring:") w in
          let w :=
            if cameraUsageRef w
            then with_cameraUsageRef false (perform DecrementUsage w)
            else w in
          with_state (λ st, set_isAnalyzing false (set_error (Some (errorMessage err)) st)) w
      end
  end.

(** [stopMonitoring] (lines 662-697). *)
Definition stopMonitoring (w : World) : World :=
  let w := with_isActiveRef false w in
  let w :=
    match analysisIntervalRef w with
    | Some timer => with_analysisIntervalRef None (perform (ClearInterval timer) w)
    | None => w
    end in
  let w :=
    match visibilityListenerRef w with
    | Some listener =>
        with_visibilityListenerRef None (perform (RemoveVisibilityListener listener) w)
    | None => w
    end in
  let w :=
    if cameraUsageRef w
    then with_cameraUsageRef false (perform DecrementUsage w)
    else w in
  let w := with_links Publisher.teardownAllPeers w in
  let w := with_state (λ st, clear_results (set_isAnalyzing false (set_isActive false st))) w in
  perform (LogInfo
    "[useAICameraMonitor] Camera monitoring stopped. Camera and frame sending disabled.") w.

(** The state updater of [analyzeFrame] that records new detections
    (lines 589-592): [[...prev.detections, ...newDetections].slice(-50)]. *)
Definition record_detections (prev newDetections : list CheatingDetection)
    : list CheatingDetection :=
  let all := prev ++ newDetections in
  drop (length all - 50) all.

Inductive Event :=
  | EvStartMonitoring
  | EvCameraStarted (result : option Caught)
  | EvStopMonitoring
  | EvLink (ev : Publisher.Event).

Definition step (ev : Event) (w : World) : World :=
  match ev with
  | EvStartMonitoring => startMonitoring w
  | EvCameraStarted result => startMonitoring_settled result w
  | EvStopMonitoring => stopMonitoring w
  | EvLink ev => with_links (Publisher.step ev) w
  end.

Inductive reachable : World → Prop :=
  | reachable_initial links : reachable (initial links)
  | reachable_step ev w : reachable w → reachable (step ev w).

(** The analysis timers that were set and not cleared. *)
Fixpoint active_timers (tr : list Effect) (acc : list nat) : list nat :=
  match tr with
  | [] => acc
  | SetInterval t :: tr => active_timers tr (acc ++ [t])
  | ClearInterval t :: tr => active_timers tr (filter (λ t', t' ≠ t) acc)
  | _ :: tr => active_timers tr acc
  end.

(** How often an effect occurs in a trace. *)
Definition occurrences (e : Effect) (tr : list Effect) : nat :=
  length (filter (λ e', e' = e) tr).

End Monitoring.

(** * Vocabulary of the properties

    The predicates the theorems are stated with, and the concrete runs of
    the hooks they are tried on. *)

Section viewer_vocabulary.
Import Viewer.

(** A connection after [teardownPeer]: closed, no observer left. *)
Definition dead_pc : RTCPeerConnection :=
  {| ontrack := None; onicecandidate := None;
     onconnectionstatechange := None; closed := true |}.

(** The link registered for [sessionId] in [w] is gone in [w']: no entry
    in [peersRef], its connection closed with all observers detached, and
    the entry of its remote endpoint removed from [remoteSessionMap]. *)
Definition link_torn_down (w w' : World) (sessionId : string) : Prop :=
  peersRef w' !! sessionId = None ∧
  ∀ peerInfo, peersRef w !! sessionId = Some peerInfo →
    (is_Some (pcs w !! peer_pc peerInfo) →
       pcs w' !! peer_pc peerInfo = Some dead_pc) ∧
    (peer_remoteSocketId peerInfo ≠ "" →
       remoteSessionMap w' !! peer_remoteSocketId peerInfo = None).

Definition stopped (nextStatus : LiveStreamStatus) (errorMessage : option string)
    (prev : option StreamState) : StreamState :=
  {| status := nextStatus; stream := None;
     lastUpdated := prev ≫= lastUpdated;
     error_message := errorMessage; remoteSocketId := None |}.

Definition s1 : ProctoringSession :=
  {| session_id := "s1"; session_examId := "exam-1";
     session_userId := "u1"; session_active := true |}.

Definition offer1 : RTCSessionDescriptionInit :=
  {| sdp_type := "offer"; sdp := "v=0 offer" |}.

Definition answer1 : RTCSessionDescriptionInit :=
  {| sdp_type := "answer"; sdp := "v=0 answer" |}.

Definition camera1 : MediaStream := {| stream_id := 7; getTracks := [71; 72] |}.

(** The session is known, rendered, requested, and an offer of its
    publisher (socket "R") has arrived: the link exists and the handler
    is suspended at [setRemoteDescription]. *)
Definition w_offered : World :=
  run [EvSessions [s1]; EvCommit; EvRequestStream "s1" false; EvCommit;
       EvSocket "exam-1" (webrtc_offer_received offer1 "R" "u1")] initial.

(** The usual course after the offer: the track arrives while the remote
    description is being set, the answer is created, set and sent, then
    the hook renders. *)
Definition w_answered : World :=
  run [EvTrack 0 [camera1] 1000; EvSettle 0 (Fulfilled offer1);
       EvSettle 0 (Fulfilled answer1); EvSettle 0 (Fulfilled answer1);
       EvCommit] w_offered.

(** The link of [sessionId] that was registered as [peerInfo]: still
    registered, or torn down for good. *)
Definition link_phase (sessionId : string) (peerInfo : PeerInfo) (w : World)
    (gone : bool) : Prop :=
  if gone then
    peersRef w !! sessionId = None ∧
    (∀ p, pcs w !! peer_pc peerInfo = Some p → p = dead_pc) ∧
    (peer_remoteSocketId peerInfo ≠ "" →
       remoteSessionMap w !! peer_remoteSocketId peerInfo = None)
  else peersRef w !! sessionId = Some peerInfo.

(** The entries the hook writes, as functions of the entry they replace. *)
Definition idle_entry : StreamState :=
  {| status := idle; stream := None; lastUpdated := None;
     error_message := None; remoteSocketId := None |}.

Definition waiting_entry (prev : option StreamState) : StreamState :=
  {| status := waiting; stream := prev ≫= stream;
     lastUpdated := prev ≫= lastUpdated;
     error_message := None; remoteSocketId := None |}.

Definition connecting_entry (senderSocketId : string)
    (prev : option StreamState) : StreamState :=
  {| status := connecting; stream := prev ≫= stream;
     lastUpdated := prev ≫= lastUpdated;
     error_message := None; remoteSocketId := Some senderSocketId |}.

Definition live_entry (remoteStream : MediaStream) (now : Z)
    (senderSocketId : string) : StreamState :=
  {| status := live; stream := Some remoteStream; lastUpdated := Some now;
     error_message := None; remoteSocketId := Some senderSocketId |}.

(** The events whose handlers can write status [live]. *)
Definition may_turn_live (ev : Event) : bool :=
  match ev with
  | EvTrack _ _ _ => true
  | EvConnectionState _ cs_connected _ => true
  | _ => false
  end.

(** An entry at rest carries neither a stream handle nor a remote
    endpoint. *)
Definition cleared_at_rest (st : StreamState) : Prop :=
  status st = idle ∨ status st = error →
  stream st = None ∧ remoteSocketId st = None.

Definition status_of (w : World) (sessionId : string) : option LiveStreamStatus :=
  status <$> streamStates w !! sessionId.

(** The claim as the specification words it: a session turns [live] only
    in the step of a track event. *)
Definition track_event_is_sole_transition_into_live : Prop :=
  ∀ w ev sessionId,
    reachable w →
    status_of w sessionId ≠ Some live →
    status_of (step ev w) sessionId = Some live →
    ∃ pc streams now, ev = EvTrack pc streams now.

(** Nothing that can still arrive for a torn-down viewer link has an
    effect: messages of its remote endpoint, events of its connection,
    and results of its operations in flight. *)
Definition viewer_link_inert (w : World) (pc : nat) (remote : string) : Prop :=
  (∀ examId candidate,
     step (EvSocket examId (webrtc_ice_candidate_received candidate remote)) w = w) ∧
  (∀ streams now, step (EvTrack pc streams now) w = w) ∧
  (∀ candidate, step (EvIceCandidate pc candidate) w = w) ∧
  (∀ state now, step (EvConnectionState pc state now) w = w) ∧
  (∀ n o t, pending w !! n = Some t → task_pc t = pc →
     settle n o w = with_pending (delete n) w).

(** Every registered link has an open connection whose connection-state
    observer is the one of its session, and every open connection is the
    connection of a registered link. *)
Definition links_consistent (w : World) : Prop :=
  (∀ sessionId peerInfo, peersRef w !! sessionId = Some peerInfo →
     ∃ p, pcs w !! peer_pc peerInfo = Some p ∧ closed p = false
          ∧ onconnectionstatechange p = Some sessionId) ∧
  (∀ pc p, pcs w !! pc = Some p → closed p = false →
     ∃ sessionId peerInfo,
       peersRef w !! sessionId = Some peerInfo ∧ peer_pc peerInfo = pc).

(** The exams whose socket was opened, in the order of opening. *)
Definition socket_opens (tr : list Effect) : list string :=
  omap (λ e, match e with SocketOpen examId => Some examId | _ => None end) tr.

(** Every socket in [socketsRef] was opened once, and no other socket was
    opened. *)
Definition sockets_opened_once (w : World) : Prop :=
  NoDup (socket_opens (trace w)) ∧
  ∀ examId, examId ∈ socket_opens (trace w) ↔ examId ∈ socketsRef w.

(** A second session, of another exam. *)
Definition s2 : ProctoringSession :=
  {| session_id := "s2"; session_examId := "exam-2";
     session_userId := "u2"; session_active := true |}.

(** The session is known and rendered; nothing has been requested. *)
Definition w_rendered : World := run [EvSessions [s1]; EvCommit] initial.

(** Two sessions of two exams, both requested. *)
Definition w_two_exams : World :=
  run [EvSessions [s1; s2]; EvCommit; EvRequestStream "s1" false;
       EvRequestStream "s2" false; EvCommit] initial.


(** An operation that opens no socket. *)
Definition opens_nothing (f : World → World) : Prop :=
  ∀ w, socket_opens (trace (f w)) = socket_opens (trace w)
       ∧ socketsRef (f w) = socketsRef w.

(** [stopStream] for a list of session ids, in order. *)
Definition stop_ids (st : LiveStreamStatus) (msg : option string)
    (ids : list string) (w : World) : World :=
  foldl (λ w sessionId, stopStream sessionId st msg w) w ids.

(** The body of the first loop of the auto-request effect (lines 411-419). *)
Definition request_if_idle (w : World) (session : ProctoringSession) : World :=
  if session_active session then
    match streamStatesRef w !! session_id session with
    | None =>
        if inherited (session_id session) then w
        else requestStream (session_id session) false w
    | Some state =>
        if bool_decide (status state = idle)
        then requestStream (session_id session) false w
        else w
    end
  else w.

(** The ids of the active sessions, and the entries the second loop of the
    auto-request effect stops (lines 421-425): those that hold a stream
    handle and belong to no active session. *)
Definition activeSessionIds (w : World) : gset string :=
  list_to_set (session_id <$> List.filter session_active (sessionsRef w)).

Definition stale_ids (w : World) : list string :=
  (List.filter (λ entry : string * StreamState,
                  bool_decide ((fst entry ∉ activeSessionIds w)
                               ∧ is_Some (stream (snd entry))))
               (map_to_list (streamStatesRef w))).*1.

(** A stream request for the session is outstanding. *)
Definition request_outstanding (sessionId : string) (request : Effect)
    (w : World) : Prop :=
  status <$> streamStates w !! sessionId = Some waiting
  ∧ sessionId ∈ requestedSessionsRef w
  ∧ request ∈ trace w.

End viewer_vocabulary.

Section publisher_vocabulary.
Import Publisher.

(** A connection after [teardownPeerConnection]. *)
Definition closed_pc (p : RTCPeerConnection) : RTCPeerConnection :=
  {| onicecandidate := None; onconnectionstatechange := None; closed := true;
     localDescription := localDescription p;
     remoteDescription := remoteDescription p |}.

(** The socket is connected, the camera runs, and the proctor at socket
    "R" has asked for the stream: the link exists and the handler is
    suspended at [createOffer]. *)
Definition p_offering : World :=
  run [EvSocketConnect; EvCamera (Some camera1);
       EvOfferRequest (Some "R") None] (initial "exam-1" "u1").

(** The offer has been created, set and sent. *)
Definition p_offered : World :=
  run [EvSettle 0 (Fulfilled offer1); EvSettle 0 (Fulfilled offer1)] p_offering.

(** The socket is connected and the camera is off. *)
Definition p_camera_off : World :=
  run [EvSocketConnect] (initial "exam-1" "u1").

(** Two requests of the same proctor arrive while the camera is starting;
    then the camera is there and both handlers go on. *)
Definition overlapping_requests : list Event :=
  [EvSocketConnect;
   EvOfferRequest (Some "R") None;
   EvOfferRequest (Some "R") None;
   EvSettleCamera 0 (CameraFulfilled (Some camera1));
   EvSettleCamera 0 (CameraFulfilled (Some camera1))].

(** The connection [open_link] creates for a proctor, and the same
    connection once the offer has been set. *)
Definition new_link (proctorSocketId : string) : RTCPeerConnection :=
  {| onicecandidate := Some proctorSocketId;
     onconnectionstatechange := Some proctorSocketId;
     closed := false; localDescription := None; remoteDescription := None |}.

Definition offered_link (proctorSocketId : string)
    (offer : RTCSessionDescriptionInit) : RTCPeerConnection :=
  {| onicecandidate := Some proctorSocketId;
     onconnectionstatechange := Some proctorSocketId;
     closed := false; localDescription := Some offer;
     remoteDescription := None |}.

(** The effects of [teardownPeerConnection] on a registered connection. *)
Definition teardown_effects (peer : nat) : list Effect :=
  [PcSetHandlerNull peer slot_onicecandidate;
   PcSetHandlerNull peer slot_ontrack;
   PcSetHandlerNull peer slot_onconnectionstatechange;
   PcClose peer].

(** A request for the stream that the hook does not answer: no proctor
    endpoint, or the stream of another participant. *)
Definition request_filtered (w : World)
    (proctorSocketId studentIdToView : option string) : Prop :=
  proctorSocketId = None ∨ proctorSocketId = Some ""
  ∨ ∃ s, studentIdToView = Some s ∧ s ≠ "" ∧ s ≠ normalizedStudentId w.

(** The socket is connected and the camera runs. *)
Definition p_streaming : World :=
  run [EvSocketConnect; EvCamera (Some camera1)] (initial "exam-1" "u1").

(** The worlds the publisher hook can be in. *)
Inductive publisher_reachable : World → Prop :=
  | publisher_reachable_initial examId studentId :
      publisher_reachable (initial examId studentId)
  | publisher_reachable_step ev w :
      publisher_reachable w → publisher_reachable (step ev w).

(** Every registered connection exists, is open, and has the observers
    of the proctor it is registered for. *)
Definition registry_sound (w : World) : Prop :=
  ∀ proctorSocketId pc, peerConnectionsRef w !! proctorSocketId = Some pc →
    ∃ p, pcs w !! pc = Some p ∧ closed p = false
         ∧ onicecandidate p = Some proctorSocketId
         ∧ onconnectionstatechange p = Some proctorSocketId.

(** An event of the proctor is addressed to the hook when it names the
    session of the hook, or else the participant of the hook and, if it
    names an exam, the exam of the hook. *)
Definition addressed_to_hook (sessionId : option string) (w : World)
    (dataSessionId dataUserId dataExamId : option string) : Prop :=
  (truthy_opt sessionId = true ∧ dataSessionId = sessionId)
  ∨ (dataUserId = Some (normalizedStudentId w) ∧ normalizedStudentId w ≠ ""
     ∧ (truthy_opt dataExamId = false
        ∨ dataExamId = Some (normalizedExamId w))).

End publisher_vocabulary.

(** The hook's use of the shared camera is balanced, and the timers set
    and not cleared are the one in [analysisIntervalRef]. *)
Definition usage_balanced (w : Monitoring.World) : Prop :=
  Monitoring.occurrences Monitoring.IncrementUsage (Monitoring.trace w)
  = (Monitoring.occurrences Monitoring.DecrementUsage (Monitoring.trace w)
     + (if Monitoring.cameraUsageRef w then 1 else 0))%nat.

Definition single_timer (w : Monitoring.World) : Prop :=
  Monitoring.active_timers (Monitoring.trace w) []
  = match Monitoring.analysisIntervalRef w with
    | Some timer => [timer]
    | None => []
    end.

(** Monitoring has been asked to start and waits for the camera; and
    monitoring runs. *)
Definition m_starting : Monitoring.World :=
  Monitoring.step Monitoring.EvStartMonitoring (Monitoring.initial p_camera_off).

Definition m_running : Monitoring.World :=
  Monitoring.step (Monitoring.EvCameraStarted None) m_starting.

(** Nothing that can still arrive for a torn-down publisher link has an
    effect: an answer or a candidate of its remote endpoint, events of its
    connection, and results of its operations in flight. *)
Definition publisher_link_inert (w : Publisher.World) (pc : nat)
    (remote : string) : Prop :=
  (∀ answer, Publisher.step (Publisher.EvAnswerReceived answer remote) w = w) ∧
  (∀ candidate,
     Publisher.step (Publisher.EvIceCandidateReceived candidate remote) w = w) ∧
  (∀ candidate, Publisher.step (Publisher.EvIceCandidate pc candidate) w = w) ∧
  (∀ state, Publisher.step (Publisher.EvConnectionState pc state) w = w) ∧
  (∀ n o t, Publisher.pending w !! n = Some t → Publisher.task_pc t = Some pc →
     Publisher.settle n o w = Publisher.with_pending (delete n) w).

(** * Lists used as queues and tables *)

Lemma lookup_snoc_length {A} (l : list A) (x : A) :
  (l ++ [x]) !! length l = Some x.
Proof. rewrite lookup_app_r by lia. by rewrite Nat.sub_diag. Qed.

Lemma delete_snoc_length {A} (l : list A) (x : A) :
  delete (length l) (l ++ [x]) = l.
Proof.
  induction l as [|a l IH]; [done|]. cbn. f_equal. exact IH.
Qed.

Lemma alter_snoc_length {A} (f : A → A) (l : list A) (x : A) :
  alter f (length l) (l ++ [x]) = l ++ [f x].
Proof. induction l as [|a l IH]; [done|]. cbn. by f_equal. Qed.

(** * Properties of the viewer hook *)

Section viewer_teardown.
Import Viewer.

Lemma stop_tracks_eq ms w :
  stop_tracks ms w =
  {| streamStates := streamStates w; streamStatesRef := streamStatesRef w;
     socketsRef := socketsRef w; peersRef := peersRef w;
     remoteSessionMap := remoteSessionMap w; sessionsRef := sessionsRef w;
     requestedSessionsRef := requestedSessionsRef w; pcs := pcs w;
     pending := pending w; trace := trace w ++ (TrackStop <$> getTracks ms) |}.
Proof.
  unfold stop_tracks. generalize (getTracks ms) as ts. intros ts.
  revert w. induction ts as [|t ts IH]; intros w; simpl.
  - rewrite app_nil_r. by destruct w.
  - rewrite IH. simpl. by rewrite <- app_assoc.
Qed.

Lemma truthy_true s : truthy s = true ↔ s ≠ "".
Proof. unfold truthy. case_bool_decide; naive_solver. Qed.

(** What [teardownPeer] leaves alone. *)
Lemma teardownPeer_frame sessionId w :
  let w' := teardownPeer sessionId w in
  streamStates w' = streamStates w ∧ streamStatesRef w' = streamStatesRef w ∧
  socketsRef w' = socketsRef w ∧ sessionsRef w' = sessionsRef w ∧
  requestedSessionsRef w' = requestedSessionsRef w ∧ pending w' = pending w ∧
  length (pcs w') = length (pcs w).
Proof.
  unfold teardownPeer.
  destruct (peersRef w !! sessionId) as [pi|];
    [destruct (truthy (peer_remoteSocketId pi))|destruct (inherited sessionId)]; simpl;
    (destruct (streamStatesRef w !! sessionId ≫= stream) as [ms|];
     [rewrite stop_tracks_eq|]); simpl;
    rewrite ?length_alter; done.
Qed.

Lemma teardownPeer_peersRef sessionId w :
  peersRef (teardownPeer sessionId w) = delete sessionId (peersRef w).
Proof.
  unfold teardownPeer.
  destruct (peersRef w !! sessionId) as [pi|] eqn:E;
    [destruct (truthy (peer_remoteSocketId pi))|destruct (inherited sessionId)]; simpl;
    (destruct (streamStatesRef w !! sessionId ≫= stream) as [ms|];
     [rewrite stop_tracks_eq|]); simpl; try done;
    by rewrite delete_id.
Qed.

Lemma teardownPeer_remoteSessionMap sessionId w :
  remoteSessionMap (teardownPeer sessionId w) =
  match peersRef w !! sessionId with
  | Some peerInfo =>
      if truthy (peer_remoteSocketId peerInfo)
      then delete (peer_remoteSocketId peerInfo) (remoteSessionMap w)
      else remoteSessionMap w
  | None => remoteSessionMap w
  end.
Proof.
  unfold teardownPeer.
  destruct (peersRef w !! sessionId) as [pi|] eqn:E;
    [destruct (truthy (peer_remoteSocketId pi))|destruct (inherited sessionId)]; simpl;
    (destruct (streamStatesRef w !! sessionId ≫= stream) as [ms|];
     [rewrite stop_tracks_eq|]); simpl; done.
Qed.

Lemma teardownPeer_pcs sessionId w :
  pcs (teardownPeer sessionId w) =
  match peersRef w !! sessionId with
  | Some peerInfo => alter (λ _, dead_pc) (peer_pc peerInfo) (pcs w)
  | None => pcs w
  end.
Proof.
  unfold teardownPeer.
  destruct (peersRef w !! sessionId) as [pi|] eqn:E;
    [destruct (truthy (peer_remoteSocketId pi))|destruct (inherited sessionId)]; simpl;
    (destruct (streamStatesRef w !! sessionId ≫= stream) as [ms|];
     [rewrite stop_tracks_eq|]); simpl; try done;
    rewrite !list_alter_alter_eq; by apply list_alter_ext.
Qed.

Lemma teardownPeer_trace sessionId w :
  trace (teardownPeer sessionId w) =
  (trace w
  ++ match peersRef w !! sessionId with
     | Some peerInfo =>
         [PcSetHandlerNull (peer_pc peerInfo) slot_ontrack;
          PcSetHandlerNull (peer_pc peerInfo) slot_onicecandidate;
          PcSetHandlerNull (peer_pc peerInfo) slot_onconnectionstatechange;
          PcClose (peer_pc peerInfo)]
     | None =>
         if inherited sessionId
         then [ConsoleWarn "Không thể đóng kết nối WebRTC:"]
         else []
     end
  ++ match streamStatesRef w !! sessionId ≫= stream with
     | Some existingStream => TrackStop <$> getTracks existingStream
     | None => []
     end)%list.
Proof.
  unfold teardownPeer.
  destruct (peersRef w !! sessionId) as [pi|] eqn:E;
    [destruct (truthy (peer_remoteSocketId pi))|destruct (inherited sessionId)]; simpl;
    (destruct (streamStatesRef w !! sessionId ≫= stream) as [ms|];
     [rewrite stop_tracks_eq|]); simpl;
    rewrite <- ?app_assoc; simpl; rewrite ?app_nil_r; done.
Qed.

(** [teardownPeer] tears the registered link down. *)
Lemma teardownPeer_torn_down sessionId w :
  link_torn_down w (teardownPeer sessionId w) sessionId.
Proof.
  split.
  - rewrite teardownPeer_peersRef. apply lookup_delete_eq.
  - intros pi Hpi. split.
    + intros [p Hp]. rewrite teardownPeer_pcs, Hpi.
      by rewrite list_lookup_alter_eq, Hp.
    + intros Hne. rewrite teardownPeer_remoteSessionMap, Hpi.
      apply truthy_true in Hne. rewrite Hne. apply lookup_delete_eq.
Qed.

(** *** [stopStream], field by field *)

Lemma stopStream_streamStates sessionId st msg w :
  streamStates (stopStream sessionId st msg w) =
  <[sessionId := stopped st msg (streamStates w !! sessionId)]> (streamStates w).
Proof.
  unfold stopStream. simpl.
  by destruct (teardownPeer_frame sessionId w) as (-> & _).
Qed.

Lemma stopStream_frame sessionId st msg w :
  let w' := stopStream sessionId st msg w in
  streamStatesRef w' = streamStatesRef w ∧ socketsRef w' = socketsRef w ∧
  sessionsRef w' = sessionsRef w ∧ pending w' = pending w ∧
  length (pcs w') = length (pcs w).
Proof.
  unfold stopStream. simpl.
  destruct (teardownPeer_frame sessionId w) as (_ & ? & ? & ? & _ & ? & ?).
  done.
Qed.

Lemma stopStream_peersRef sessionId st msg w :
  peersRef (stopStream sessionId st msg w) = delete sessionId (peersRef w).
Proof. unfold stopStream. simpl. apply teardownPeer_peersRef. Qed.

Lemma stopStream_pcs sessionId st msg w :
  pcs (stopStream sessionId st msg w) = pcs (teardownPeer sessionId w).
Proof. done. Qed.

Lemma stopStream_remoteSessionMap sessionId st msg w :
  remoteSessionMap (stopStream sessionId st msg w) =
  remoteSessionMap (teardownPeer sessionId w).
Proof. done. Qed.

Lemma stopStream_torn_down sessionId st msg w :
  link_torn_down w (stopStream sessionId st msg w) sessionId.
Proof.
  destruct (teardownPeer_torn_down sessionId w) as [H1 H2].
  split; [by rewrite stopStream_peersRef, lookup_delete_eq|].
  intros pi Hpi. rewrite stopStream_pcs, stopStream_remoteSessionMap. auto.
Qed.

End viewer_teardown.

(** ** C3: transport-state transitions *)

Section viewer_transport_state.
Import Viewer.

(** C3.  When the connection-state observer of a viewer connection fires:
    [failed] gives status [error] with the "could not be established"
    message, [disconnected] gives [error] with the "interrupted" message,
    [closed] gives [idle] without a message; in all three the stream
    handle and the remote endpoint are cleared and the session's peer link
    is torn down. *)
Theorem C3_transport_state_to_stream_state w pc sessionId now :
  pcs w !! pc ≫= onconnectionstatechange = Some sessionId →
  let after state := step (EvConnectionState pc state now) w in
  let entry state := streamStates (after state) !! sessionId in
  entry cs_failed =
    Some {| status := error; stream := None;
            lastUpdated := streamStates w !! sessionId ≫= lastUpdated;
            error_message := Some "Không thể thiết lập kết nối video";
            remoteSocketId := None |} ∧
  entry cs_disconnected =
    Some {| status := error; stream := None;
            lastUpdated := streamStates w !! sessionId ≫= lastUpdated;
            error_message := Some "Kết nối video đã bị gián đoạn";
            remoteSocketId := None |} ∧
  entry cs_closed =
    Some {| status := idle; stream := None;
            lastUpdated := streamStates w !! sessionId ≫= lastUpdated;
            error_message := None;
            remoteSocketId := None |} ∧
  ∀ state, state ∈ [cs_failed; cs_disconnected; cs_closed] →
    link_torn_down w (after state) sessionId.
Proof.
  intros Hh after entry. subst after entry. cbv beta.
  unfold step. rewrite Hh. unfold onconnectionstatechange_handler.
  rewrite !stopStream_streamStates, !lookup_insert_eq.
  split; [done|]. split; [done|]. split; [done|].
  intros state Hstate.
  apply elem_of_cons in Hstate as [->|Hstate]; [apply stopStream_torn_down|].
  apply elem_of_cons in Hstate as [->|Hstate]; [apply stopStream_torn_down|].
  apply elem_of_cons in Hstate as [->|Hstate]; [apply stopStream_torn_down|].
  by apply elem_of_nil in Hstate.
Qed.

End viewer_transport_state.

(** C3, at the link of [w_offered]: a [closed] transport leaves the
    session idle and its link torn down. *)
Lemma C3_witness :
  Viewer.streamStates
    (Viewer.step (Viewer.EvConnectionState 0 cs_closed 5) w_offered) !! "s1"
  = Some {| Viewer.status := Viewer.idle; Viewer.stream := None;
            Viewer.lastUpdated :=
              Viewer.streamStates w_offered !! "s1" ≫= Viewer.lastUpdated;
            Viewer.error_message := None; Viewer.remoteSocketId := None |}.
Proof.
  refine (proj1 (proj2 (proj2
    (C3_transport_state_to_stream_state w_offered 0 "s1" 5 _)))).
  vm_compute. reflexivity.
Defined.

(** ** C4: candidates of unknown endpoints *)

Section viewer_candidates.
Import Viewer.

(** The ICE handler never touches the stream states. *)
Lemma on_ice_candidate_received_streamStates candidate senderSocketId w :
  streamStates (on_ice_candidate_received candidate senderSocketId w)
  = streamStates w.
Proof.
  unfold on_ice_candidate_received.
  destruct (remoteSessionMap w !! senderSocketId) as [sid|]; [|done].
  destruct (truthy sid); [|done].
  by destruct (peersRef w !! sid).
Qed.

Lemma on_ice_candidate_received_unmapped candidate senderSocketId w :
  (remoteSessionMap w !! senderSocketId = None ∨
   ∃ sessionId, remoteSessionMap w !! senderSocketId = Some sessionId
                ∧ peersRef w !! sessionId = None) →
  on_ice_candidate_received candidate senderSocketId w = w.
Proof.
  intros H. unfold on_ice_candidate_received.
  destruct H as [->|(sid & -> & ->)]; [done|].
  by destruct (truthy sid).
Qed.

Lemma socket_event_candidate_unmapped examId candidate senderSocketId w :
  remoteSessionMap w !! senderSocketId = None →
  socket_event examId (webrtc_ice_candidate_received candidate senderSocketId) w
  = w.
Proof.
  intros H. unfold socket_event. case_bool_decide; [|done].
  apply on_ice_candidate_received_unmapped. by left.
Qed.

(** C4.  An inbound ICE candidate whose sender has no entry in the
    endpoint-to-session map, or whose mapped session has no peer
    connection, is dropped: the world, and with it every stream state,
    stays as it was. *)
Theorem C4_unmapped_candidate_dropped w examId candidate senderSocketId :
  (remoteSessionMap w !! senderSocketId = None ∨
   ∃ sessionId, remoteSessionMap w !! senderSocketId = Some sessionId
                ∧ peersRef w !! sessionId = None) →
  step (EvSocket examId
          (webrtc_ice_candidate_received candidate senderSocketId)) w = w.
Proof.
  intros H. cbn [step]. unfold socket_event.
  case_bool_decide; [|done].
  by apply on_ice_candidate_received_unmapped.
Qed.

End viewer_candidates.

(** C4, at a candidate of the unknown endpoint "X" while the link to "R"
    is up. *)
Lemma C4_witness :
  Viewer.step (Viewer.EvSocket "exam-1"
          (Viewer.webrtc_ice_candidate_received (Some "candidate:1") "X"))
       w_offered = w_offered.
Proof.
  apply C4_unmapped_candidate_dropped. left. vm_compute. reflexivity.
Defined.

(** ** C7: the signaling channel disconnects *)

Section viewer_disconnect.
Import Viewer.

Lemma stop_sessions_cons session related msg w :
  stop_sessions (session :: related) msg w
  = stop_sessions related msg
      (stopStream (session_id session) error (Some msg) w).
Proof. done. Qed.

(** [stopStream] keeps the time stamp of every entry. *)
Lemma stopStream_lastUpdated sessionId' st msg w sessionId :
  streamStates (stopStream sessionId' st msg w) !! sessionId ≫= lastUpdated
  = streamStates w !! sessionId ≫= lastUpdated.
Proof.
  rewrite stopStream_streamStates.
  destruct (decide (sessionId' = sessionId)) as [->|Hne].
  - by rewrite lookup_insert_eq.
  - by rewrite lookup_insert_ne.
Qed.

(** An entry that was stopped with [msg] stays as it is while further
    sessions are stopped with [msg]. *)
Lemma stop_sessions_keeps_stopped related msg w sessionId lu :
  streamStates w !! sessionId
    = Some {| status := error; stream := None; lastUpdated := lu;
              error_message := Some msg; remoteSocketId := None |} →
  streamStates (stop_sessions related msg w) !! sessionId
    = Some {| status := error; stream := None; lastUpdated := lu;
              error_message := Some msg; remoteSocketId := None |}.
Proof.
  revert w. induction related as [|a related IH]; intros w Hw; [done|].
  rewrite stop_sessions_cons. apply IH.
  rewrite stopStream_streamStates.
  destruct (decide (session_id a = sessionId)) as [->|Hne].
  - rewrite lookup_insert_eq, Hw. done.
  - by rewrite lookup_insert_ne.
Qed.

Lemma stop_sessions_entry related msg w session :
  session ∈ related →
  streamStates (stop_sessions related msg w) !! session_id session
    = Some {| status := error; stream := None;
              lastUpdated := streamStates w !! session_id session ≫= lastUpdated;
              error_message := Some msg; remoteSocketId := None |}.
Proof.
  revert w. induction related as [|a related IH]; intros w Hin.
  - by apply elem_of_nil in Hin.
  - rewrite stop_sessions_cons.
    apply elem_of_cons in Hin as [->|Hin].
    + apply stop_sessions_keeps_stopped.
      by rewrite stopStream_streamStates, lookup_insert_eq.
    + rewrite IH by done. by rewrite stopStream_lastUpdated.
Qed.

Lemma alter_dead_lookup i j (l : list RTCPeerConnection) p :
  (∀ q, l !! j = Some q → q = dead_pc) →
  alter (λ _, dead_pc) i l !! j = Some p → p = dead_pc.
Proof.
  intros Hl. destruct (decide (i = j)) as [->|Hne].
  - rewrite list_lookup_alter_eq. destruct (l !! j); simpl; congruence.
  - rewrite list_lookup_alter_ne by done. apply Hl.
Qed.

Lemma stopStream_link_phase sessionId peerInfo sessionId' st msg w gone :
  link_phase sessionId peerInfo w gone →
  link_phase sessionId peerInfo (stopStream sessionId' st msg w)
    (gone || bool_decide (sessionId' = sessionId)).
Proof.
  destruct gone; unfold link_phase; cbn [orb].
  - intros (Hp & Hpc & Hr). split; [|split].
    + rewrite stopStream_peersRef, lookup_delete. by case_decide.
    + intros p. rewrite stopStream_pcs, teardownPeer_pcs.
      destruct (peersRef w !! sessionId') as [pi'|]; [|by apply Hpc].
      by apply alter_dead_lookup.
    + intros Hne.
      rewrite stopStream_remoteSessionMap, teardownPeer_remoteSessionMap.
      destruct (peersRef w !! sessionId') as [pi'|]; [|by auto].
      destruct (truthy (peer_remoteSocketId pi')); [|by auto].
      rewrite lookup_delete. case_decide; auto.
  - intros Hp. case_bool_decide as Heq.
    + subst sessionId'.
      destruct (stopStream_torn_down sessionId st msg w) as [H1 H2].
      destruct (H2 _ Hp) as [H3 H4]. split; [done|]. split; [|done].
      intros p. rewrite stopStream_pcs, teardownPeer_pcs, Hp.
      rewrite list_lookup_alter_eq.
      destruct (pcs w !! peer_pc peerInfo); simpl; congruence.
    + rewrite stopStream_peersRef. by rewrite lookup_delete_ne.
Qed.

Lemma stop_sessions_link_phase related msg w sessionId peerInfo gone :
  link_phase sessionId peerInfo w gone →
  link_phase sessionId peerInfo (stop_sessions related msg w)
    (gone || bool_decide (sessionId ∈ session_id <$> related)).
Proof.
  revert w gone. induction related as [|a related IH]; intros w gone Hw.
  - rewrite bool_decide_eq_false_2 by set_solver.
    by rewrite orb_false_r.
  - rewrite stop_sessions_cons.
    apply (stopStream_link_phase _ _ (session_id a) error (Some msg)) in Hw.
    apply IH in Hw.
    replace (gone || bool_decide (sessionId ∈ session_id <$> a :: related))
      with (gone || bool_decide (session_id a = sessionId)
                 || bool_decide (sessionId ∈ session_id <$> related)); [done|].
    rewrite <- orb_assoc. f_equal.
    rewrite fmap_cons.
    apply eq_true_iff_eq. rewrite orb_true_iff, !bool_decide_eq_true.
    rewrite elem_of_cons.
    split; (intros [?|?]; [left; congruence | by right]).
Qed.

Lemma stop_sessions_peersRef_None related msg w sessionId :
  peersRef w !! sessionId = None →
  peersRef (stop_sessions related msg w) !! sessionId = None.
Proof.
  revert w. induction related as [|a related IH]; intros w Hw; [done|].
  rewrite stop_sessions_cons. apply IH.
  rewrite stopStream_peersRef, lookup_delete. by case_decide.
Qed.

Lemma stop_sessions_pcs_length related msg w :
  length (pcs (stop_sessions related msg w)) = length (pcs w).
Proof.
  revert w. induction related as [|a related IH]; intros w; [done|].
  rewrite stop_sessions_cons, IH.
  apply (stopStream_frame (session_id a) error (Some msg) w).
Qed.

Lemma stop_sessions_torn_down related msg w session :
  session ∈ related →
  link_torn_down w (stop_sessions related msg w) (session_id session).
Proof.
  intros Hin.
  assert (Hid : session_id session ∈ session_id <$> related)
    by (apply list_elem_of_fmap; eauto).
  destruct (peersRef w !! session_id session) as [pi|] eqn:Hpi.
  - pose proof (stop_sessions_link_phase related msg w
                  (session_id session) pi false Hpi) as Hph.
    rewrite (bool_decide_eq_true_2 _ Hid) in Hph.
    destruct Hph as (H1 & H2 & H3).
    split; [done|]. intros pi' Hpi'. rewrite Hpi in Hpi'.
    injection Hpi' as <-.
    split; [|done]. intros Hsome.
    apply lookup_lt_is_Some in Hsome.
    rewrite <- (stop_sessions_pcs_length related msg) in Hsome.
    apply lookup_lt_is_Some in Hsome as [p Hp].
    rewrite Hp. f_equal. by apply H2.
  - split; [by apply stop_sessions_peersRef_None|]. intros pi' Hpi'.
    rewrite Hpi in Hpi'. discriminate.
Qed.

(** C7.  When the socket of an exam emits [disconnect], every session of
    that exam in the session list gets status [error] with the "lost
    connection to the proctoring server" message, a null stream handle
    and no remote endpoint, and its peer link is torn down.  The handler
    runs to its end within the event. *)
Theorem C7_disconnect_stops_sessions_of_exam w examId session :
  examId ∈ socketsRef w →
  session ∈ sessionsRef w →
  session_examId session = examId →
  let w' := step (EvSocket examId disconnect) w in
  streamStates w' !! session_id session
    = Some {| status := error; stream := None;
              lastUpdated := streamStates w !! session_id session ≫= lastUpdated;
              error_message := Some "Mất kết nối tới máy chủ giám sát";
              remoteSocketId := None |}
  ∧ link_torn_down w w' (session_id session).
Proof.
  intros Hsock Hin Hexam w'. subst w'.
  unfold step, socket_event. rewrite (bool_decide_eq_true_2 _ Hsock).
  unfold on_disconnect.
  assert (session ∈ filter (λ s, session_examId s = examId) (sessionsRef w))
    by (by apply list_elem_of_filter).
  split.
  - by apply stop_sessions_entry.
  - by apply stop_sessions_torn_down.
Qed.

End viewer_disconnect.

(** C7, at the live session of exam "exam-1". *)
Lemma C7_witness :
  let w := Viewer.step (Viewer.EvConnectionState 0 cs_connected 2000) w_answered in
  let w' := Viewer.step (Viewer.EvSocket "exam-1" Viewer.disconnect) w in
  Viewer.status <$> Viewer.streamStates w !! "s1" = Some Viewer.live ∧
  Viewer.streamStates w' !! "s1"
    = Some {| Viewer.status := Viewer.error; Viewer.stream := None;
              Viewer.lastUpdated := Some 2000%Z;
              Viewer.error_message := Some "Mất kết nối tới máy chủ giám sát";
              Viewer.remoteSocketId := None |}.
Proof.
  intros w w'. split; [vm_compute; reflexivity|].
  refine (proj1 (C7_disconnect_stops_sessions_of_exam w "exam-1" s1 _ _ _)).
  - apply (bool_decide_unpack _). vm_compute. exact I.
  - apply list_elem_of_In. vm_compute. left. reflexivity.
  - reflexivity.
Defined.

(** ** How the events change the stream states *)

Section viewer_updates.
Import Viewer.

Lemma ensureSocket_streamStates examId w :
  streamStates (ensureSocket examId w) = streamStates w
  ∧ streamStatesRef (ensureSocket examId w) = streamStatesRef w.
Proof. unfold ensureSocket. by destruct (_ || _). Qed.

Lemma requestStream_streamStates sessionId force w :
  streamStates (requestStream sessionId force w) = streamStates w ∨
  streamStates (requestStream sessionId force w)
    = <[sessionId := waiting_entry (streamStates w !! sessionId)]> (streamStates w).
Proof.
  unfold requestStream.
  destruct (List.find _ _) as [session|]; [|by left].
  destruct (negb force && _); [by left|]. right.
  destruct (bool_decide (_ ∈ socketsRef _)); simpl;
    by destruct (ensureSocket_streamStates (session_examId session) w) as [-> _].
Qed.

Lemma requestStream_streamStatesRef sessionId force w :
  streamStatesRef (requestStream sessionId force w) = streamStatesRef w.
Proof.
  unfold requestStream.
  destruct (List.find _ _) as [session|]; [|done].
  destruct (negb force && _); [done|].
  destruct (bool_decide (_ ∈ socketsRef _)); simpl;
    by destruct (ensureSocket_streamStates (session_examId session) w) as [_ ->].
Qed.

Lemma stop_sessions_streamStatesRef related msg w :
  streamStatesRef (stop_sessions related msg w) = streamStatesRef w.
Proof.
  revert w. induction related as [|a related IH]; intros w; [done|].
  rewrite stop_sessions_cons, IH.
  apply (stopStream_frame (session_id a) error (Some msg) w).
Qed.

Lemma on_offer_received_streamStates examId offer senderSocketId studentId w :
  streamStates (on_offer_received examId offer senderSocketId studentId w)
    = streamStates w
  ∧ streamStatesRef (on_offer_received examId offer senderSocketId studentId w)
    = streamStatesRef w.
Proof.
  unfold on_offer_received.
  destruct (List.find _ _) as [session|]; [|done]. simpl.
  destruct (teardownPeer_frame (session_id session) w) as (-> & -> & _). done.
Qed.

Lemma on_ice_candidate_received_streamStatesRef candidate senderSocketId w :
  streamStatesRef (on_ice_candidate_received candidate senderSocketId w)
  = streamStatesRef w.
Proof.
  unfold on_ice_candidate_received.
  destruct (remoteSessionMap w !! senderSocketId) as [sid|]; [|done].
  destruct (truthy sid); [|done].
  by destruct (peersRef w !! sid).
Qed.

(** What [resume] writes. *)
Lemma resume_streamStates t o w :
  streamStates (resume t o w) = streamStates w ∨
  (∃ sessionId senderSocketId,
     streamStates (resume t o w)
     = <[sessionId := connecting_entry senderSocketId (streamStates w !! sessionId)]>
         (streamStates w)) ∨
  (∃ sessionId msg,
     streamStates (resume t o w)
     = <[sessionId := stopped error msg (streamStates w !! sessionId)]>
         (streamStates w)).
Proof.
  destruct t as [pc ctx|pc ctx|pc ctx answer], o as [v|reason];
    unfold resume;
    try (right; right; eexists _, _; apply stopStream_streamStates);
    try (by left).
  right; left. by eexists _, _.
Qed.

Lemma resume_streamStatesRef t o w :
  streamStatesRef (resume t o w) = streamStatesRef w.
Proof.
  destruct t as [pc ctx|pc ctx|pc ctx answer], o as [v|reason];
    unfold resume; try done;
    apply (stopStream_frame (ctx_sessionId ctx) error _ w).
Qed.

Lemma settle_cases n o w :
  settle n o w = w ∨ settle n o w = with_pending (delete n) w ∨
  ∃ t, settle n o w = resume t o (with_pending (delete n) w).
Proof.
  unfold settle. destruct (pending w !! n) as [t|]; [|by left].
  simpl. destruct (pcs w !! task_pc t) as [p|]; [|by right; left].
  destruct (closed p); [by right; left|]. right; right. by eexists.
Qed.

Section preserved.
(** A property of the stream-state map that every write of the hook
    keeps, except the two writes of status [live]. *)
Variable J : gmap string StreamState → Prop.
Hypothesis J_idle : ∀ m sessionId,
  m !! sessionId = None → J m → J (<[sessionId := idle_entry]> m).
Hypothesis J_stopped : ∀ m sessionId st msg,
  st ≠ live → J m → J (<[sessionId := stopped st msg (m !! sessionId)]> m).
Hypothesis J_waiting : ∀ m sessionId,
  J m → J (<[sessionId := waiting_entry (m !! sessionId)]> m).
Hypothesis J_connecting : ∀ m sessionId senderSocketId,
  J m → J (<[sessionId := connecting_entry senderSocketId (m !! sessionId)]> m).

Lemma J_stopStream sessionId st msg w :
  st ≠ live → J (streamStates w) →
  J (streamStates (stopStream sessionId st msg w)).
Proof. intros. rewrite stopStream_streamStates. by apply J_stopped. Qed.

Lemma J_stop_sessions related msg w :
  J (streamStates w) → J (streamStates (stop_sessions related msg w)).
Proof.
  revert w. induction related as [|a related IH]; intros w Hw; [done|].
  rewrite stop_sessions_cons. apply IH. by apply J_stopStream.
Qed.

Lemma J_requestStream sessionId force w :
  J (streamStates w) → J (streamStates (requestStream sessionId force w)).
Proof.
  intros Hw.
  destruct (requestStream_streamStates sessionId force w) as [->| ->]; auto.
Qed.

Lemma J_sessions_changed allSessions w :
  J (streamStates w) → J (streamStates (sessions_changed allSessions w)).
Proof.
  intros Hw. unfold sessions_changed.
  destruct allSessions as [|a l]; [done|].
  cbn [streamStates setStreamStates with_sessionsRef].
  generalize (a :: l). intros sessions.
  revert Hw. generalize (streamStates w) as m.
  induction sessions as [|x sessions IH]; intros m Hm; [done|].
  cbn [foldl]. apply IH.
  destruct (m !! session_id x) eqn:E; [done|].
  destruct (inherited (session_id x)); [done|]. by apply J_idle.
Qed.

Lemma J_auto_request autoRequest w :
  J (streamStates w) → J (streamStates (auto_request autoRequest w)).
Proof.
  intros Hw. unfold auto_request.
  destruct (negb autoRequest); [done|].
  generalize (map_to_list (streamStatesRef w)) as entries.
  generalize (list_to_set (session_id <$> List.filter session_active (sessionsRef w))
              : gset string) as active.
  intros active entries.
  assert (Hw1 : ∀ l w0, J (streamStates w0) →
    J (streamStates
      (foldl (λ w session,
             if session_active session then
               match streamStatesRef w !! session_id session with
               | None =>
                   if inherited (session_id session) then w
                   else requestStream (session_id session) false w
               | Some state =>
                   if bool_decide (status state = idle)
                   then requestStream (session_id session) false w
                   else w
               end
             else w) w0 l))).
  { induction l as [|x l IH]; intros w0 H0; [done|].
    cbn [foldl]. apply IH.
    destruct (session_active x); [|done].
    destruct (streamStatesRef w0 !! session_id x) as [state|];
      [case_bool_decide|destruct (inherited (session_id x))];
      auto using J_requestStream. }
  specialize (Hw1 (sessionsRef w) w Hw). revert Hw1.
  generalize (foldl (λ w session,
             if session_active session then
               match streamStatesRef w !! session_id session with
               | None =>
                   if inherited (session_id session) then w
                   else requestStream (session_id session) false w
               | Some state =>
                   if bool_decide (status state = idle)
                   then requestStream (session_id session) false w
                   else w
               end
             else w) w (sessionsRef w)) as w1.
  induction entries as [|[sid state] entries IH]; intros w1 H1; [done|].
  cbn [foldl]. apply IH.
  case_bool_decide; [|done]. by apply J_stopStream.
Qed.

Lemma J_resume t o w :
  J (streamStates w) → J (streamStates (resume t o w)).
Proof.
  intros Hw.
  destruct (resume_streamStates t o w)
    as [->|[(sid & sender & ->)|(sid & msg & ->)]]; auto.
Qed.

Lemma J_settle n o w :
  J (streamStates w) → J (streamStates (settle n o w)).
Proof.
  intros Hw.
  destruct (settle_cases n o w) as [->|[->|[t ->]]]; [done|done|].
  by apply J_resume.
Qed.

Lemma J_socket_event examId e w :
  J (streamStates w) → J (streamStates (socket_event examId e w)).
Proof.
  intros Hw. unfold socket_event. case_bool_decide; [|done].
  destruct e as [| |userId|offer sender student|candidate sender].
  - by apply J_stop_sessions.
  - by apply J_stop_sessions.
  - by apply J_stop_sessions.
  - by destruct (on_offer_received_streamStates examId offer sender student w)
      as [-> _].
  - by rewrite on_ice_candidate_received_streamStates.
Qed.

(** Every event but a track event and a [connected] transport state
    keeps [J]. *)
Lemma J_step ev w :
  may_turn_live ev = false →
  J (streamStates w) → J (streamStates (step ev w)).
Proof.
  intros Hev Hw.
  destruct ev as [allSessions| |autoRequest|sid force|sid|examId e
                  |pc streams now|pc candidate|pc state now|n o];
    cbn [step]; try discriminate.
  - by apply J_sessions_changed.
  - done.
  - by apply J_auto_request.
  - by apply J_requestStream.
  - by apply J_stopStream.
  - by apply J_socket_event.
  - destruct (pcs w !! pc ≫= onicecandidate) as [[examId sender]|]; [|done].
    by destruct candidate.
  - destruct (pcs w !! pc ≫= onconnectionstatechange) as [sid|]; [|done].
    destruct state; try discriminate; cbn [onconnectionstatechange_handler];
      try done; by apply J_stopStream.
  - by apply J_settle.
Qed.

End preserved.

(** The ref only changes when the hook renders. *)
Lemma step_streamStatesRef ev w :
  streamStatesRef (step ev w)
  = match ev with EvCommit => streamStates w | _ => streamStatesRef w end.
Proof.
  destruct ev as [allSessions| |autoRequest|sid force|sid|examId e
                  |pc streams now|pc candidate|pc state now|n o];
    cbn [step].
  - unfold sessions_changed. by destruct allSessions.
  - done.
  - unfold auto_request. destruct (negb autoRequest); [done|].
    set (f1 := λ (w : World) (session : ProctoringSession), _).
    set (f2 := λ (w : World) (entry : string * StreamState), _).
    assert (H1 : ∀ l w0, streamStatesRef (foldl f1 w0 l) = streamStatesRef w0).
    { induction l as [|x l IH]; intros w0; [done|].
      cbn [foldl]. rewrite IH. unfold f1.
      destruct (session_active x); [|done].
      destruct (streamStatesRef w0 !! session_id x) as [state|];
        [case_bool_decide|destruct (inherited (session_id x))];
        auto using requestStream_streamStatesRef. }
    assert (H2 : ∀ l w0, streamStatesRef (foldl f2 w0 l) = streamStatesRef w0).
    { induction l as [|[sid state] l IH]; intros w0; [done|].
      cbn [foldl]. rewrite IH. unfold f2.
      case_bool_decide; [|done]. apply (stopStream_frame sid idle None w0). }
    by rewrite H2, H1.
  - apply requestStream_streamStatesRef.
  - apply (stopStream_frame sid idle None w).
  - unfold socket_event. case_bool_decide; [|done].
    destruct e as [| |userId|offer sender student|candidate sender].
    + apply stop_sessions_streamStatesRef.
    + apply stop_sessions_streamStatesRef.
    + apply stop_sessions_streamStatesRef.
    + apply on_offer_received_streamStates.
    + apply on_ice_candidate_received_streamStatesRef.
  - destruct (pcs w !! pc ≫= ontrack) as [[sid sender]|]; [|done].
    unfold ontrack_handler. destruct streams as [|ms ?]; [done|].
    by case_bool_decide.
  - destruct (pcs w !! pc ≫= onicecandidate) as [[examId sender]|]; [|done].
    by destruct candidate.
  - destruct (pcs w !! pc ≫= onconnectionstatechange) as [sid|]; [|done].
    destruct state; cbn [onconnectionstatechange_handler]; try done;
      try apply (stopStream_frame sid _ _ w).
    destruct (streamStatesRef w !! sid) as [cur|]; [|done].
    by destruct (_ && _).
  - destruct (settle_cases n o w) as [->|[->|[t ->]]]; [done|done|].
    by rewrite resume_streamStatesRef.
Qed.

End viewer_updates.

(** ** Invariants of the stream-state store *)

Section viewer_invariants.
Import Viewer.

Lemma reachable_run evs w : reachable w → reachable (run evs w).
Proof.
  revert w. induction evs as [|ev evs IH]; intros w Hw; [done|].
  apply IH. by constructor.
Qed.

Section store_invariant.
(** A property of the stream-state map that every write keeps holds of
    the state and of the ref in every reachable world. *)
Variable J : gmap string StreamState → Prop.
Hypothesis J_empty : J ∅.
Hypothesis J_idle : ∀ m sessionId,
  m !! sessionId = None → J m → J (<[sessionId := idle_entry]> m).
Hypothesis J_stopped : ∀ m sessionId st msg,
  st ≠ live → J m → J (<[sessionId := stopped st msg (m !! sessionId)]> m).
Hypothesis J_waiting : ∀ m sessionId,
  J m → J (<[sessionId := waiting_entry (m !! sessionId)]> m).
Hypothesis J_connecting : ∀ m sessionId senderSocketId,
  J m → J (<[sessionId := connecting_entry senderSocketId (m !! sessionId)]> m).
Hypothesis J_live : ∀ m sessionId remoteStream now senderSocketId,
  length (getTracks remoteStream) ≠ 0 → J m →
  J (<[sessionId := live_entry remoteStream now senderSocketId]> m).
Hypothesis J_mark : ∀ m sessionId now,
  J m → J (<[sessionId := mark_live now (m !! sessionId)]> m).

Lemma store_invariant_step ev w :
  J (streamStates w) → J (streamStates (step ev w)).
Proof.
  intros Hw. destruct (may_turn_live ev) eqn:Hev.
  - destruct ev as [| | | | | |pc streams now| |pc state now|];
      try discriminate; cbn [step].
    + destruct (pcs w !! pc ≫= ontrack) as [[sid sender]|]; [|done].
      unfold ontrack_handler. destruct streams as [|ms ?]; [done|].
      case_bool_decide; [done|]. by apply J_live.
    + destruct state; try discriminate.
      destruct (pcs w !! pc ≫= onconnectionstatechange) as [sid|]; [|done].
      cbn [onconnectionstatechange_handler].
      destruct (streamStatesRef w !! sid) as [cur|]; [|done].
      destruct (_ && _); [|done]. by apply J_mark.
  - by apply J_step.
Qed.

Lemma store_invariant w :
  reachable w → J (streamStates w) ∧ J (streamStatesRef w).
Proof.
  induction 1 as [|ev w Hw [IH1 IH2]]; [done|]. split.
  - by apply store_invariant_step.
  - rewrite step_streamStatesRef. by destruct ev.
Qed.

End store_invariant.

(** C10.  In every reachable world, an entry of the stream-state map (and
    of the copy the callbacks read) whose status is [idle] or [error] has
    a null stream handle and no remote endpoint reference. *)
Theorem C10_idle_or_error_entries_are_cleared w sessionId st :
  reachable w →
  streamStates w !! sessionId = Some st ∨ streamStatesRef w !! sessionId = Some st →
  status st = idle ∨ status st = error →
  stream st = None ∧ remoteSocketId st = None.
Proof.
  intros Hw Hst.
  destruct (store_invariant (map_Forall (λ _, cleared_at_rest))) with (w := w)
    as [H1 H2]; [| | | | | | |exact Hw|].
  - apply map_Forall_empty.
  - intros m sid _ Hm. apply map_Forall_insert_2; [|done]. by intros _.
  - intros m sid s msg _ Hm. apply map_Forall_insert_2; [|done]. by intros _.
  - intros m sid Hm. apply map_Forall_insert_2; [|done].
    intros [?|?]; discriminate.
  - intros m sid sender Hm. apply map_Forall_insert_2; [|done].
    intros [?|?]; discriminate.
  - intros m sid ms now sender _ Hm. apply map_Forall_insert_2; [|done].
    intros [?|?]; discriminate.
  - intros m sid now Hm. apply map_Forall_insert_2; [|done].
    intros [?|?]; discriminate.
  - destruct Hst as [Hst|Hst]; [exact (H1 _ _ Hst)|exact (H2 _ _ Hst)].
Qed.

(** Every stream handle in the store came with at least one track. *)
Lemma stream_handles_have_tracks w sessionId st remoteStream :
  reachable w →
  streamStates w !! sessionId = Some st ∨ streamStatesRef w !! sessionId = Some st →
  stream st = Some remoteStream →
  length (getTracks remoteStream) ≠ 0.
Proof.
  intros Hw Hst.
  pose (P := λ st : StreamState,
          ∀ ms, stream st = Some ms → length (getTracks ms) ≠ 0).
  assert (Hprev : ∀ (m : gmap string StreamState) sid ms,
            map_Forall (λ _, P) m → m !! sid ≫= stream = Some ms →
            length (getTracks ms) ≠ 0).
  { intros m sid ms Hm. destruct (m !! sid) as [s|] eqn:E; [|done].
    simpl. by apply (Hm _ _ E). }
  destruct (store_invariant (map_Forall (λ _, P))) with (w := w)
    as [H1 H2]; [| | | | | | |exact Hw|].
  - apply map_Forall_empty.
  - intros m sid _ Hm. apply map_Forall_insert_2; [|done]. by intros ms.
  - intros m sid s msg _ Hm. apply map_Forall_insert_2; [|done]. by intros ms.
  - intros m sid Hm. apply map_Forall_insert_2; [|done].
    intros ms. by apply Hprev.
  - intros m sid sender Hm. apply map_Forall_insert_2; [|done].
    intros ms. by apply Hprev.
  - intros m sid ms now sender Hlen Hm. apply map_Forall_insert_2; [|done].
    intros ms' [= <-]. done.
  - intros m sid now Hm. apply map_Forall_insert_2; [|done].
    intros ms. by apply Hprev.
  - destruct Hst as [Hst|Hst];
      [exact (H1 _ _ Hst remoteStream)|exact (H2 _ _ Hst remoteStream)].
Qed.

End viewer_invariants.

(** C10, at the session that was stopped after its link had gone live:
    its entry is idle and carries no handle. *)
Lemma C10_witness :
  let w := Viewer.run [Viewer.EvConnectionState 0 cs_connected 2000;
                       Viewer.EvStopStream "s1"] w_answered in
  let st := {| Viewer.status := Viewer.idle; Viewer.stream := None;
               Viewer.lastUpdated := Some 2000%Z;
               Viewer.error_message := None; Viewer.remoteSocketId := None |} in
  Viewer.streamStates w !! "s1" = Some st ∧
  Viewer.stream st = None ∧ Viewer.remoteSocketId st = None.
Proof.
  intros w st. split; [vm_compute; reflexivity|].
  apply (C10_idle_or_error_entries_are_cleared w "s1" st).
  - unfold w, w_answered, w_offered.
    repeat apply reachable_run. apply Viewer.reachable_initial.
  - left. vm_compute. reflexivity.
  - left. reflexivity.
Defined.

(** ** C2: the transitions into [live] *)

Section viewer_live.
Import Viewer.

Lemma not_live_insert (m : gmap string StreamState) sessionId sessionId' st :
  status st ≠ live →
  status <$> m !! sessionId ≠ Some live →
  status <$> <[sessionId' := st]> m !! sessionId ≠ Some live.
Proof.
  intros Hst Hm. destruct (decide (sessionId' = sessionId)) as [->|Hne].
  - rewrite lookup_insert_eq. simpl. congruence.
  - by rewrite lookup_insert_ne.
Qed.

(** Events other than a track event and a [connected] transport state do
    not turn a session [live]. *)
Lemma quiet_step_not_live ev w sessionId :
  may_turn_live ev = false →
  status_of w sessionId ≠ Some live →
  status_of (step ev w) sessionId ≠ Some live.
Proof.
  intros Hev. unfold status_of.
  apply (J_step (λ m, status <$> m !! sessionId ≠ Some live)); try done.
  - intros m sid _. by apply not_live_insert.
  - intros m sid st msg Hst. by apply not_live_insert.
  - intros m sid. by apply not_live_insert.
  - intros m sid sender. by apply not_live_insert.
Qed.

(** C2 (amended).  A session whose status is not [live] turns [live] in
    exactly two ways: (i) a track event on its connection delivers a
    stream with at least one track, and that stream is stored in the
    entry; (ii) a [connected] transport state arrives while the entry the
    callbacks read already holds a stream handle, which an earlier track
    event delivered with at least one track.  A [connected] transport
    state that finds no stream handle changes nothing. *)
Theorem C2_transitions_into_live w sessionId :
  reachable w →
  (∀ ev,
     status_of w sessionId ≠ Some live →
     status_of (step ev w) sessionId = Some live →
     (∃ pc senderSocketId remoteStream rest now,
        ev = EvTrack pc (remoteStream :: rest) now ∧
        pcs w !! pc ≫= ontrack = Some (sessionId, senderSocketId) ∧
        length (getTracks remoteStream) ≠ 0 ∧
        streamStates (step ev w) !! sessionId
          = Some (live_entry remoteStream now senderSocketId))
     ∨
     (∃ pc now currentState handle,
        ev = EvConnectionState pc cs_connected now ∧
        pcs w !! pc ≫= onconnectionstatechange = Some sessionId ∧
        streamStatesRef w !! sessionId = Some currentState ∧
        status currentState ≠ live ∧
        stream currentState = Some handle ∧
        length (getTracks handle) ≠ 0))
  ∧
  (∀ pc now,
     pcs w !! pc ≫= onconnectionstatechange = Some sessionId →
     streamStatesRef w !! sessionId ≫= stream = None →
     step (EvConnectionState pc cs_connected now) w = w).
Proof.
  intros Hreach. split.
  - intros ev Hbefore Hafter.
    destruct (may_turn_live ev) eqn:Hev.
    + destruct ev as [| | | | | |pc streams now| |pc state now|];
        try discriminate.
      * left. unfold status_of in *. cbn [step] in *.
        destruct (pcs w !! pc ≫= ontrack) as [[sid sender]|] eqn:Hh;
          [|congruence].
        unfold ontrack_handler in *.
        destruct streams as [|ms rest]; [congruence|].
        case_bool_decide as Hlen; [congruence|].
        cbn [streamStates setStreamStates] in *.
        destruct (decide (sid = sessionId)) as [->|Hne].
        -- exists pc, sender, ms, rest, now.
           by rewrite lookup_insert_eq.
        -- rewrite lookup_insert_ne in Hafter by done. congruence.
      * right. destruct state; try discriminate.
        unfold status_of in *. cbn [step] in *.
        destruct (pcs w !! pc ≫= onconnectionstatechange) as [sid|] eqn:Hh;
          [|congruence].
        cbn [onconnectionstatechange_handler] in *.
        destruct (streamStatesRef w !! sid) as [cur|] eqn:Hcur; [|congruence].
        destruct (bool_decide (status cur ≠ live)
                  && bool_decide (is_Some (stream cur))) eqn:Hg; [|congruence].
        apply andb_true_iff in Hg as [Hg1 Hg2].
        apply bool_decide_eq_true in Hg1, Hg2.
        cbn [streamStates setStreamStates] in *.
        destruct (decide (sid = sessionId)) as [->|Hne].
        -- destruct Hg2 as [handle Hhandle].
           exists pc, now, cur, handle. repeat split; try done.
           eapply (stream_handles_have_tracks w sessionId cur); eauto.
        -- rewrite lookup_insert_ne in Hafter by done. congruence.
    + exfalso. by eapply (quiet_step_not_live ev w sessionId).
  - intros pc now Hh Hnone. cbn [step]. rewrite Hh.
    cbn [onconnectionstatechange_handler].
    destruct (streamStatesRef w !! sessionId) as [cur|]; [|done].
    simpl in Hnone. rewrite Hnone.
    rewrite (bool_decide_eq_false_2 (is_Some None)) by (by intros [? ?]).
    by rewrite andb_false_r.
Qed.

Lemma w_answered_reachable : reachable w_answered.
Proof.
  unfold w_answered, w_offered. repeat apply reachable_run. constructor.
Qed.

(** C2, as worded, fails on the usual course of a negotiation: the track
    arrives while the remote description is being set and the entry turns
    [live]; the end of the offer handler then writes [connecting] and
    keeps the handle; the [connected] transport state, not a track event,
    turns the entry [live] again. *)
Lemma C2_counterexample :
  reachable w_answered ∧
  status_of w_answered "s1" = Some connecting ∧
  status_of (step (EvConnectionState 0 cs_connected 2000) w_answered) "s1"
    = Some live ∧
  ¬ track_event_is_sole_transition_into_live.
Proof.
  split; [apply w_answered_reachable|].
  split; [vm_compute; reflexivity|].
  split; [vm_compute; reflexivity|].
  intros Hclaim.
  destruct (Hclaim w_answered (EvConnectionState 0 cs_connected 2000) "s1")
    as (pc & streams & now & Hev).
  - apply w_answered_reachable.
  - vm_compute. discriminate.
  - vm_compute. reflexivity.
  - discriminate.
Qed.

(** C2 (amended), at the [connected] event of the counterexample: it is
    the second way into [live], with the handle of the earlier track
    event. *)
Lemma C2_witness :
  ∃ pc now currentState handle,
    EvConnectionState 0 cs_connected 2000 = EvConnectionState pc cs_connected now ∧
    pcs w_answered !! pc ≫= onconnectionstatechange = Some "s1" ∧
    streamStatesRef w_answered !! "s1" = Some currentState ∧
    status currentState ≠ live ∧
    stream currentState = Some handle ∧
    length (getTracks handle) ≠ 0.
Proof.
  destruct (proj1 (C2_transitions_into_live w_answered "s1" w_answered_reachable)
              (EvConnectionState 0 cs_connected 2000))
    as [(pc & sender & ms & rest & now & Hev & _)|H].
  - vm_compute. discriminate.
  - vm_compute. reflexivity.
  - discriminate.
  - exact H.
Defined.

End viewer_live.

(** ** C5: repeated stream requests *)

Section viewer_requests.
Import Viewer.

(** [requestStream] never reads [requestedSessionsRef]: whatever the set
    holds, the same effects follow. *)
Lemma requestStream_ignores_requested sessionId force requested w :
  trace (requestStream sessionId force
           (with_requestedSessionsRef (λ _, requested) w))
  = trace (requestStream sessionId force w).
Proof.
  unfold requestStream. cbn [sessionsRef streamStatesRef with_requestedSessionsRef].
  destruct (List.find _ _) as [session|]; [|done].
  destruct (negb force && _); [done|].
  unfold ensureSocket. cbn [socketsRef with_requestedSessionsRef].
  destruct (bool_decide (session_examId session ∈ socketsRef w)
            || inherited (session_examId session));
    cbn [socketsRef setStreamStates with_requestedSessionsRef with_socketsRef
         perform];
    by destruct (bool_decide _).
Qed.

(** Once the hook has rendered the [waiting] state, a second request
    without [force] does nothing. *)
Lemma requestStream_after_render sessionId w session :
  List.find (λ s, bool_decide (session_id s = sessionId)) (sessionsRef w)
    = Some session →
  status <$> streamStatesRef w !! sessionId = Some idle →
  let w1 := commit (requestStream sessionId false w) in
  status_of w1 sessionId = Some waiting ∧ requestStream sessionId false w1 = w1.
Proof.
  intros Hs Hidle w1.
  assert (Hst : streamStates (requestStream sessionId false w) !! sessionId
                = Some (waiting_entry (streamStates w !! sessionId))).
  { unfold requestStream. rewrite Hs.
    destruct (streamStatesRef w !! sessionId) as [st|]; [|done].
    injection Hidle as Hidle. rewrite Hidle.
    cbn [negb andb bool_decide].
    rewrite bool_decide_eq_false_2 by (intros [?|[?|?]]; discriminate).
    destruct (bool_decide (_ ∈ socketsRef _));
      cbn [streamStates setStreamStates perform with_requestedSessionsRef];
      destruct (ensureSocket_streamStates (session_examId session) w) as [-> _];
      by rewrite lookup_insert_eq. }
  split.
  - unfold status_of, w1, commit. cbn [streamStates with_streamStatesRef].
    by rewrite Hst.
  - unfold requestStream at 1.
    replace (sessionsRef w1) with (sessionsRef w).
    + rewrite Hs. unfold w1 at 1, commit at 1.
      cbn [streamStatesRef with_streamStatesRef]. rewrite Hst.
      cbn [status waiting_entry negb andb].
      by rewrite bool_decide_eq_true_2 by (by left).
    + unfold w1, commit, requestStream. rewrite Hs.
      destruct (negb false && _); [done|].
      destruct (bool_decide (_ ∈ socketsRef _));
        cbn [sessionsRef with_streamStatesRef perform setStreamStates
             with_requestedSessionsRef];
        unfold ensureSocket; by destruct (_ || _).
Qed.

(** C5 at two requests for the idle session "s1" with no render in
    between: the first call marks "s1" as requested, the second call does
    not look at the mark, finds the ref still [idle], and sends a second
    stream request. *)
Theorem C5_back_to_back_requests_are_both_sent :
  let w0 := run [EvSessions [s1]; EvCommit] initial in
  let w1 := requestStream "s1" false w0 in
  let w2 := requestStream "s1" false w1 in
  status <$> streamStatesRef w0 !! "s1" = Some idle ∧
  bool_decide ("s1" ∈ requestedSessionsRef w1) = true ∧
  status <$> streamStatesRef w1 !! "s1" = Some idle ∧
  trace w2 = [SocketOpen "exam-1";
              SocketEmit "exam-1" (proctor_request_stream "u1");
              SocketEmit "exam-1" (proctor_request_stream "u1")] ∧
  length (filter (λ e, e = SocketEmit "exam-1" (proctor_request_stream "u1"))
            (trace w2)) = 2.
Proof. vm_compute. repeat split; reflexivity. Qed.

End viewer_requests.

(** * Properties of the publisher hook *)

Section publisher_teardown.
Import Publisher.

Lemma teardownPeerConnection_absent proctorSocketId w :
  peerConnectionsRef w !! proctorSocketId = None →
  teardownPeerConnection proctorSocketId w = w.
Proof. intros H. unfold teardownPeerConnection. by rewrite H. Qed.

Lemma teardownPeerConnection_present proctorSocketId peer w :
  peerConnectionsRef w !! proctorSocketId = Some peer →
  teardownPeerConnection proctorSocketId w =
  {| normalizedExamId := normalizedExamId w;
     normalizedStudentId := normalizedStudentId w;
     socketRef := socketRef w;
     peerConnectionsRef := delete proctorSocketId (peerConnectionsRef w);
     pcs := alter closed_pc peer (pcs w);
     currentStream := currentStream w;
     pending := pending w;
     trace := trace w ++ [PcSetHandlerNull peer slot_onicecandidate;
                          PcSetHandlerNull peer slot_ontrack;
                          PcSetHandlerNull peer slot_onconnectionstatechange;
                          PcClose peer] |}.
Proof.
  intros H. unfold teardownPeerConnection. rewrite H.
  destruct w as [exam student sock reg conns cam tasks tr].
  cbv beta iota delta
    [with_peerConnectionsRef perform with_pcs normalizedExamId
     normalizedStudentId socketRef peerConnectionsRef pcs currentStream
     pending trace].
  f_equal.
  - rewrite !list_alter_alter_eq. by apply list_alter_ext.
  - by rewrite <- !app_assoc.
Qed.

Lemma settle_closed n o w t pc p :
  pending w !! n = Some t → task_pc t = Some pc →
  pcs w !! pc = Some p → closed p = true →
  settle n o w = with_pending (delete n) w.
Proof.
  intros Ht Hpc Hp Hc. unfold settle. rewrite Ht, Hpc.
  cbn [pcs with_pending]. by rewrite Hp, Hc.
Qed.

End publisher_teardown.

Section viewer_cancellation.
Import Viewer.

Lemma viewer_settle_closed n o w t p :
  pending w !! n = Some t →
  pcs w !! task_pc t = Some p → closed p = true →
  settle n o w = with_pending (delete n) w.
Proof.
  intros Ht Hp Hc. unfold settle. rewrite Ht.
  cbn [pcs with_pending]. by rewrite Hp, Hc.
Qed.

Lemma teardownPeer_inert sessionId peerInfo w :
  peersRef w !! sessionId = Some peerInfo →
  is_Some (pcs w !! peer_pc peerInfo) →
  peer_remoteSocketId peerInfo ≠ "" →
  viewer_link_inert (teardownPeer sessionId w)
    (peer_pc peerInfo) (peer_remoteSocketId peerInfo).
Proof.
  intros Hpi Hpc Hne.
  destruct (teardownPeer_torn_down sessionId w) as [_ Htd].
  destruct (Htd _ Hpi) as [Hdead Hmap].
  specialize (Hdead Hpc). specialize (Hmap Hne).
  repeat split.
  - intros examId candidate. cbn [step].
    by apply socket_event_candidate_unmapped.
  - intros streams now. cbn [step]. by rewrite Hdead.
  - intros candidate. cbn [step]. by rewrite Hdead.
  - intros state now. cbn [step]. by rewrite Hdead.
  - intros n o t Ht Hpc'.
    eapply viewer_settle_closed; [exact Ht|rewrite Hpc'; exact Hdead|done].
Qed.

End viewer_cancellation.

(** ** C9: teardown as the cancellation mechanism *)

Section teardown_cancels.

Lemma teardownPeerConnection_inert proctorSocketId peer p w :
  Publisher.peerConnectionsRef w !! proctorSocketId = Some peer →
  Publisher.pcs w !! peer = Some p →
  publisher_link_inert (Publisher.teardownPeerConnection proctorSocketId w)
    peer proctorSocketId.
Proof.
  intros Hpeer Hp.
  rewrite (teardownPeerConnection_present _ _ _ Hpeer).
  repeat split.
  - intros answer. cbn [Publisher.step]. unfold Publisher.handleAnswerReceived.
    cbn [Publisher.peerConnectionsRef]. by rewrite lookup_delete_eq.
  - intros candidate. cbn [Publisher.step].
    unfold Publisher.handleIceCandidateReceived.
    cbn [Publisher.peerConnectionsRef]. by rewrite lookup_delete_eq.
  - intros candidate. cbn [Publisher.step Publisher.pcs].
    by rewrite list_lookup_alter_eq, Hp.
  - intros state. cbn [Publisher.step Publisher.pcs].
    by rewrite list_lookup_alter_eq, Hp.
  - intros n o t Ht Hpc.
    eapply settle_closed; [exact Ht|exact Hpc| |].
    + cbn [Publisher.pcs]. by rewrite list_lookup_alter_eq, Hp.
    + done.
Qed.

(** C9.  On both sides, tearing a link down first sets the three observer
    slots of its connection to null, then closes the connection, and
    removes the link from the registry (on the viewer also the entry of
    its remote endpoint from the endpoint-to-session map).  Afterwards
    nothing that still arrives for the link has an effect: a candidate or
    an answer of its remote endpoint is dropped, its connection has no
    observer left to call, and the result of an operation of the closed
    connection is discarded. *)
Theorem C9_teardown_detaches_then_closes
    (wv : Viewer.World) sessionId peerInfo
    (wp : Publisher.World) proctorSocketId peer p :
  Viewer.peersRef wv !! sessionId = Some peerInfo →
  is_Some (Viewer.pcs wv !! Viewer.peer_pc peerInfo) →
  Viewer.peer_remoteSocketId peerInfo ≠ "" →
  Publisher.peerConnectionsRef wp !! proctorSocketId = Some peer →
  Publisher.pcs wp !! peer = Some p →
  let wv' := Viewer.teardownPeer sessionId wv in
  let wp' := Publisher.teardownPeerConnection proctorSocketId wp in
  let pc := Viewer.peer_pc peerInfo in
  (* viewer *)
  (∃ stops,
     Viewer.trace wv' =
       (Viewer.trace wv
        ++ [PcSetHandlerNull pc slot_ontrack;
            PcSetHandlerNull pc slot_onicecandidate;
            PcSetHandlerNull pc slot_onconnectionstatechange;
            PcClose pc]
        ++ (TrackStop <$> stops))%list) ∧
  Viewer.pcs wv' !! pc = Some dead_pc ∧
  Viewer.peersRef wv' !! sessionId = None ∧
  Viewer.remoteSessionMap wv' !! Viewer.peer_remoteSocketId peerInfo = None ∧
  viewer_link_inert wv' pc (Viewer.peer_remoteSocketId peerInfo) ∧
  (* publisher *)
  Publisher.trace wp' =
    (Publisher.trace wp
     ++ [PcSetHandlerNull peer slot_onicecandidate;
         PcSetHandlerNull peer slot_ontrack;
         PcSetHandlerNull peer slot_onconnectionstatechange;
         PcClose peer])%list ∧
  Publisher.pcs wp' !! peer = Some (closed_pc p) ∧
  Publisher.peerConnectionsRef wp' !! proctorSocketId = None ∧
  publisher_link_inert wp' peer proctorSocketId.
Proof.
  intros Hpi Hpc Hne Hpeer Hp wv' wp' pc.
  destruct (teardownPeer_torn_down sessionId wv) as [Hnone Htd].
  destruct (Htd _ Hpi) as [Hdead Hmap].
  split; [|split; [|split; [|split; [|split; [|split; [|split; [|split]]]]]]].
  - unfold wv'. rewrite teardownPeer_trace, Hpi.
    destruct (Viewer.streamStatesRef wv !! sessionId ≫= Viewer.stream) as [ms|].
    + by exists (getTracks ms).
    + by exists [].
  - by apply Hdead.
  - done.
  - by apply Hmap.
  - by apply teardownPeer_inert.
  - unfold wp'. by rewrite (teardownPeerConnection_present _ _ _ Hpeer).
  - unfold wp'. rewrite (teardownPeerConnection_present _ _ _ Hpeer).
    cbn [Publisher.pcs]. by rewrite list_lookup_alter_eq, Hp.
  - unfold wp'. rewrite (teardownPeerConnection_present _ _ _ Hpeer).
    cbn [Publisher.peerConnectionsRef]. apply lookup_delete_eq.
  - by eapply teardownPeerConnection_inert.
Qed.

End teardown_cancels.

(** C9, at the viewer link of [w_offered] and the publisher link of
    [p_offering]. *)
Lemma C9_witness :
  Viewer.pcs (Viewer.teardownPeer "s1" w_offered) !! 0 = Some dead_pc ∧
  Publisher.peerConnectionsRef
    (Publisher.teardownPeerConnection "R" p_offering) !! "R" = None.
Proof.
  pose proof (C9_teardown_detaches_then_closes
    w_offered "s1"
    {| Viewer.peer_pc := 0; Viewer.peer_remoteSocketId := "R";
       Viewer.peer_examId := "exam-1" |}
    p_offering "R" 0
    {| Publisher.onicecandidate := Some "R";
       Publisher.onconnectionstatechange := Some "R";
       Publisher.closed := false;
       Publisher.localDescription := None;
       Publisher.remoteDescription := None |}) as H.
  destruct H as (_ & Hv & _ & _ & _ & _ & _ & Hp & _).
  - vm_compute. reflexivity.
  - vm_compute. eexists. reflexivity.
  - discriminate.
  - vm_compute. reflexivity.
  - vm_compute. reflexivity.
  - split; [exact Hv|exact Hp].
Defined.

(** ** C6: the answer of the viewer *)

Section publisher_answer.
Import Publisher.

Lemma with_pending_suspend_delete t w :
  with_pending (delete (length (pending w))) (suspend t w) = w.
Proof.
  destruct w as [exam student sock reg conns cam tasks tr].
  unfold suspend, with_pending.
  cbn [normalizedExamId normalizedStudentId socketRef peerConnectionsRef pcs
       currentStream pending trace].
  f_equal. apply delete_snoc_length.
Qed.

(** The handler that was suspended last resumes when its operation
    settles on an open connection. *)
Lemma settle_suspended t o w pc p :
  task_pc t = Some pc → pcs w !! pc = Some p → closed p = false →
  settle (length (pending w)) o (suspend t w)
  = resume t o (operation_done t o w).
Proof.
  intros Ht Hp Hc. unfold settle.
  replace (pending (suspend t w) !! length (pending w)) with (Some t)
    by (symmetry; apply lookup_snoc_length).
  rewrite Ht, with_pending_suspend_delete. by rewrite Hp, Hc.
Qed.

(** A suspended handler resumes when its operation settles on an open
    connection. *)
Lemma settle_at n o w t pc p :
  pending w !! n = Some t → task_pc t = Some pc →
  pcs w !! pc = Some p → closed p = false →
  settle n o w = resume t o (operation_done t o (with_pending (delete n) w)).
Proof.
  intros Hn Ht Hp Hc. unfold settle. rewrite Hn, Ht. cbv zeta.
  cbn [pcs with_pending]. by rewrite Hp, Hc.
Qed.

(** For a registered, open connection the answer is handed to
    [setRemoteDescription] exactly when the connection reports no remote
    description or one of another type.  After a first delivery has run
    its course (whether the operation succeeds or fails), a second
    delivery of the same answer changes nothing. *)
Lemma answer_applied_once_settled w answer senderSocketId peer p o :
  peerConnectionsRef w !! senderSocketId = Some peer →
  pcs w !! peer = Some p →
  closed p = false →
  let deliver := handleAnswerReceived (Some answer) senderSocketId in
  (remoteDescription p = None
   ∨ (∃ d, remoteDescription p = Some d ∧ sdp_type d ≠ sdp_type answer) →
   deliver w = suspend (AwaitSetRemoteDescription peer senderSocketId answer)
                 (perform (PcSetRemoteDescription peer answer) w)) ∧
  ((∃ d, remoteDescription p = Some d ∧ sdp_type d = sdp_type answer) →
   deliver w = w) ∧
  let once := settle (length (pending w)) o (deliver w) in
  deliver once = once.
Proof.
  intros Hpeer Hp Hopen deliver.
  assert (Hyes : remoteDescription p = None
                 ∨ (∃ d, remoteDescription p = Some d
                         ∧ sdp_type d ≠ sdp_type answer) →
            deliver w = suspend (AwaitSetRemoteDescription peer senderSocketId answer)
                          (perform (PcSetRemoteDescription peer answer) w)).
  { intros H. unfold deliver, handleAnswerReceived. rewrite Hpeer, Hp. simpl.
    destruct H as [->|(d & -> & Hd)]; [done|].
    by rewrite bool_decide_eq_false_2. }
  assert (Hno : (∃ d, remoteDescription p = Some d
                      ∧ sdp_type d = sdp_type answer) → deliver w = w).
  { intros (d & Hd & Ht). unfold deliver, handleAnswerReceived.
    rewrite Hpeer, Hp. simpl. rewrite Hd.
    by rewrite bool_decide_eq_true_2. }
  split; [exact Hyes|]. split; [exact Hno|].
  intros once.
  assert (Happlied :
    deliver w = suspend (AwaitSetRemoteDescription peer senderSocketId answer)
                  (perform (PcSetRemoteDescription peer answer) w) →
    deliver once = once).
  { intros Hd. unfold once. rewrite Hd.
    pose proof (settle_suspended
                  (AwaitSetRemoteDescription peer senderSocketId answer) o
                  (perform (PcSetRemoteDescription peer answer) w) peer p
                  eq_refl Hp Hopen) as Hs.
    cbn [pending perform] in Hs. rewrite Hs. clear Hs.
    destruct o as [v|reason]; cbn [operation_done resume].
    - unfold deliver, handleAnswerReceived.
      cbn [peerConnectionsRef pcs with_pcs perform]. rewrite Hpeer.
      rewrite list_lookup_alter_eq, Hp.
      cbn [fmap option_fmap option_map mbind option_bind
           remoteDescription set_remoteDescription].
      by rewrite bool_decide_eq_true_2.
    - erewrite teardownPeerConnection_present by exact Hpeer.
      unfold deliver, handleAnswerReceived.
      cbn [peerConnectionsRef]. by rewrite lookup_delete_eq. }
  destruct (remoteDescription p) as [d|] eqn:Hrd.
  - destruct (decide (sdp_type d = sdp_type answer)) as [Heq|Hneq].
    + unfold once. rewrite Hno by eauto.
      unfold settle. rewrite lookup_ge_None_2 by lia. apply Hno; eauto.
    + apply Happlied, Hyes. right. eauto.
  - apply Happlied, Hyes. by left.
Qed.

(** C6.  The guard of [handleAnswerReceived] reads [remoteDescription],
    which the connection reports only once [setRemoteDescription] has
    fulfilled.  A duplicate of the answer that arrives while the first
    [setRemoteDescription] is in flight passes the guard as well: the
    answer is handed to the connection a second time, and when the browser
    rejects that second call the handler tears down the link that the
    first call had completed.  Delivered once, the same answer leaves the
    link registered and open with the answer as its remote description. *)
Theorem C6_duplicate_answer_in_flight_is_applied_again
    w answer senderSocketId peer p value reason :
  peerConnectionsRef w !! senderSocketId = Some peer →
  pcs w !! peer = Some p →
  closed p = false →
  (remoteDescription p = None
   ∨ ∃ d, remoteDescription p = Some d ∧ sdp_type d ≠ sdp_type answer) →
  let deliver := step (EvAnswerReceived (Some answer) senderSocketId) in
  let n := length (pending w) in
  let once := step (EvSettle n (Fulfilled value)) (deliver w) in
  let twice := deliver (deliver w) in
  let w' := run [EvSettle n (Fulfilled value); EvSettle n (Rejected reason)]
              twice in
  (trace once = trace w ++ [PcSetRemoteDescription peer answer]
   ∧ peerConnectionsRef once !! senderSocketId = Some peer
   ∧ pcs once !! peer = Some (set_remoteDescription answer p))
  ∧ (trace twice = trace w ++ [PcSetRemoteDescription peer answer;
                               PcSetRemoteDescription peer answer]
     ∧ pending twice
       = pending w ++ [AwaitSetRemoteDescription peer senderSocketId answer;
                       AwaitSetRemoteDescription peer senderSocketId answer])
  ∧ (trace w' = trace twice
                ++ [ConsoleError
                      "[AICameraMonitor] Không thể thiết lập remote description"]
                ++ teardown_effects peer
     ∧ peerConnectionsRef w' !! senderSocketId = None
     ∧ pcs w' !! peer = Some (closed_pc (set_remoteDescription answer p))).
Proof.
  intros Hpeer Hp Hopen Hrd deliver n once twice w'.
  set (t := AwaitSetRemoteDescription peer senderSocketId answer).
  set (e := PcSetRemoteDescription peer answer).
  assert (Hd : ∀ u, peerConnectionsRef u = peerConnectionsRef w →
                    pcs u = pcs w → deliver u = suspend t (perform e u)).
  { intros u Hr Hc. unfold deliver. cbn [step]. unfold handleAnswerReceived.
    rewrite Hr, Hc, Hpeer, Hp. simpl.
    destruct Hrd as [->|(d & -> & Hd)]; [done|].
    by rewrite bool_decide_eq_false_2. }
  assert (H1 : deliver w = suspend t (perform e w)) by by apply Hd.
  assert (H2 : twice = suspend t (perform e (suspend t (perform e w)))).
  { unfold twice. rewrite H1. by apply Hd. }
  split; [|split].
  - unfold once. rewrite H1. cbn [step].
    change n with (length (pending (perform e w))).
    rewrite (settle_suspended t _ (perform e w) peer p) by done.
    cbn [resume operation_done t].
    cbn [trace peerConnectionsRef pcs with_pcs perform].
    split_and!; [done|done|]. by rewrite list_lookup_alter_eq, Hp.
  - rewrite H2. cbn [trace pending suspend with_pending perform].
    by rewrite <- !app_assoc.
  - unfold w', run. cbn [foldl step]. rewrite H2.
    set (w2 := suspend t (perform e (suspend t (perform e w)))).
    assert (Hpend2 : pending w2 = pending w ++ [t; t])
      by (unfold w2; cbn [pending suspend with_pending perform];
          by rewrite <- app_assoc).
    assert (Hn2 : pending w2 !! n = Some t)
      by (rewrite Hpend2; apply list_lookup_middle; done).
    rewrite (settle_at n _ w2 t peer p) by done.
    cbn [resume operation_done t].
    set (w3 := with_pcs _ _).
    assert (Hpend3 : pending w3 = pending w ++ [t]).
    { unfold w3. cbn [pending with_pcs with_pending]. rewrite Hpend2.
      apply (delete_middle (pending w) [t] t). }
    assert (Hn3 : pending w3 !! n = Some t)
      by (rewrite Hpend3; apply lookup_snoc_length).
    assert (Hp3 : pcs w3 !! peer = Some (set_remoteDescription answer p))
      by (unfold w3; cbn [pcs with_pcs with_pending];
          unfold w2; cbn [pcs suspend with_pending perform];
          by rewrite list_lookup_alter_eq, Hp).
    rewrite (settle_at n _ w3 t peer (set_remoteDescription answer p)) by done.
    cbn [resume operation_done t].
    set (w4 := perform _ _).
    assert (Hreg4 : peerConnectionsRef w4 !! senderSocketId = Some peer)
      by exact Hpeer.
    rewrite (teardownPeerConnection_present _ _ _ Hreg4).
    cbn [trace peerConnectionsRef pcs].
    split_and!.
    + unfold w4, w3. cbn [trace perform with_pcs with_pending].
      by rewrite <- app_assoc.
    + by rewrite lookup_delete_eq.
    + change (pcs w4) with (pcs w3). by rewrite list_lookup_alter_eq, Hp3.
Qed.

(** C6, at the answer to the offer of [p_offered]: the duplicate arrives
    while the first [setRemoteDescription] is in flight, the first call
    fulfils and the second is rejected. *)
Lemma C6_witness :
  let deliver := step (EvAnswerReceived (Some answer1) "R") in
  let w' := run [EvSettle 0 (Fulfilled answer1);
                 EvSettle 0 (Rejected (ErrorObject "InvalidStateError"))]
              (deliver (deliver p_offered)) in
  peerConnectionsRef w' !! "R" = None
  ∧ pcs w' !! 0%nat
    = Some (closed_pc (set_remoteDescription answer1 (offered_link "R" offer1))).
Proof.
  refine (proj2 (proj2 (proj2
    (C6_duplicate_answer_in_flight_is_applied_again p_offered answer1 "R" 0
       (offered_link "R" offer1) answer1 (ErrorObject "InvalidStateError")
       _ _ _ _)))).
  - vm_compute. reflexivity.
  - vm_compute. reflexivity.
  - reflexivity.
  - left. reflexivity.
Defined.

End publisher_answer.



(** ** C8: the camera cannot be started *)

Section publisher_capture.
Import Publisher.

Lemma teardownPeerConnection_frame proctorSocketId w :
  let w' := teardownPeerConnection proctorSocketId w in
  socketRef w' = socketRef w ∧ currentStream w' = currentStream w ∧
  pending w' = pending w ∧ length (pcs w') = length (pcs w) ∧
  peerConnectionsRef w' = delete proctorSocketId (peerConnectionsRef w).
Proof.
  destruct (peerConnectionsRef w !! proctorSocketId) as [peer|] eqn:E; cbn zeta.
  - rewrite (teardownPeerConnection_present _ _ _ E). cbn.
    by rewrite length_alter.
  - rewrite (teardownPeerConnection_absent _ _ E). by rewrite delete_id.
Qed.

(** Up to the awaited [cameraManager.start()], a request that finds the
    camera off has torn down the old link, if any, and asked for the
    camera. *)
Lemma respondToProctorOfferRequest_camera_off proctorSocketId w :
  socketRef w = Some true → currentStream w = None →
  respondToProctorOfferRequest proctorSocketId w
  = suspend (AwaitCameraStart proctorSocketId)
      (perform CameraStart (teardownPeerConnection proctorSocketId w)).
Proof.
  intros Hs Hc. unfold respondToProctorOfferRequest. rewrite Hs.
  destruct (peerConnectionsRef w !! proctorSocketId) as [peer|] eqn:E.
  - destruct (teardownPeerConnection_frame proctorSocketId w)
      as (_ & -> & _). by rewrite Hc.
  - rewrite (teardownPeerConnection_absent _ _ E). by rewrite Hc.
Qed.

Lemma settle_camera_suspended proctorSocketId o w :
  settle_camera (length (pending w)) o (suspend (AwaitCameraStart proctorSocketId) w)
  = resume_camera proctorSocketId o w.
Proof.
  unfold settle_camera.
  replace (pending (suspend (AwaitCameraStart proctorSocketId) w)
             !! length (pending w))
    with (Some (AwaitCameraStart proctorSocketId))
    by (symmetry; apply lookup_snoc_length).
  by rewrite with_pending_suspend_delete.
Qed.

(** C8.  A request for the stream finds the camera off and
    [cameraManager.start()] fails, by rejecting or by giving no stream.
    Then the handler reports the failure on the console and ends: the
    table of connections is the one the teardown of the old link left (no
    connection was constructed), the registry has no entry for the
    proctor, nothing is left suspended, and the trace holds the teardown,
    the camera start and the report, so no offer was created or sent. *)
Theorem C8_capture_failure_opens_no_transport w proctorSocketId reason :
  socketRef w = Some true →
  currentStream w = None →
  let w0 := teardownPeerConnection proctorSocketId w in
  let w1 := respondToProctorOfferRequest proctorSocketId w in
  let rejected := settle_camera (length (pending w)) (CameraRejected reason) w1 in
  let missing := settle_camera (length (pending w)) (CameraFulfilled None) w1 in
  trace rejected =
    trace w0 ++ [CameraStart;
                 ConsoleError
                   "[AICameraMonitor] Không thể khởi tạo camera để stream cho giám thị"] ∧
  trace missing =
    trace w0 ++ [CameraStart;
                 ConsoleWarn
                   "[AICameraMonitor] Không có camera stream để gửi cho giám thị"] ∧
  ∀ w2, w2 = rejected ∨ w2 = missing →
    pcs w2 = pcs w0 ∧ length (pcs w2) = length (pcs w) ∧
    peerConnectionsRef w2 = delete proctorSocketId (peerConnectionsRef w) ∧
    pending w2 = pending w.
Proof.
  intros Hs Hc w0 w1 rejected missing.
  destruct (teardownPeerConnection_frame proctorSocketId w)
    as (_ & _ & Hpend & Hlen & Hreg).
  assert (H1 : ∀ o, settle_camera (length (pending w)) o w1
                    = resume_camera proctorSocketId o (perform CameraStart w0)).
  { intros o. unfold w1.
    rewrite respondToProctorOfferRequest_camera_off by done.
    fold w0. rewrite <- Hpend. fold w0.
    apply (settle_camera_suspended proctorSocketId o (perform CameraStart w0)). }
  unfold rejected, missing. rewrite !H1.
  cbn [resume_camera]. split; [|split].
  - cbn [trace perform]. by rewrite <- app_assoc.
  - cbn [trace perform]. by rewrite <- app_assoc.
  - intros w2 [-> | ->]; cbn [pcs peerConnectionsRef pending perform];
      (split; [done|split; [exact Hlen|split; [exact Hreg|exact Hpend]]]).
Qed.

End publisher_capture.

(** C8, at a request of proctor "R" while the camera is off. *)
Lemma C8_witness :
  let w1 := Publisher.respondToProctorOfferRequest "R" p_camera_off in
  Publisher.trace
    (Publisher.settle_camera 0 (Publisher.CameraRejected (ErrorObject "NotAllowedError")) w1)
  = [CameraStart;
     ConsoleError "[AICameraMonitor] Không thể khởi tạo camera để stream cho giám thị"].
Proof.
  refine (proj1 (C8_capture_failure_opens_no_transport p_camera_off "R"
                   (ErrorObject "NotAllowedError") _ _));
    vm_compute; reflexivity.
Defined.

(** ** C1: one link per endpoint *)

Section publisher_single_link.
Import Publisher.

Lemma foldl_perform_frame (f : nat → Effect) (l : list nat) w :
  pcs (foldl (λ w t, perform (f t) w) w l) = pcs w
  ∧ peerConnectionsRef (foldl (λ w t, perform (f t) w) w l) = peerConnectionsRef w.
Proof.
  revert w. induction l as [|t l IH]; intros w; [done|].
  cbn [foldl]. destruct (IH (perform (f t) w)) as [-> ->]. done.
Qed.

(** [open_link] appends an open connection with both observers and
    registers it for the proctor. *)
Lemma open_link_links proctorSocketId stream w :
  pcs (open_link proctorSocketId stream w)
    = pcs w ++ [{| onicecandidate := Some proctorSocketId;
                   onconnectionstatechange := Some proctorSocketId;
                   closed := false; localDescription := None;
                   remoteDescription := None |}]
  ∧ peerConnectionsRef (open_link proctorSocketId stream w)
    = <[proctorSocketId := length (pcs w)]> (peerConnectionsRef w).
Proof.
  unfold open_link. cbv zeta.
  cbn [pcs peerConnectionsRef suspend with_pending perform with_pcs].
  set (w0 := with_peerConnectionsRef _ _).
  destruct (foldl_perform_frame (PcAddTrack (length (pcs w)))
              (getTracks stream) w0) as [-> ->].
  unfold w0. cbn [pcs peerConnectionsRef with_peerConnectionsRef with_pcs].
  split; [|done]. by rewrite !alter_snoc_length.
Qed.

(** With the camera running, a request is handled in one run: the link
    registered for the proctor is torn down and a fresh connection takes
    its place. *)
Lemma respondToProctorOfferRequest_camera_on proctorSocketId stream peer p w :
  socketRef w = Some true → currentStream w = Some stream →
  peerConnectionsRef w !! proctorSocketId = Some peer →
  pcs w !! peer = Some p →
  let w' := respondToProctorOfferRequest proctorSocketId w in
  pcs w' !! peer = Some (closed_pc p) ∧
  peerConnectionsRef w' !! proctorSocketId = Some (length (pcs w)) ∧
  pcs w' !! length (pcs w)
    = Some {| onicecandidate := Some proctorSocketId;
              onconnectionstatechange := Some proctorSocketId;
              closed := false; localDescription := None;
              remoteDescription := None |}.
Proof.
  intros Hs Hc Hpeer Hp w'. unfold w', respondToProctorOfferRequest.
  rewrite Hs, Hpeer.
  destruct (teardownPeerConnection_frame proctorSocketId w)
    as (_ & Hcam & _ & Hlen & _).
  rewrite Hcam, Hc.
  destruct (open_link_links proctorSocketId stream
              (teardownPeerConnection proctorSocketId w)) as [-> ->].
  rewrite Hlen, lookup_insert_eq.
  rewrite (teardownPeerConnection_present _ _ _ Hpeer). cbn [pcs].
  assert (Hlt : peer < length (pcs w)) by (by eapply lookup_lt_Some).
  split; [|split; [done|]].
  - rewrite lookup_app_l by (by rewrite length_alter).
    by rewrite list_lookup_alter_eq, Hp.
  - rewrite <- (length_alter closed_pc (pcs w) peer) at 1.
    apply lookup_snoc_length.
Qed.

(** C1 at two overlapping requests of proctor "R" that both find the
    camera off: each handler checks the registry before it awaits the
    camera, finds no link, and later opens one.  The second connection
    replaces the first in the registry; the first is never closed and
    keeps its observers.  When the first connection then fails, its
    observer tears down the link registered for "R", which is the second
    connection, and the first stays open for good. *)
Theorem C1_overlapping_requests_leave_two_open_links :
  let w := run overlapping_requests (initial "exam-1" "u1") in
  let w' := step (EvConnectionState 0 cs_failed) w in
  pcs w = [ {| onicecandidate := Some "R"; onconnectionstatechange := Some "R";
               closed := false; localDescription := None;
               remoteDescription := None |};
            {| onicecandidate := Some "R"; onconnectionstatechange := Some "R";
               closed := false; localDescription := None;
               remoteDescription := None |} ] ∧
  peerConnectionsRef w !! "R" = Some 1 ∧
  trace w = [CameraStart; CameraStart;
             PcAddTrack 0 71; PcAddTrack 0 72; PcCreateOffer 0;
             PcAddTrack 1 71; PcAddTrack 1 72; PcCreateOffer 1] ∧
  closed <$> pcs w' !! 0 = Some false ∧
  closed <$> pcs w' !! 1 = Some true ∧
  peerConnectionsRef w' !! "R" = None.
Proof. vm_compute. repeat split; reflexivity. Qed.

End publisher_single_link.

(** ** The links of the viewer: one open connection per session *)

Section viewer_links.
Import Viewer.

Lemma links_consistent_ext w w' :
  peersRef w' = peersRef w → pcs w' = pcs w →
  links_consistent w → links_consistent w'.
Proof. unfold links_consistent. intros -> ->. done. Qed.

Lemma teardownPeer_links_consistent sessionId w :
  links_consistent w → links_consistent (teardownPeer sessionId w).
Proof.
  intros [H1 H2]. unfold links_consistent.
  rewrite teardownPeer_peersRef, teardownPeer_pcs.
  destruct (peersRef w !! sessionId) as [pi|] eqn:Hpi.
  - split.
    + intros sid' pi' Hpi'.
      apply lookup_delete_Some in Hpi' as [Hne Hpi'].
      destruct (H1 _ _ Hpi') as (p' & Hp' & Hc' & Hh').
      destruct (H1 _ _ Hpi) as (p & Hp & Hc & Hh).
      exists p'. split; [|done].
      rewrite list_lookup_alter_ne; [done|].
      intros Heq. rewrite Heq in Hp. congruence.
    + intros pc p Hp Hc.
      destruct (decide (peer_pc pi = pc)) as [<-|Hne].
      * rewrite list_lookup_alter_eq in Hp.
        destruct (pcs w !! peer_pc pi); simplify_eq/=.
      * rewrite list_lookup_alter_ne in Hp by done.
        destruct (H2 _ _ Hp Hc) as (sid' & pi' & Hpi' & Hpc').
        exists sid', pi'. split; [|done].
        apply lookup_delete_Some. split; [|done].
        intros <-. congruence.
  - rewrite delete_id by done. done.
Qed.

Lemma stopStream_links_consistent sessionId st msg w :
  links_consistent w → links_consistent (stopStream sessionId st msg w).
Proof.
  intros H. eapply (links_consistent_ext (teardownPeer sessionId w));
    [done|done|]. by apply teardownPeer_links_consistent.
Qed.

Lemma stop_sessions_links_consistent related msg w :
  links_consistent w → links_consistent (stop_sessions related msg w).
Proof.
  revert w. induction related as [|a related IH]; intros w Hw; [done|].
  rewrite stop_sessions_cons. by apply IH, stopStream_links_consistent.
Qed.

Lemma requestStream_links sessionId force w :
  peersRef (requestStream sessionId force w) = peersRef w
  ∧ pcs (requestStream sessionId force w) = pcs w.
Proof.
  unfold requestStream.
  destruct (List.find _ _) as [session|]; [|done].
  destruct (negb force && _); [done|].
  destruct (bool_decide (_ ∈ socketsRef _));
    unfold ensureSocket; by destruct (_ || _).
Qed.

(** The registry and the table of connections after an offer. *)
Lemma on_offer_received_links examId offer senderSocketId studentId w session :
  List.find (λ session,
       bool_decide (session_examId session = examId
                    ∧ session_userId session = studentId))
    (sessionsRef w) = Some session →
  let w0 := teardownPeer (session_id session) w in
  let w' := on_offer_received examId offer senderSocketId studentId w in
  peersRef w' = <[session_id session :=
                   {| peer_pc := length (pcs w0);
                      peer_remoteSocketId := senderSocketId;
                      peer_examId := examId |}]> (peersRef w0)
  ∧ pcs w' = pcs w0 ++
      [{| ontrack := Some (session_id session, senderSocketId);
          onicecandidate := Some (examId, senderSocketId);
          onconnectionstatechange := Some (session_id session);
          closed := false |}].
Proof.
  intros Hs w0 w'. unfold w', on_offer_received. rewrite Hs.
  fold w0. split; [done|].
  cbn [pcs with_pending suspend perform with_pcs with_remoteSessionMap with_peersRef].
  by rewrite !alter_snoc_length.
Qed.

Lemma on_offer_received_links_consistent examId offer senderSocketId studentId w :
  links_consistent w →
  links_consistent (on_offer_received examId offer senderSocketId studentId w).
Proof.
  intros Hw.
  destruct (List.find (λ session,
       bool_decide (session_examId session = examId
                    ∧ session_userId session = studentId))
    (sessionsRef w)) as [session|] eqn:Hs.
  - destruct (on_offer_received_links examId offer senderSocketId studentId
                w session Hs) as [Hreg Hconns].
    pose proof (teardownPeer_links_consistent (session_id session) w Hw)
      as [H1 H2].
    assert (Hgone : peersRef (teardownPeer (session_id session) w)
                      !! session_id session = None)
      by (rewrite teardownPeer_peersRef; apply lookup_delete_eq).
    unfold links_consistent. rewrite Hreg, Hconns. split.
    + intros sid' pi' Hpi'.
      apply lookup_insert_Some in Hpi' as [[<- <-]|[Hne Hpi']].
      * eexists. cbn [peer_pc]. rewrite lookup_snoc_length. done.
      * destruct (H1 _ _ Hpi') as (p' & Hp' & Hc' & Hh').
        exists p'. split; [|done].
        rewrite lookup_app_l; [done|]. by eapply lookup_lt_Some.
    + intros pc p Hp Hc.
      apply lookup_app_Some in Hp as [Hp|[Hge Hp]].
      * destruct (H2 _ _ Hp Hc) as (sid' & pi' & Hpi' & Hpc').
        exists sid', pi'. split; [|done].
        rewrite lookup_insert_ne; [done|]. intros <-. congruence.
      * eexists _, _. rewrite lookup_insert_eq. split; [done|].
        cbn [peer_pc].
        apply list_lookup_singleton_Some in Hp as [Hz _]. lia.
  - unfold on_offer_received. by rewrite Hs.
Qed.

Lemma resume_links_consistent t o w :
  links_consistent w → links_consistent (resume t o w).
Proof.
  intros Hw.
  destruct t as [pc ctx|pc ctx|pc ctx answer], o as [v|reason];
    unfold resume; try (by apply stopStream_links_consistent);
    by eapply (links_consistent_ext w).
Qed.

Lemma auto_request_links_consistent autoRequest w :
  links_consistent w → links_consistent (auto_request autoRequest w).
Proof.
  intros Hw. unfold auto_request. destruct (negb autoRequest); [done|].
  set (f1 := λ (w : World) (session : ProctoringSession), _).
  set (f2 := λ (w : World) (entry : string * StreamState), _).
  assert (H1 : ∀ l w0, links_consistent w0 → links_consistent (foldl f1 w0 l)).
  { induction l as [|x l IH]; intros w0 H0; [done|].
    cbn [foldl]. apply IH. unfold f1.
    destruct (session_active x); [|done].
    destruct (streamStatesRef w0 !! session_id x) as [state|];
      [case_bool_decide; [|done]|destruct (inherited (session_id x)); [done|]];
      (eapply (links_consistent_ext w0);
       [apply requestStream_links|apply requestStream_links|done]). }
  assert (H2 : ∀ l w0, links_consistent w0 → links_consistent (foldl f2 w0 l)).
  { induction l as [|[sid state] l IH]; intros w0 H0; [done|].
    cbn [foldl]. apply IH. unfold f2.
    case_bool_decide; [|done]. by apply stopStream_links_consistent. }
  by apply H2, H1.
Qed.

(** In every reachable world the registered links and the open connections
    correspond one to one: a session has at most one open connection. *)
Lemma reachable_links_consistent w : reachable w → links_consistent w.
Proof.
  induction 1 as [|ev w Hw IH].
  - split.
    + intros sid pi H. cbn [peersRef initial] in H.
      by rewrite lookup_empty in H.
    + intros pc p H. cbn [pcs initial] in H. by rewrite lookup_nil in H.
  - destruct ev as [allSessions| |autoRequest|sid force|sid|examId e
                    |pc streams now|pc candidate|pc state now|n o];
      cbn [step].
    + eapply (links_consistent_ext w); [| |done];
        unfold sessions_changed; by destruct allSessions.
    + by eapply (links_consistent_ext w).
    + by apply auto_request_links_consistent.
    + eapply (links_consistent_ext w); [| |done]; apply requestStream_links.
    + by apply stopStream_links_consistent.
    + unfold socket_event. case_bool_decide; [|done].
      destruct e as [| |userId|offer sender student|candidate sender].
      * by apply stop_sessions_links_consistent.
      * by apply stop_sessions_links_consistent.
      * by apply stop_sessions_links_consistent.
      * by apply on_offer_received_links_consistent.
      * eapply (links_consistent_ext w); [| |done];
          unfold on_ice_candidate_received;
          (destruct (remoteSessionMap w !! sender) as [s|]; [|done]);
          (destruct (truthy s); [|done]); by destruct (peersRef w !! s).
    + destruct (pcs w !! pc ≫= ontrack) as [[sid sender]|]; [|done].
      eapply (links_consistent_ext w); [| |done];
        unfold ontrack_handler; (destruct streams as [|ms ?]; [done|]);
        by case_bool_decide.
    + destruct (pcs w !! pc ≫= onicecandidate) as [[examId sender]|]; [|done].
      eapply (links_consistent_ext w); [| |done]; by destruct candidate.
    + destruct (pcs w !! pc ≫= onconnectionstatechange) as [sid|]; [|done].
      destruct state; cbn [onconnectionstatechange_handler]; try done;
        try (by apply stopStream_links_consistent).
      eapply (links_consistent_ext w); [| |done];
        (destruct (streamStatesRef w !! sid) as [cur|]; [|done]);
        by destruct (_ && _).
    + destruct (settle_cases n o w) as [->|[->|[t ->]]]; [done| |].
      * by eapply (links_consistent_ext w).
      * apply resume_links_consistent. by eapply (links_consistent_ext w).
Qed.

(** Two open connections of a reachable viewer world never serve the same
    session. *)
Lemma viewer_one_open_connection_per_session w pc1 pc2 p1 p2 sessionId :
  reachable w →
  pcs w !! pc1 = Some p1 → closed p1 = false →
  pcs w !! pc2 = Some p2 → closed p2 = false →
  onconnectionstatechange p1 = Some sessionId →
  onconnectionstatechange p2 = Some sessionId →
  pc1 = pc2.
Proof.
  intros Hw Hp1 Hc1 Hp2 Hc2 Hh1 Hh2.
  destruct (reachable_links_consistent w Hw) as [H1 H2].
  destruct (H2 _ _ Hp1 Hc1) as (s1' & pi1 & Hpi1 & <-).
  destruct (H2 _ _ Hp2 Hc2) as (s2' & pi2 & Hpi2 & <-).
  destruct (H1 _ _ Hpi1) as (q1 & Hq1 & _ & Hs1).
  destruct (H1 _ _ Hpi2) as (q2 & Hq2 & _ & Hs2).
  assert (s1' = sessionId) by congruence.
  assert (s2' = sessionId) by congruence.
  congruence.
Qed.

(** In a reachable world the connection whose transport fails, is
    interrupted or is closed is the registered link of its session, so it is
    the connection that [stopStream] closes. *)
Lemma failing_connection_is_closed w pc p sessionId state now :
  reachable w →
  pcs w !! pc = Some p → closed p = false →
  onconnectionstatechange p = Some sessionId →
  state ∈ [cs_failed; cs_disconnected; cs_closed] →
  pcs (step (EvConnectionState pc state now) w) !! pc = Some dead_pc.
Proof.
  intros Hw Hp Hc Hh Hstate.
  destruct (reachable_links_consistent w Hw) as [H1 H2].
  destruct (H2 _ _ Hp Hc) as (sid & pi & Hpi & <-).
  destruct (H1 _ _ Hpi) as (q & Hq & _ & Hsid).
  assert (sid = sessionId) as -> by congruence.
  cbn [step]. rewrite Hp. cbn [mbind option_bind]. rewrite Hh.
  assert (Hstop : ∀ st msg,
            pcs (stopStream sessionId st msg w) !! peer_pc pi = Some dead_pc).
  { intros st msg.
    destruct (stopStream_torn_down sessionId st msg w) as [_ Htd].
    destruct (Htd _ Hpi) as [Hdead _]. apply Hdead. by eexists. }
  apply elem_of_cons in Hstate as [->|Hstate]; [apply Hstop|].
  apply elem_of_cons in Hstate as [->|Hstate]; [apply Hstop|].
  apply elem_of_cons in Hstate as [->|Hstate]; [apply Hstop|].
  by apply elem_of_nil in Hstate.
Qed.

End viewer_links.

(** * Further properties of the viewer hook *)

(** ** The other listeners of the socket *)

Section viewer_listeners.
Import Viewer.

(** Sessions that are not stopped keep their entry and their link. *)
Lemma stop_sessions_other related msg w sessionId :
  sessionId ∉ session_id <$> related →
  streamStates (stop_sessions related msg w) !! sessionId
    = streamStates w !! sessionId
  ∧ peersRef (stop_sessions related msg w) !! sessionId = peersRef w !! sessionId.
Proof.
  revert w. induction related as [|a related IH]; intros w Hnot; [done|].
  rewrite fmap_cons in Hnot. apply not_elem_of_cons in Hnot as [Hne Hnot].
  rewrite stop_sessions_cons.
  destruct (IH (stopStream (session_id a) error (Some msg) w) Hnot) as [-> ->].
  rewrite stopStream_streamStates, stopStream_peersRef.
  by rewrite lookup_insert_ne, lookup_delete_ne.
Qed.

(** X1.  When the socket of an exam reports that a user has left, every
    session of that exam and user in the session list gets status [error]
    with the "participant disconnected" message, a null stream handle and
    no remote endpoint, and its peer link is torn down. *)
Theorem X1_user_left_stops_sessions_of_user w examId userId session :
  examId ∈ socketsRef w →
  session ∈ sessionsRef w →
  session_examId session = examId →
  session_userId session = userId →
  let w' := step (EvSocket examId (user_left userId)) w in
  streamStates w' !! session_id session
    = Some {| status := error; stream := None;
              lastUpdated := streamStates w !! session_id session ≫= lastUpdated;
              error_message := Some "Thí sinh đã ngắt kết nối";
              remoteSocketId := None |}
  ∧ link_torn_down w w' (session_id session).
Proof.
  intros Hsock Hin Hexam Huser w'. subst w'.
  cbn [step]. unfold socket_event. rewrite (bool_decide_eq_true_2 _ Hsock).
  unfold on_user_left.
  assert (session ∈ filter (λ s, session_examId s = examId
                                 ∧ session_userId s = userId) (sessionsRef w))
    by (by apply list_elem_of_filter).
  split.
  - by apply stop_sessions_entry.
  - by apply stop_sessions_torn_down.
Qed.

(** X2.  When the socket of an exam gives up reconnecting, every session
    of that exam in the session list gets status [error] with the "cannot
    reconnect to the proctoring server" message, a null stream handle and
    no remote endpoint, and its peer link is torn down. *)
Theorem X2_reconnect_failed_stops_sessions_of_exam w examId session :
  examId ∈ socketsRef w →
  session ∈ sessionsRef w →
  session_examId session = examId →
  let w' := step (EvSocket examId reconnect_failed) w in
  streamStates w' !! session_id session
    = Some {| status := error; stream := None;
              lastUpdated := streamStates w !! session_id session ≫= lastUpdated;
              error_message := Some "Không thể kết nối lại với máy chủ giám sát";
              remoteSocketId := None |}
  ∧ link_torn_down w w' (session_id session).
Proof.
  intros Hsock Hin Hexam w'. subst w'.
  cbn [step]. unfold socket_event. rewrite (bool_decide_eq_true_2 _ Hsock).
  unfold on_reconnect_failed.
  assert (session ∈ filter (λ s, session_examId s = examId) (sessionsRef w))
    by (by apply list_elem_of_filter).
  split.
  - by apply stop_sessions_entry.
  - by apply stop_sessions_torn_down.
Qed.

(** X3.  The three listeners that stop sessions ([reconnect_failed],
    [disconnect], [user_left]) leave alone every session id that belongs
    to no listed session of that exam: its entry in the stream states and
    its registered link are as before. *)
Theorem X3_sessions_of_other_exams_untouched w examId e sessionId :
  e = reconnect_failed ∨ e = disconnect ∨ (∃ userId, e = user_left userId) →
  (∀ session, session ∈ sessionsRef w → session_examId session = examId →
     session_id session ≠ sessionId) →
  let w' := step (EvSocket examId e) w in
  streamStates w' !! sessionId = streamStates w !! sessionId
  ∧ peersRef w' !! sessionId = peersRef w !! sessionId.
Proof.
  intros He Hother w'. subst w'.
  cbn [step]. unfold socket_event. case_bool_decide; [|done].
  assert (Hnot : ∀ (P : ProctoringSession → Prop) `{∀ s, Decision (P s)},
            (∀ s, P s → session_examId s = examId) →
            sessionId ∉ session_id <$> filter P (sessionsRef w)).
  { intros P HP Himp Hin. apply list_elem_of_fmap in Hin as (s & -> & Hs).
    apply list_elem_of_filter in Hs as [HPs Hs].
    by apply (Hother s Hs (Himp s HPs)). }
  destruct He as [->|[->|[userId ->]]].
  - apply stop_sessions_other. by apply Hnot.
  - apply stop_sessions_other. by apply Hnot.
  - apply stop_sessions_other. apply Hnot. by intros s [? _].
Qed.

(** X4.  An offer whose claimed participant matches no session of that
    exam in the session list is ignored: no connection is created and
    nothing changes. *)
Theorem X4_offer_of_unknown_participant_ignored
    w examId offer senderSocketId studentId :
  (∀ session, session ∈ sessionsRef w →
     ¬ (session_examId session = examId ∧ session_userId session = studentId)) →
  step (EvSocket examId (webrtc_offer_received offer senderSocketId studentId)) w
  = w.
Proof.
  intros Hnone. cbn [step]. unfold socket_event. case_bool_decide; [|done].
  unfold on_offer_received.
  destruct (List.find _ _) as [session|] eqn:Hfind; [|done].
  apply find_some in Hfind as [Hin Hmatch].
  apply bool_decide_eq_true in Hmatch.
  apply list_elem_of_In in Hin. by destruct (Hnone session Hin).
Qed.

(** X1, when the participant of the answered session leaves. *)
Lemma X1_witness :
  let w' := step (EvSocket "exam-1" (user_left "u1")) w_answered in
  streamStates w' !! "s1"
    = Some {| status := error; stream := None;
              lastUpdated := streamStates w_answered !! "s1" ≫= lastUpdated;
              error_message := Some "Thí sinh đã ngắt kết nối";
              remoteSocketId := None |}
  ∧ link_torn_down w_answered w' "s1".
Proof.
  apply (X1_user_left_stops_sessions_of_user w_answered "exam-1" "u1" s1).
  - apply (bool_decide_unpack _). vm_compute. exact I.
  - apply list_elem_of_In. vm_compute. left. reflexivity.
  - reflexivity.
  - reflexivity.
Defined.

(** X2, when the socket of the answered session gives up reconnecting. *)
Lemma X2_witness :
  let w' := step (EvSocket "exam-1" reconnect_failed) w_answered in
  streamStates w' !! "s1"
    = Some {| status := error; stream := None;
              lastUpdated := streamStates w_answered !! "s1" ≫= lastUpdated;
              error_message := Some "Không thể kết nối lại với máy chủ giám sát";
              remoteSocketId := None |}
  ∧ link_torn_down w_answered w' "s1".
Proof.
  apply (X2_reconnect_failed_stops_sessions_of_exam w_answered "exam-1" s1).
  - apply (bool_decide_unpack _). vm_compute. exact I.
  - apply list_elem_of_In. vm_compute. left. reflexivity.
  - reflexivity.
Defined.

(** X3, when the socket of the second exam disconnects. *)
Lemma X3_witness :
  let w' := step (EvSocket "exam-2" disconnect) w_two_exams in
  streamStates w' !! "s1" = streamStates w_two_exams !! "s1"
  ∧ peersRef w' !! "s1" = peersRef w_two_exams !! "s1".
Proof.
  apply (X3_sessions_of_other_exams_untouched w_two_exams "exam-2" disconnect "s1").
  - right. left. reflexivity.
  - intros session Hin Hexam. apply list_elem_of_In in Hin.
    vm_compute in Hin. destruct Hin as [<-|[<-|[]]].
    + discriminate Hexam.
    + discriminate.
Defined.

(** X4, for an offer of a participant that is not in the list. *)
Lemma X4_witness :
  step (EvSocket "exam-1" (webrtc_offer_received offer1 "Q" "u9")) w_offered
  = w_offered.
Proof.
  apply X4_offer_of_unknown_participant_ignored.
  intros session Hin [_ Huser]. apply list_elem_of_In in Hin.
  vm_compute in Hin. destruct Hin as [<-|[]]. discriminate Huser.
Defined.

End viewer_listeners.

(** ** The offer handler from end to end *)

Section viewer_offer.
Import Viewer.





(** X6.  When one of the three awaited operations of the offer handler
    fails on an open connection, the session gets status [error] with the
    message of the error (or the "cannot establish the video connection"
    text when the rejection is not an [Error]), its stream handle and
    remote endpoint are cleared, its link is torn down, and the trace gets
    nothing but the teardown: no answer is sent. *)
Theorem X6_offer_failure_stops_session w n t p reason :
  pending w !! n = Some t →
  pcs w !! task_pc t = Some p → closed p = false →
  let sessionId :=
    ctx_sessionId match t with
                  | AwaitSetRemoteDescription _ ctx
                  | AwaitCreateAnswer _ ctx
                  | AwaitSetLocalDescription _ ctx _ => ctx
                  end in
  let w' := settle n (Rejected reason) w in
  streamStates w' !! sessionId
    = Some {| status := error; stream := None;
              lastUpdated := streamStates w !! sessionId ≫= lastUpdated;
              error_message :=
                Some match reason with
                     | ErrorObject message => message
                     | NotAnError => "Không thể thiết lập kết nối video"
                     end;
              remoteSocketId := None |} ∧
  link_torn_down w w' sessionId ∧
  trace w' = trace (teardownPeer sessionId w) ∧
  pending w' = delete n (pending w).
Proof.
  intros Ht Hp Hc sessionId w'.
  set (msg := match reason with
              | ErrorObject message => message
              | NotAnError => "Không thể thiết lập kết nối video"
              end).
  set (u := with_pending (delete n) w).
  assert (Hw' : w' = stopStream sessionId error (Some msg) u).
  { unfold w', settle. rewrite Ht. cbn [pcs with_pending]. rewrite Hp, Hc.
    unfold sessionId, msg, u. by destruct t. }
  rewrite Hw'.
  split; [|split; [|split]].
  - by rewrite stopStream_streamStates, lookup_insert_eq.
  - exact (stopStream_torn_down sessionId error (Some msg) u).
  - unfold stopStream. cbn [trace setStreamStates with_requestedSessionsRef].
    rewrite !teardownPeer_trace. done.
  - by destruct (stopStream_frame sessionId error (Some msg) u)
      as (_ & _ & _ & -> & _).
Qed.


(** X6, when setting the remote description of the offer fails. *)
Lemma X6_witness :
  let w' := settle 0 (Rejected (ErrorObject "InvalidStateError")) w_offered in
  streamStates w' !! "s1"
    = Some {| status := error; stream := None;
              lastUpdated := streamStates w_offered !! "s1" ≫= lastUpdated;
              error_message := Some "InvalidStateError";
              remoteSocketId := None |}.
Proof.
  refine (proj1 (X6_offer_failure_stops_session w_offered 0
    (AwaitSetRemoteDescription 0
       {| ctx_sessionId := "s1"; ctx_senderSocketId := "R";
          ctx_examId := "exam-1" |})
    {| ontrack := Some ("s1", "R"); onicecandidate := Some ("exam-1", "R");
       onconnectionstatechange := Some "s1"; closed := false |}
    (ErrorObject "InvalidStateError") _ _ _)).
  - vm_compute. reflexivity.
  - vm_compute. reflexivity.
  - reflexivity.
Defined.

End viewer_offer.

(** ** Stream requests and the sockets they open *)

Section viewer_sockets.
Import Viewer.

Lemma requestStream_sends w sessionId force session :
  List.find (λ s, bool_decide (session_id s = sessionId)) (sessionsRef w)
    = Some session →
  inherited (session_examId session) = false →
  (force = true ∨
   ∀ st, streamStatesRef w !! sessionId = Some st →
         status st = idle ∨ status st = error) →
  let examId := session_examId session in
  let w' := requestStream sessionId force w in
  streamStates w' !! sessionId
    = Some {| status := waiting;
              stream := streamStates w !! sessionId ≫= stream;
              lastUpdated := streamStates w !! sessionId ≫= lastUpdated;
              error_message := None; remoteSocketId := None |} ∧
  sessionId ∈ requestedSessionsRef w' ∧
  examId ∈ socketsRef w' ∧
  trace w' = trace w
             ++ (if bool_decide (examId ∈ socketsRef w) then []
                 else [SocketOpen examId])
             ++ [SocketEmit examId (proctor_request_stream (session_userId session))] ∧
  peersRef w' = peersRef w ∧ pcs w' = pcs w.
Proof.
  intros Hs Hown Hgo examId w'. unfold w', requestStream. rewrite Hs.
  assert (Hguard :
    negb force &&
    match streamStatesRef w !! sessionId with
    | Some currentState =>
        bool_decide (status currentState = waiting
                     ∨ status currentState = connecting
                     ∨ status currentState = live)
    | None => false
    end = false).
  { destruct Hgo as [->|Hgo]; [done|].
    destruct (streamStatesRef w !! sessionId) as [st|]; [|by rewrite andb_false_r].
    rewrite bool_decide_eq_false_2; [by rewrite andb_false_r|].
    destruct (Hgo st eq_refl) as [H|H]; rewrite H;
      intros [?|[?|?]]; discriminate. }
  rewrite Hguard. fold examId. fold examId in Hown. unfold ensureSocket.
  rewrite Hown, orb_false_r.
  destruct (bool_decide (examId ∈ socketsRef w)) eqn:Hopen;
    cbn [socketsRef setStreamStates with_requestedSessionsRef with_socketsRef
         perform].
  - rewrite Hopen.
    cbn [streamStates requestedSessionsRef socketsRef trace peersRef pcs
         perform setStreamStates with_requestedSessionsRef with_socketsRef].
    rewrite lookup_insert_eq.
    apply bool_decide_eq_true in Hopen.
    repeat split; try done.
    apply elem_of_union. left. by apply elem_of_singleton.
  - assert (Hin : examId ∈ ({[examId]} ∪ socketsRef w : gset string))
      by (apply elem_of_union; left; by apply elem_of_singleton).
    rewrite (bool_decide_eq_true_2 _ Hin).
    cbn [streamStates requestedSessionsRef socketsRef trace peersRef pcs
         perform setStreamStates with_requestedSessionsRef with_socketsRef].
    rewrite lookup_insert_eq. rewrite <- app_assoc.
    repeat split; try done.
    apply elem_of_union. left. by apply elem_of_singleton.
Qed.

(** For an exam id that names a member of [Object.prototype] and has no
    socket, the request marks the session and writes the [waiting] entry,
    but opens no socket and sends nothing: the [emit] throws. *)
Lemma requestStream_inherited_exam w sessionId session :
  List.find (λ s, bool_decide (session_id s = sessionId)) (sessionsRef w)
    = Some session →
  inherited (session_examId session) = true →
  session_examId session ∉ socketsRef w →
  let w' := requestStream sessionId true w in
  trace w' = trace w ++ [UncaughtTypeError] ∧ socketsRef w' = socketsRef w
  ∧ status <$> streamStates w' !! sessionId = Some waiting
  ∧ sessionId ∈ requestedSessionsRef w'.
Proof.
  intros Hs Hinh Hno w'. unfold w', requestStream. rewrite Hs.
  cbn [negb andb]. unfold ensureSocket. rewrite Hinh, orb_true_r.
  cbn [socketsRef setStreamStates with_requestedSessionsRef].
  rewrite (bool_decide_eq_false_2 _ Hno).
  cbn [trace socketsRef streamStates requestedSessionsRef perform
       setStreamStates with_requestedSessionsRef].
  rewrite lookup_insert_eq. split_and!; try done.
  apply elem_of_union. left. by apply elem_of_singleton.
Qed.

(** X7.  A request for a listed session that is forced, or that finds the
    session neither waiting nor connecting nor live, marks the session as
    requested, writes the [waiting] entry (keeping stream handle and time
    stamp), opens the socket of the exam unless it is open already, and
    sends one stream request with the user of the session.  It does not
    touch the registered link.  The exam id is an ordinary key, not the
    name of a member of [Object.prototype]. *)
Theorem X7_requestStream_sends w sessionId force session :
  List.find (λ s, bool_decide (session_id s = sessionId)) (sessionsRef w)
    = Some session →
  inherited (session_examId session) = false →
  (force = true ∨
   ∀ st, streamStatesRef w !! sessionId = Some st →
         status st = idle ∨ status st = error) →
  let examId := session_examId session in
  let w' := requestStream sessionId force w in
  streamStates w' !! sessionId
    = Some {| status := waiting;
              stream := streamStates w !! sessionId ≫= stream;
              lastUpdated := streamStates w !! sessionId ≫= lastUpdated;
              error_message := None; remoteSocketId := None |} ∧
  sessionId ∈ requestedSessionsRef w' ∧
  examId ∈ socketsRef w' ∧
  trace w' = trace w
             ++ (if bool_decide (examId ∈ socketsRef w) then []
                 else [SocketOpen examId])
             ++ [SocketEmit examId (proctor_request_stream (session_userId session))] ∧
  peersRef w' = peersRef w ∧ pcs w' = pcs w.
Proof. apply requestStream_sends. Qed.

(** X8.  A request for a session that is not in the session list, or an
    unforced request that finds the session waiting, connecting or live,
    does nothing. *)
Theorem X8_requestStream_ignored w sessionId force :
  List.find (λ s, bool_decide (session_id s = sessionId)) (sessionsRef w) = None
  ∨ (force = false ∧
     ∃ st, streamStatesRef w !! sessionId = Some st ∧
           (status st = waiting ∨ status st = connecting ∨ status st = live)) →
  requestStream sessionId force w = w.
Proof.
  intros [Hnone|(-> & st & Hst & Hout)]; unfold requestStream.
  - by rewrite Hnone.
  - destruct (List.find _ _) as [session|]; [|done].
    rewrite Hst. by rewrite bool_decide_eq_true_2.
Qed.

Lemma socket_opens_app tr1 tr2 :
  socket_opens (tr1 ++ tr2) = socket_opens tr1 ++ socket_opens tr2.
Proof. apply omap_app. Qed.

Lemma socket_opens_track_stops (ts : list nat) :
  socket_opens (TrackStop <$> ts) = [].
Proof. induction ts as [|t ts IH]; [done|]. exact IH. Qed.

Lemma opens_nothing_id : opens_nothing (λ w, w).
Proof. done. Qed.

Lemma opens_nothing_compose f g :
  opens_nothing f → opens_nothing g → opens_nothing (λ w, g (f w)).
Proof.
  intros Hf Hg w. destruct (Hg (f w)) as [-> ->]. apply Hf.
Qed.

Lemma opens_nothing_foldl {A} (f : World → A → World) (l : list A) :
  (∀ a, opens_nothing (λ w, f w a)) → opens_nothing (λ w, foldl f w l).
Proof.
  intros Hf. induction l as [|a l IH]; intros w; [done|].
  cbn [foldl]. destruct (IH (f w a)) as [-> ->]. apply Hf.
Qed.

Lemma opens_nothing_teardownPeer sessionId : opens_nothing (teardownPeer sessionId).
Proof.
  intros w. split.
  - rewrite teardownPeer_trace, !socket_opens_app.
    destruct (peersRef w !! sessionId) as [pi|];
      [|destruct (inherited sessionId)];
      (destruct (streamStatesRef w !! sessionId ≫= stream) as [ms|]);
      rewrite ?socket_opens_track_stops; cbn; by rewrite ?app_nil_r.
  - by destruct (teardownPeer_frame sessionId w) as (_ & _ & -> & _).
Qed.

Lemma opens_nothing_stopStream sessionId st msg :
  opens_nothing (stopStream sessionId st msg).
Proof. intros w. apply (opens_nothing_teardownPeer sessionId w). Qed.

Lemma opens_nothing_stop_sessions related msg :
  opens_nothing (stop_sessions related msg).
Proof.
  apply (opens_nothing_foldl
           (λ w session, stopStream (session_id session) error (Some msg) w)).
  intros a. apply opens_nothing_stopStream.
Qed.

Lemma opens_nothing_on_offer_received examId offer senderSocketId studentId :
  opens_nothing (on_offer_received examId offer senderSocketId studentId).
Proof.
  intros w.
  destruct (List.find (λ session,
       bool_decide (session_examId session = examId
                    ∧ session_userId session = studentId))
    (sessionsRef w)) as [session|] eqn:Hs.
  - destruct (opens_nothing_teardownPeer (session_id session) w) as [Htr Hso].
    unfold on_offer_received. rewrite Hs.
    cbn [trace socketsRef suspend with_pending perform with_pcs
         with_remoteSessionMap with_peersRef].
    rewrite socket_opens_app, Htr, Hso. cbn. by rewrite app_nil_r.
  - unfold on_offer_received. by rewrite Hs.
Qed.

Lemma opens_nothing_resume t o : opens_nothing (resume t o).
Proof.
  intros w.
  destruct t as [pc ctx|pc ctx|pc ctx answer], o as [v|reason];
    unfold resume; try apply opens_nothing_stopStream;
    cbn [trace socketsRef suspend with_pending perform setStreamStates];
    rewrite socket_opens_app; cbn; by rewrite app_nil_r.
Qed.

(** A request keeps the sockets opened once. *)
Lemma requestStream_sockets_opened_once sessionId force w :
  sockets_opened_once w → sockets_opened_once (requestStream sessionId force w).
Proof.
  intros [Hnd Hiff]. unfold requestStream.
  destruct (List.find _ _) as [session|]; [|done].
  destruct (negb force && _); [done|].
  unfold sockets_opened_once, ensureSocket.
  destruct (bool_decide (session_examId session ∈ socketsRef w)) eqn:Hopen;
    [|destruct (inherited (session_examId session))];
    cbn [orb socketsRef perform setStreamStates with_requestedSessionsRef
         with_socketsRef].
  - rewrite Hopen. cbn [trace socketsRef perform setStreamStates
                        with_requestedSessionsRef].
    rewrite socket_opens_app. cbn. by rewrite app_nil_r.
  - rewrite Hopen. cbn [trace socketsRef perform setStreamStates
                        with_requestedSessionsRef].
    rewrite socket_opens_app. cbn. by rewrite app_nil_r.
  - assert (Hin : session_examId session
                  ∈ ({[session_examId session]} ∪ socketsRef w : gset string))
      by (apply elem_of_union; left; by apply elem_of_singleton).
    rewrite (bool_decide_eq_true_2 _ Hin).
    cbn [trace socketsRef perform setStreamStates with_requestedSessionsRef
         with_socketsRef].
    rewrite !socket_opens_app. cbn. rewrite app_nil_r.
    apply bool_decide_eq_false in Hopen. split.
    + apply NoDup_app. split; [done|]. split; [|apply NoDup_singleton].
      intros x Hx Hx'. apply list_elem_of_singleton in Hx' as ->.
      by apply Hopen, Hiff.
    + intros e.
      rewrite elem_of_app, list_elem_of_singleton, Hiff, elem_of_union,
        elem_of_singleton. tauto.
Qed.

Lemma opens_nothing_keeps f w :
  opens_nothing f → sockets_opened_once w → sockets_opened_once (f w).
Proof.
  intros Hf Hw. unfold sockets_opened_once.
  destruct (Hf w) as [-> ->]. done.
Qed.

Lemma auto_request_sockets_opened_once autoRequest w :
  sockets_opened_once w → sockets_opened_once (auto_request autoRequest w).
Proof.
  intros Hw. unfold auto_request. destruct (negb autoRequest); [done|].
  set (f1 := λ (w : World) (session : ProctoringSession), _).
  set (f2 := λ (w : World) (entry : string * StreamState), _).
  assert (H1 : ∀ l w0, sockets_opened_once w0 → sockets_opened_once (foldl f1 w0 l)).
  { induction l as [|x l IH]; intros w0 H0; [done|].
    cbn [foldl]. apply IH. unfold f1.
    destruct (session_active x); [|done].
    destruct (streamStatesRef w0 !! session_id x) as [state|];
      [case_bool_decide; [|done]|destruct (inherited (session_id x)); [done|]];
      by apply requestStream_sockets_opened_once. }
  assert (H2 : ∀ l w0, sockets_opened_once w0 → sockets_opened_once (foldl f2 w0 l)).
  { induction l as [|[sid state] l IH]; intros w0 H0; [done|].
    cbn [foldl]. apply IH. unfold f2.
    case_bool_decide; [|done].
    by apply (opens_nothing_keeps _ _ (opens_nothing_stopStream sid idle None)). }
  by apply H2, H1.
Qed.

(** X9.  In every reachable world the sockets in [socketsRef] are exactly
    the sockets that were opened, and each was opened once: the socket of
    an exam is created on first use and reused afterwards. *)
Theorem X9_one_socket_per_exam w :
  reachable w →
  NoDup (socket_opens (trace w)) ∧
  ∀ examId, examId ∈ socket_opens (trace w) ↔ examId ∈ socketsRef w.
Proof.
  induction 1 as [|ev w Hw IH].
  - split; [constructor|]. intros e. cbn.
    split; intros H; [by apply elem_of_nil in H|by apply elem_of_empty in H].
  - change (sockets_opened_once (step ev w)).
    change (sockets_opened_once w) in IH.
    destruct ev as [allSessions| |autoRequest|sid force|sid|examId e
                    |pc streams now|pc candidate|pc state now|n o];
      cbn [step].
    + unfold sessions_changed. by destruct allSessions.
    + done.
    + by apply auto_request_sockets_opened_once.
    + by apply requestStream_sockets_opened_once.
    + by apply (opens_nothing_keeps _ _ (opens_nothing_stopStream sid idle None)).
    + unfold socket_event. case_bool_decide; [|done].
      destruct e as [| |userId|offer sender student|candidate sender].
      * by apply (opens_nothing_keeps _ _ (opens_nothing_stop_sessions _ _)).
      * by apply (opens_nothing_keeps _ _ (opens_nothing_stop_sessions _ _)).
      * by apply (opens_nothing_keeps _ _ (opens_nothing_stop_sessions _ _)).
      * by apply (opens_nothing_keeps _ _
                    (opens_nothing_on_offer_received examId offer sender student)).
      * unfold on_ice_candidate_received.
        destruct (remoteSessionMap w !! sender) as [s|]; [|done].
        destruct (truthy s); [|done].
        destruct (peersRef w !! s) as [pi|]; [|done].
        unfold sockets_opened_once. cbn [trace socketsRef perform].
        rewrite socket_opens_app. cbn. by rewrite app_nil_r.
    + destruct (pcs w !! pc ≫= ontrack) as [[sid sender]|]; [|done].
      unfold ontrack_handler. destruct streams as [|ms ?]; [done|].
      by case_bool_decide.
    + destruct (pcs w !! pc ≫= onicecandidate) as [[examId sender]|]; [|done].
      destruct candidate as [c|]; [|done].
      unfold sockets_opened_once, onicecandidate_handler.
      cbn [trace socketsRef perform].
      rewrite socket_opens_app. cbn. by rewrite app_nil_r.
    + destruct (pcs w !! pc ≫= onconnectionstatechange) as [sid|]; [|done].
      destruct state; cbn [onconnectionstatechange_handler]; try done;
        try (by apply (opens_nothing_keeps _ _ (opens_nothing_stopStream sid _ _))).
      destruct (streamStatesRef w !! sid) as [cur|]; [|done].
      by destruct (_ && _).
    + destruct (settle_cases n o w) as [->|[->|[t ->]]]; [done|done|].
      by apply (opens_nothing_keeps (resume t o)
                  (with_pending (delete n) w) (opens_nothing_resume t o)).
Qed.

(** X7, for a forced request of the rendered session. *)
Lemma X7_witness :
  let w' := requestStream "s1" true w_rendered in
  streamStates w' !! "s1"
    = Some {| status := waiting;
              stream := streamStates w_rendered !! "s1" ≫= stream;
              lastUpdated := streamStates w_rendered !! "s1" ≫= lastUpdated;
              error_message := None; remoteSocketId := None |}.
Proof.
  refine (proj1 (X7_requestStream_sends w_rendered "s1" true s1 _ _ _)).
  - vm_compute. reflexivity.
  - vm_compute. reflexivity.
  - left. reflexivity.
Defined.

(** X8, for a request of a session that is not in the list. *)
Lemma X8_witness : requestStream "s9" false w_offered = w_offered.
Proof.
  apply X8_requestStream_ignored. left. vm_compute. reflexivity.
Defined.

(** X9, after a negotiation. *)
Lemma X9_witness :
  NoDup (socket_opens (trace w_answered)) ∧
  ∀ examId, examId ∈ socket_opens (trace w_answered)
            ↔ examId ∈ socketsRef w_answered.
Proof.
  apply X9_one_socket_per_exam.
  unfold w_answered, w_offered. repeat apply reachable_run.
  apply reachable_initial.
Defined.

End viewer_sockets.

(** ** The statistics, the session list and the cleanup *)

Section viewer_store.
Import Viewer.

Lemma status_partition (values : list StreamState) :
  length (filter (λ state, status state = live) values)
  + length (filter (λ state, status state = connecting ∨ status state = waiting)
              values)
  + length (filter (λ state, status state = error) values)
  + length (filter (λ state, status state = idle) values)
  = length values.
Proof.
  induction values as [|st values IH]; [done|].
  rewrite !filter_cons.
  destruct (status st) eqn:Hst;
    repeat (case_decide; try (by (discriminate || intuition discriminate)));
    cbn [length]; try lia;
    exfalso; intuition congruence.
Qed.

(** X10.  The three counters of [stats] count disjoint sets of sessions:
    together with the idle sessions they add up to the number of entries,
    so their sum never exceeds it. *)
Theorem X10_stats_partition (m : gmap string StreamState) :
  totalLive (stats m) + totalConnecting (stats m) + totalError (stats m)
  + length (filter (λ state, status state = idle) (map_to_list m).*2)
  = size m
  ∧ (totalLive (stats m) + totalConnecting (stats m) + totalError (stats m)
     ≤ size m)%nat.
Proof.
  pose proof (status_partition (map_to_list m).*2) as H.
  rewrite length_fmap, length_map_to_list in H.
  unfold stats. cbn [totalLive totalConnecting totalError]. lia.
Qed.

(** X11.  In every reachable world two open connections never serve the
    same session: a session has at most one live peer link. *)
Theorem X11_one_open_connection_per_session w pc1 pc2 p1 p2 sessionId :
  reachable w →
  pcs w !! pc1 = Some p1 → closed p1 = false →
  pcs w !! pc2 = Some p2 → closed p2 = false →
  onconnectionstatechange p1 = Some sessionId →
  onconnectionstatechange p2 = Some sessionId →
  pc1 = pc2.
Proof. apply viewer_one_open_connection_per_session. Qed.


(** X13.  Every stream handle stored in a reachable world, in the state or
    in the copy the callbacks read, has at least one track. *)
Theorem X13_stored_streams_have_tracks w sessionId st remoteStream :
  reachable w →
  streamStates w !! sessionId = Some st ∨ streamStatesRef w !! sessionId = Some st →
  stream st = Some remoteStream →
  length (getTracks remoteStream) ≠ 0.
Proof. apply stream_handles_have_tracks. Qed.

(** X14.  Two stream requests for an idle listed session with a render in
    between send one request: after the first the rendered entry is
    [waiting] and the second changes nothing. *)
Theorem X14_request_after_render_is_noop w sessionId session :
  List.find (λ s, bool_decide (session_id s = sessionId)) (sessionsRef w)
    = Some session →
  status <$> streamStatesRef w !! sessionId = Some idle →
  let w1 := commit (requestStream sessionId false w) in
  status_of w1 sessionId = Some waiting ∧ requestStream sessionId false w1 = w1.
Proof. apply requestStream_after_render. Qed.

(** X15.  A new session list replaces the stored one.  Every listed
    session without an entry gets the idle entry, unless its id is the
    name of a member of [Object.prototype]: the code takes the inherited
    member for an entry and writes nothing under such an id.  Entries that
    exist are never overwritten; ids of no listed session are left
    alone. *)
Theorem X15_new_sessions_start_idle w allSessions :
  let w' := sessions_changed allSessions w in
  sessionsRef w' = allSessions ∧
  (∀ sessionId st, streamStates w !! sessionId = Some st →
     streamStates w' !! sessionId = Some st) ∧
  (∀ session, session ∈ allSessions →
     inherited (session_id session) = false →
     streamStates w !! session_id session = None →
     streamStates w' !! session_id session = Some idle_entry) ∧
  (∀ sessionId, inherited sessionId = true →
     streamStates w' !! sessionId = streamStates w !! sessionId) ∧
  (∀ sessionId, sessionId ∉ session_id <$> allSessions →
     streamStates w' !! sessionId = streamStates w !! sessionId).
Proof.
  intros w'. subst w'. unfold sessions_changed.
  set (f := λ (next : gmap string StreamState) (session : ProctoringSession),
              match next !! session_id session with
              | Some _ => next
              | None =>
                  if inherited (session_id session) then next
                  else <[session_id session := idle_entry]> next
              end).
  assert (Hkeep : ∀ l (m : gmap string StreamState) sid st,
            m !! sid = Some st → foldl f m l !! sid = Some st).
  { induction l as [|x l IH]; intros m sid st Hm; [done|].
    cbn [foldl]. apply IH. unfold f.
    destruct (m !! session_id x) eqn:E; [done|].
    destruct (inherited (session_id x)); [done|].
    rewrite lookup_insert_ne; [done|]. intros <-. congruence. }
  assert (Hnew : ∀ l (m : gmap string StreamState) s,
            s ∈ l → inherited (session_id s) = false →
            m !! session_id s = None →
            foldl f m l !! session_id s = Some idle_entry).
  { induction l as [|x l IH]; intros m s Hin Hown Hm;
      [by apply elem_of_nil in Hin|].
    cbn [foldl]. apply elem_of_cons in Hin as [->|Hin].
    - apply Hkeep. unfold f. rewrite Hm, Hown. by rewrite lookup_insert_eq.
    - unfold f at 2. destruct (m !! session_id x) eqn:E; [by apply IH|].
      destruct (inherited (session_id x)) eqn:Ex; [by apply IH|].
      destruct (decide (session_id x = session_id s)) as [Heq|Hne].
      + apply Hkeep. rewrite Heq. by rewrite lookup_insert_eq.
      + apply IH; [done|done|]. by rewrite lookup_insert_ne. }
  assert (Hinh : ∀ l (m : gmap string StreamState) sid,
            inherited sid = true → foldl f m l !! sid = m !! sid).
  { induction l as [|x l IH]; intros m sid Hsid; [done|].
    cbn [foldl]. rewrite IH by done. unfold f.
    destruct (m !! session_id x) eqn:E; [done|].
    destruct (inherited (session_id x)) eqn:Ex; [done|].
    rewrite lookup_insert_ne; [done|]. intros Heq. congruence. }
  assert (Hother : ∀ l (m : gmap string StreamState) sid,
            sid ∉ session_id <$> l → foldl f m l !! sid = m !! sid).
  { induction l as [|x l IH]; intros m sid Hnot; [done|].
    rewrite fmap_cons in Hnot. apply not_elem_of_cons in Hnot as [Hne Hnot].
    cbn [foldl]. rewrite IH by done. unfold f.
    destruct (m !! session_id x) eqn:E; [done|].
    destruct (inherited (session_id x)); [done|].
    by rewrite lookup_insert_ne. }
  destruct allSessions as [|a l].
  - cbn [sessionsRef streamStates with_sessionsRef].
    repeat split; try done. intros s Hs. by apply elem_of_nil in Hs.
  - cbn [sessionsRef streamStates with_sessionsRef setStreamStates].
    split; [done|]. split; [|split; [|split]].
    + intros sid st. apply Hkeep.
    + intros s. apply Hnew.
    + intros sid. apply Hinh.
    + intros sid. apply Hother.
Qed.



(** X11, for the connection of the answered session. *)
Lemma X11_witness : 0%nat = 0%nat.
Proof.
  refine (X11_one_open_connection_per_session w_answered 0 0
    {| ontrack := Some ("s1", "R"); onicecandidate := Some ("exam-1", "R");
       onconnectionstatechange := Some "s1"; closed := false |}
    {| ontrack := Some ("s1", "R"); onicecandidate := Some ("exam-1", "R");
       onconnectionstatechange := Some "s1"; closed := false |}
    "s1" _ _ _ _ _ _ _).
  - unfold w_answered, w_offered. repeat apply reachable_run.
    apply reachable_initial.
  - vm_compute. reflexivity.
  - reflexivity.
  - vm_compute. reflexivity.
  - reflexivity.
  - reflexivity.
  - reflexivity.
Defined.


(** X13, for the stream of the answered session. *)
Lemma X13_witness : length (getTracks camera1) ≠ 0%nat.
Proof.
  refine (X13_stored_streams_have_tracks w_answered "s1"
    {| status := connecting; stream := Some camera1; lastUpdated := Some 1000%Z;
       error_message := None; remoteSocketId := Some "R" |} camera1 _ _ _).
  - unfold w_answered, w_offered. repeat apply reachable_run.
    apply reachable_initial.
  - left. vm_compute. reflexivity.
  - reflexivity.
Defined.

(** X14, for the rendered session. *)
Lemma X14_witness :
  let w1 := commit (requestStream "s1" false w_rendered) in
  status_of w1 "s1" = Some waiting ∧ requestStream "s1" false w1 = w1.
Proof.
  apply (X14_request_after_render_is_noop w_rendered "s1" s1).
  - vm_compute. reflexivity.
  - vm_compute. reflexivity.
Defined.

(** X15, when a second session joins the list. *)
Lemma X15_witness :
  streamStates (sessions_changed [s1; s2] w_answered) !! "s2" = Some idle_entry.
Proof.
  refine (proj1 (proj2 (proj2
    (X15_new_sessions_start_idle w_answered [s1; s2]))) s2 _ _ _).
  - apply list_elem_of_In. vm_compute. right. left. reflexivity.
  - vm_compute. reflexivity.
  - vm_compute. reflexivity.
Defined.


End viewer_store.

(** ** The auto-request effect *)

Section viewer_auto_request.
Import Viewer.

Lemma stopStream_requestedSessionsRef sessionId st msg w :
  requestedSessionsRef (stopStream sessionId st msg w)
  = requestedSessionsRef w ∖ {[sessionId]}.
Proof.
  unfold stopStream.
  cbn [requestedSessionsRef setStreamStates with_requestedSessionsRef].
  by destruct (teardownPeer_frame sessionId w) as (_ & _ & _ & _ & -> & _).
Qed.

Lemma stopStream_trace_grows sessionId st msg w :
  ∃ t, trace (stopStream sessionId st msg w) = trace w ++ t.
Proof.
  change (trace (stopStream sessionId st msg w))
    with (trace (teardownPeer sessionId w)).
  rewrite teardownPeer_trace. eauto.
Qed.



Lemma stop_ids_other st msg ids w sessionId :
  sessionId ∉ ids →
  streamStates (stop_ids st msg ids w) !! sessionId = streamStates w !! sessionId
  ∧ (sessionId ∈ requestedSessionsRef w →
     sessionId ∈ requestedSessionsRef (stop_ids st msg ids w)).
Proof.
  unfold stop_ids. revert w.
  induction ids as [|a ids IH]; intros w Hnot; [done|].
  apply not_elem_of_cons in Hnot as [Hne Hnot].
  cbn [foldl].
  destruct (IH (stopStream a st msg w) Hnot) as [-> Hreq].
  rewrite stopStream_streamStates, lookup_insert_ne by done.
  split; [done|]. intros Hin. apply Hreq.
  rewrite stopStream_requestedSessionsRef.
  apply elem_of_difference. split; [done|].
  rewrite elem_of_singleton. congruence.
Qed.

Lemma stop_ids_trace_grows st msg ids w :
  ∃ t, trace (stop_ids st msg ids w) = trace w ++ t.
Proof.
  unfold stop_ids. revert w. induction ids as [|a ids IH]; intros w.
  - exists []. by rewrite app_nil_r.
  - cbn [foldl]. destruct (IH (stopStream a st msg w)) as [t ->].
    destruct (stopStream_trace_grows a st msg w) as [t' ->].
    rewrite <- app_assoc. eauto.
Qed.





(** The effect as its two loops. *)
Lemma auto_request_loops w :
  auto_request true w
  = stop_ids idle None (stale_ids w) (foldl request_if_idle w (sessionsRef w)).
Proof.
  unfold auto_request, stale_ids, stop_ids. cbn [negb].
  change (list_to_set (session_id <$> List.filter session_active (sessionsRef w)))
    with (activeSessionIds w).
  change (foldl _ w (sessionsRef w)) with (foldl request_if_idle w (sessionsRef w)).
  generalize (foldl request_if_idle w (sessionsRef w)) as u.
  generalize (activeSessionIds w) as A.
  intros A. induction (map_to_list (streamStatesRef w)) as [|[k st] l IH];
    intros u; [done|].
  cbn [foldl List.filter fst snd].
  destruct (bool_decide ((k ∉ A) ∧ is_Some (stream st))); cbn [fmap list_fmap foldl fst];
    apply IH.
Qed.

Lemma requestStream_grows sessionId force w :
  sessionsRef (requestStream sessionId force w) = sessionsRef w
  ∧ remoteSessionMap (requestStream sessionId force w) = remoteSessionMap w
  ∧ (∀ x, x ∈ requestedSessionsRef w →
          x ∈ requestedSessionsRef (requestStream sessionId force w))
  ∧ ∃ t, trace (requestStream sessionId force w) = trace w ++ t.
Proof.
  unfold requestStream.
  destruct (List.find _ _) as [session|];
    [|split_and!; [done..|exists []; by rewrite app_nil_r]].
  destruct (negb force && _);
    [split_and!; [done..|exists []; by rewrite app_nil_r]|].
  set (examId := session_examId session).
  assert (Hsock : ∃ t, trace (ensureSocket examId w) = trace w ++ t
                       ∧ sessionsRef (ensureSocket examId w) = sessionsRef w
                       ∧ remoteSessionMap (ensureSocket examId w)
                         = remoteSessionMap w
                       ∧ requestedSessionsRef (ensureSocket examId w)
                         = requestedSessionsRef w).
  { unfold ensureSocket. destruct (_ || _); cbn; [|by eauto].
    exists []. by rewrite app_nil_r. }
  destruct Hsock as (t & Ht & Hs & Hm & Hr).
  assert (Hall : ∀ e,
    let w' := perform e
                (setStreamStates
                   (λ prev, <[sessionId :=
                      {| status := waiting;
                         stream := prev !! sessionId ≫= stream;
                         lastUpdated := prev !! sessionId ≫= lastUpdated;
                         error_message := None;
                         remoteSocketId := None |}]> prev)
                   (with_requestedSessionsRef (λ s, {[sessionId]} ∪ s)
                      (ensureSocket examId w))) in
    sessionsRef w' = sessionsRef w
    ∧ remoteSessionMap w' = remoteSessionMap w
    ∧ (∀ x, x ∈ requestedSessionsRef w → x ∈ requestedSessionsRef w')
    ∧ ∃ t, trace w' = trace w ++ t).
  { intros e.
    cbn [sessionsRef remoteSessionMap requestedSessionsRef trace perform
         setStreamStates with_requestedSessionsRef].
    rewrite Hs, Hm, Hr, Ht. split_and!; [done|done| |].
    - intros x Hx. apply elem_of_union. by right.
    - rewrite <- app_assoc. eauto. }
  destruct (bool_decide (examId ∈ socketsRef _)); apply Hall.
Qed.

Lemma request_if_idle_cases w session :
  request_if_idle w session = w
  ∨ request_if_idle w session = requestStream (session_id session) false w.
Proof.
  unfold request_if_idle. destruct (session_active session); [|by left].
  destruct (streamStatesRef w !! session_id session) as [state|].
  - destruct (bool_decide _); [by right|by left].
  - destruct (inherited (session_id session)); [by left|by right].
Qed.

Lemma request_if_idle_frame w session :
  let w' := request_if_idle w session in
  sessionsRef w' = sessionsRef w ∧ streamStatesRef w' = streamStatesRef w
  ∧ peersRef w' = peersRef w ∧ pcs w' = pcs w
  ∧ remoteSessionMap w' = remoteSessionMap w.
Proof.
  intros w'. subst w'.
  destruct (request_if_idle_cases w session) as [->| ->]; [done|].
  destruct (requestStream_grows (session_id session) false w) as (-> & -> & _).
  destruct (requestStream_links (session_id session) false w) as [-> ->].
  by rewrite requestStream_streamStatesRef.
Qed.


Lemma requestStream_keeps_outstanding sessionId request sessionId' force w :
  request_outstanding sessionId request w →
  request_outstanding sessionId request (requestStream sessionId' force w).
Proof.
  intros (Hst & Hreq & Htr).
  destruct (requestStream_grows sessionId' force w) as (_ & _ & Hsub & t & Ht).
  split; [|split].
  - destruct (requestStream_streamStates sessionId' force w) as [-> | ->]; [done|].
    destruct (decide (sessionId' = sessionId)) as [->|Hne].
    + by rewrite lookup_insert_eq.
    + by rewrite lookup_insert_ne.
  - by apply Hsub.
  - rewrite Ht. apply elem_of_app. by left.
Qed.

Lemma request_loop_outstanding sessionId found w l u :
  List.find (λ s, bool_decide (session_id s = sessionId)) (sessionsRef w)
    = Some found →
  inherited sessionId = false →
  inherited (session_examId found) = false →
  (∀ st, streamStatesRef w !! sessionId = Some st → status st = idle) →
  sessionsRef u = sessionsRef w →
  streamStatesRef u = streamStatesRef w →
  let request :=
    SocketEmit (session_examId found)
      (proctor_request_stream (session_userId found)) in
  request_outstanding sessionId request u
  ∨ (∃ session, session ∈ l ∧ session_active session = true
                ∧ session_id session = sessionId) →
  request_outstanding sessionId request (foldl request_if_idle u l).
Proof.
  intros Hfind Hown Hexam Hidle Hs Hr request. revert u Hs Hr.
  induction l as [|a l IH]; intros u Hs Hr Hcase.
  - destruct Hcase as [H|(s & Hin & _)]; [done|by apply elem_of_nil in Hin].
  - cbn [foldl].
    destruct (request_if_idle_frame u a) as (Fs & Fr & _).
    apply IH; [congruence|congruence|].
    destruct Hcase as [H|(s & Hin & Hact & Hid)].
    + left. destruct (request_if_idle_cases u a) as [->| ->]; [done|].
      by apply requestStream_keeps_outstanding.
    + apply elem_of_cons in Hin as [->|Hin]; [|right; eauto].
      left.
      assert (Hgo : request_if_idle u a = requestStream sessionId false u).
      { unfold request_if_idle. rewrite Hact, Hid, Hr.
        destruct (streamStatesRef w !! sessionId) as [st|] eqn:E;
          [|by rewrite Hown].
        by rewrite (bool_decide_eq_true_2 _ (Hidle st eq_refl)). }
      rewrite Hgo.
      assert (Hfind' : List.find (λ s, bool_decide (session_id s = sessionId))
                         (sessionsRef u) = Some found) by by rewrite Hs.
      destruct (requestStream_sends u sessionId false found Hfind' Hexam)
        as (Hst & Hmark & _ & Htr & _).
      { right. intros st Hst. left. apply Hidle. by rewrite <- Hr. }
      split; [by rewrite Hst|]. split; [done|].
      rewrite Htr. rewrite !elem_of_app. right. right.
      apply elem_of_cons. by left.
Qed.

Lemma stale_ids_spec w sessionId :
  sessionId ∈ stale_ids w ↔
  (sessionId ∉ activeSessionIds w)
  ∧ ∃ st, streamStatesRef w !! sessionId = Some st ∧ is_Some (stream st).
Proof.
  unfold stale_ids. rewrite list_elem_of_fmap. split.
  - intros ([k st] & -> & Hin). apply list_elem_of_In, filter_In in Hin.
    destruct Hin as [Hin Hc]. apply bool_decide_eq_true in Hc as [Hna Hs].
    apply list_elem_of_In, elem_of_map_to_list in Hin. eauto.
  - intros (Hna & st & Hst & Hs). exists (sessionId, st). split; [done|].
    apply list_elem_of_In, filter_In. split.
    + apply list_elem_of_In, elem_of_map_to_list. done.
    + by apply bool_decide_eq_true.
Qed.

Lemma activeSessionIds_spec w sessionId :
  sessionId ∈ activeSessionIds w ↔
  ∃ session, session ∈ sessionsRef w ∧ session_active session = true
             ∧ session_id session = sessionId.
Proof.
  unfold activeSessionIds. rewrite elem_of_list_to_set, list_elem_of_fmap.
  split.
  - intros (s & -> & Hin). apply list_elem_of_In, filter_In in Hin as [Hin Ha].
    exists s. by rewrite list_elem_of_In.
  - intros (s & Hin & Ha & <-). exists s. split; [done|].
    apply list_elem_of_In, filter_In. by rewrite <- list_elem_of_In.
Qed.

(** X17.  The auto-request effect asks for the stream of every active
    session of the list whose entry in the committed state is absent or
    idle: the session ends waiting, is marked as requested, and a stream
    request naming the participant of the first session with that id has
    been sent on the socket of its exam.  The ids are ordinary keys: the
    id of the session and the exam ids of the listed sessions are not
    names of members of [Object.prototype] (for such a session id the
    code takes the inherited member for an entry that is not idle, and
    for such an exam id the request throws and ends the effect). *)
Theorem X17_auto_request_asks_for_active_sessions w session found :
  session ∈ sessionsRef w →
  session_active session = true →
  inherited (session_id session) = false →
  (∀ listed, listed ∈ sessionsRef w →
     inherited (session_examId listed) = false) →
  (∀ st, streamStatesRef w !! session_id session = Some st → status st = idle) →
  List.find (λ s, bool_decide (session_id s = session_id session)) (sessionsRef w)
    = Some found →
  request_outstanding (session_id session)
    (SocketEmit (session_examId found)
       (proctor_request_stream (session_userId found)))
    (auto_request true w).
Proof.
  intros Hin Hact Hown Hexams Hidle Hfind. rewrite auto_request_loops.
  assert (Hexam : inherited (session_examId found) = false).
  { apply Hexams. apply list_elem_of_In.
    by destruct (find_some _ _ Hfind) as [? _]. }
  pose proof (request_loop_outstanding (session_id session) found w
                (sessionsRef w) w Hfind Hown Hexam Hidle eq_refl eq_refl)
    as Hloop.
  cbv zeta in Hloop.
  destruct Hloop as (Hst & Hmark & Htr); [right; eauto|].
  assert (Hnot : session_id session ∉ stale_ids w).
  { rewrite stale_ids_spec. intros [Hna _]. apply Hna.
    apply activeSessionIds_spec. eauto. }
  destruct (stop_ids_other idle None (stale_ids w)
              (foldl request_if_idle w (sessionsRef w)) _ Hnot) as [Hsame Hkeep].
  destruct (stop_ids_trace_grows idle None (stale_ids w)
              (foldl request_if_idle w (sessionsRef w))) as [t Ht].
  split; [by rewrite Hsame|]. split; [by apply Hkeep|].
  rewrite Ht. apply elem_of_app. by left.
Qed.



(** X17, for the rendered session. *)
Lemma X17_witness :
  request_outstanding "s1"
    (SocketEmit "exam-1" (proctor_request_stream "u1"))
    (auto_request true w_rendered).
Proof.
  apply (X17_auto_request_asks_for_active_sessions w_rendered s1 s1).
  - apply list_elem_of_In. vm_compute. left. reflexivity.
  - reflexivity.
  - vm_compute. reflexivity.
  - intros listed Hin. apply list_elem_of_In in Hin. vm_compute in Hin.
    destruct Hin as [<-|[]]. vm_compute. reflexivity.
  - intros st Hst. vm_compute in Hst. injection Hst as <-. reflexivity.
  - vm_compute. reflexivity.
Defined.


End viewer_auto_request.

(** ** The publisher: answering a stream request *)

Section publisher_offer.
Import Publisher.

Lemma foldl_perform_eq (f : nat → Effect) (l : list nat) w :
  foldl (λ w t, perform (f t) w) w l
  = {| normalizedExamId := normalizedExamId w;
       normalizedStudentId := normalizedStudentId w;
       socketRef := socketRef w; peerConnectionsRef := peerConnectionsRef w;
       pcs := pcs w; currentStream := currentStream w;
       pending := pending w; trace := trace w ++ (f <$> l) |}.
Proof.
  revert w. induction l as [|t l IH]; intros w.
  - destruct w. cbn. by rewrite app_nil_r.
  - cbn [foldl]. rewrite IH. destruct w. cbn. by rewrite <- app_assoc.
Qed.

Lemma open_link_eq proctorSocketId stream w :
  open_link proctorSocketId stream w
  = suspend (AwaitCreateOffer (length (pcs w)) proctorSocketId)
      {| normalizedExamId := normalizedExamId w;
         normalizedStudentId := normalizedStudentId w;
         socketRef := socketRef w;
         peerConnectionsRef :=
           <[proctorSocketId := length (pcs w)]> (peerConnectionsRef w);
         pcs := pcs w ++ [new_link proctorSocketId];
         currentStream := currentStream w;
         pending := pending w;
         trace := trace w ++ (PcAddTrack (length (pcs w)) <$> getTracks stream)
                          ++ [PcCreateOffer (length (pcs w))] |}.
Proof.
  unfold open_link. cbv zeta. rewrite foldl_perform_eq.
  destruct w as [ex st so reg ps cam pend tr].
  cbv beta iota delta [with_pcs with_peerConnectionsRef perform suspend
    with_pending normalizedExamId normalizedStudentId socketRef
    peerConnectionsRef pcs currentStream pending trace].
  f_equal.
  - by rewrite !alter_snoc_length.
  - by rewrite <- app_assoc.
Qed.

Lemma respondToProctorOfferRequest_streaming proctorSocketId stream w :
  socketRef w = Some true → currentStream w = Some stream →
  respondToProctorOfferRequest proctorSocketId w
  = open_link proctorSocketId stream (teardownPeerConnection proctorSocketId w).
Proof.
  intros Hs Hc. unfold respondToProctorOfferRequest. rewrite Hs.
  destruct (peerConnectionsRef w !! proctorSocketId) as [peer|] eqn:E.
  - destruct (teardownPeerConnection_frame proctorSocketId w) as (_ & -> & _).
    by rewrite Hc.
  - rewrite (teardownPeerConnection_absent _ _ E). by rewrite Hc.
Qed.

Lemma handleOfferRequest_accepted w proctorSocketId studentIdToView :
  proctorSocketId ≠ "" →
  (studentIdToView = None ∨ studentIdToView = Some ""
   ∨ studentIdToView = Some (normalizedStudentId w)) →
  handleOfferRequest (Some proctorSocketId) studentIdToView w
  = respondToProctorOfferRequest proctorSocketId w.
Proof.
  intros Hp Hs. unfold handleOfferRequest.
  rewrite (proj2 (truthy_true _) Hp). cbn [negb].
  destruct Hs as [->|[->| ->]]; [done|done|].
  rewrite bool_decide_eq_true_2 by done. cbn [negb]. by rewrite andb_false_r.
Qed.

Lemma teardownPeerConnection_trace proctorSocketId w :
  trace (teardownPeerConnection proctorSocketId w)
  = trace w ++ match peerConnectionsRef w !! proctorSocketId with
               | Some peer => teardown_effects peer
               | None => []
               end.
Proof.
  destruct (peerConnectionsRef w !! proctorSocketId) as [peer|] eqn:E.
  - by rewrite (teardownPeerConnection_present _ _ _ E).
  - rewrite (teardownPeerConnection_absent _ _ E). by rewrite app_nil_r.
Qed.

(** The world in which the handler of a request waits for [createOffer]. *)
Lemma offer_requested w proctorSocketId studentIdToView stream :
  socketRef w = Some true → currentStream w = Some stream →
  proctorSocketId ≠ "" →
  (studentIdToView = None ∨ studentIdToView = Some ""
   ∨ studentIdToView = Some (normalizedStudentId w)) →
  let w0 := teardownPeerConnection proctorSocketId w in
  let pc := length (pcs w) in
  step (EvOfferRequest (Some proctorSocketId) studentIdToView) w
  = suspend (AwaitCreateOffer pc proctorSocketId)
      {| normalizedExamId := normalizedExamId w;
         normalizedStudentId := normalizedStudentId w;
         socketRef := socketRef w;
         peerConnectionsRef := <[proctorSocketId := pc]> (peerConnectionsRef w0);
         pcs := pcs w0 ++ [new_link proctorSocketId];
         currentStream := currentStream w;
         pending := pending w;
         trace := trace w0 ++ (PcAddTrack pc <$> getTracks stream)
                          ++ [PcCreateOffer pc] |}.
Proof.
  intros Hs Hc Hp Hst w0 pc. cbn [step].
  rewrite handleOfferRequest_accepted by done.
  rewrite (respondToProctorOfferRequest_streaming _ stream) by done.
  rewrite open_link_eq. fold w0.
  destruct (teardownPeerConnection_frame proctorSocketId w)
    as (F1 & F2 & F3 & F4 & F5). fold w0 in F1, F2, F3, F4, F5.
  assert (normalizedExamId w0 = normalizedExamId w
          ∧ normalizedStudentId w0 = normalizedStudentId w) as [-> ->].
  { unfold w0. destruct (peerConnectionsRef w !! proctorSocketId) as [peer|] eqn:E.
    - by rewrite (teardownPeerConnection_present _ _ _ E).
    - by rewrite (teardownPeerConnection_absent _ _ E). }
  by rewrite F1, F2, F3, F4.
Qed.

(** X19.  With the socket connected and the camera running, a request of
    a proctor for this participant's stream is answered with an offer:
    the link registered for the proctor, if any, is torn down; a new
    connection carries every track of the camera stream; once the offer
    is created and set as the local description it is sent to the
    proctor, and the new connection stays registered for that proctor. *)
Theorem X19_stream_request_answered_with_offer
    w proctorSocketId studentIdToView stream offer value :
  socketRef w = Some true → currentStream w = Some stream →
  proctorSocketId ≠ "" →
  (studentIdToView = None ∨ studentIdToView = Some ""
   ∨ studentIdToView = Some (normalizedStudentId w)) →
  let w0 := teardownPeerConnection proctorSocketId w in
  let pc := length (pcs w) in
  let n := length (pending w) in
  let w' := run [EvOfferRequest (Some proctorSocketId) studentIdToView;
                 EvSettle n (Fulfilled offer);
                 EvSettle n (Fulfilled value)] w in
  trace w' = trace w0 ++ (PcAddTrack pc <$> getTracks stream)
             ++ [PcCreateOffer pc; PcSetLocalDescription pc offer;
                 SocketEmit (normalizedExamId w)
                   (webrtc_offer offer proctorSocketId)]
  ∧ peerConnectionsRef w' !! proctorSocketId = Some pc
  ∧ pcs w' !! pc = Some (offered_link proctorSocketId offer)
  ∧ pending w' = pending w.
Proof.
  intros Hs Hc Hp Hst w0 pc n w'. subst w'. unfold run. cbn [foldl].
  rewrite (offer_requested w proctorSocketId studentIdToView stream) by done.
  fold w0 pc.
  destruct (teardownPeerConnection_frame proctorSocketId w)
    as (_ & _ & _ & Hlen & _). fold w0 in Hlen.
  set (u := {| normalizedExamId := normalizedExamId w;
               peerConnectionsRef := _ |}).
  assert (Hpc : pcs u !! pc = Some (new_link proctorSocketId)).
  { unfold u, pc. cbn [pcs]. rewrite <- Hlen. apply lookup_snoc_length. }
  cbn [step]. change n with (length (pending u)).
  rewrite (settle_suspended _ _ u pc (new_link proctorSocketId)) by done.
  cbn [resume operation_done].
  set (u2 := perform (PcSetLocalDescription pc offer) u).
  change (length (pending u)) with (length (pending u2)).
  rewrite (settle_suspended _ _ u2 pc (new_link proctorSocketId)) by done.
  cbn [resume operation_done].
  unfold emit, u2, u.
  cbv beta iota delta [with_pcs perform normalizedExamId normalizedStudentId
    socketRef peerConnectionsRef pcs currentStream pending trace].
  split_and!.
  - by rewrite <- !app_assoc.
  - by rewrite lookup_insert_eq.
  - unfold pc. rewrite <- Hlen. by rewrite alter_snoc_length, lookup_snoc_length.
  - done.
Qed.

(** X20.  When creating the offer fails, nothing is sent to the proctor:
    the failure is logged, the new connection is closed with its observers
    detached, and no connection stays registered for the proctor. *)
Theorem X20_failed_offer_closes_the_link
    w proctorSocketId studentIdToView stream reason :
  socketRef w = Some true → currentStream w = Some stream →
  proctorSocketId ≠ "" →
  (studentIdToView = None ∨ studentIdToView = Some ""
   ∨ studentIdToView = Some (normalizedStudentId w)) →
  let w0 := teardownPeerConnection proctorSocketId w in
  let pc := length (pcs w) in
  let w' := run [EvOfferRequest (Some proctorSocketId) studentIdToView;
                 EvSettle (length (pending w)) (Rejected reason)] w in
  trace w' = trace w0 ++ (PcAddTrack pc <$> getTracks stream)
             ++ [PcCreateOffer pc;
                 ConsoleError "[AICameraMonitor] Lỗi khi tạo WebRTC offer cho giám thị"]
             ++ teardown_effects pc
  ∧ peerConnectionsRef w' !! proctorSocketId = None
  ∧ pcs w' !! pc = Some (closed_pc (new_link proctorSocketId))
  ∧ pending w' = pending w.
Proof.
  intros Hs Hc Hp Hst w0 pc w'. subst w'. unfold run. cbn [foldl].
  rewrite (offer_requested w proctorSocketId studentIdToView stream) by done.
  fold w0 pc.
  destruct (teardownPeerConnection_frame proctorSocketId w)
    as (_ & _ & _ & Hlen & _). fold w0 in Hlen.
  set (u := {| normalizedExamId := normalizedExamId w;
               peerConnectionsRef := _ |}).
  assert (Hpc : pcs u !! pc = Some (new_link proctorSocketId)).
  { unfold u, pc. cbn [pcs]. rewrite <- Hlen. apply lookup_snoc_length. }
  cbn [step]. change (length (pending w)) with (length (pending u)).
  rewrite (settle_suspended _ _ u pc (new_link proctorSocketId)) by done.
  cbn [resume operation_done].
  set (u2 := perform _ u).
  assert (Hreg : peerConnectionsRef u2 !! proctorSocketId = Some pc)
    by (unfold u2, u; cbn; by rewrite lookup_insert_eq).
  rewrite (teardownPeerConnection_present _ _ _ Hreg).
  unfold u2, u.
  cbv beta iota delta [perform normalizedExamId normalizedStudentId
    socketRef peerConnectionsRef pcs currentStream pending trace].
  split_and!.
  - by rewrite <- !app_assoc.
  - by rewrite lookup_delete_eq.
  - unfold pc. rewrite <- Hlen. by rewrite alter_snoc_length, lookup_snoc_length.
  - done.
Qed.

(** X19, for a request of proctor "R". *)
Lemma X19_witness :
  let w' := run [EvOfferRequest (Some "R") None;
                 EvSettle 0 (Fulfilled offer1);
                 EvSettle 0 (Fulfilled offer1)] p_streaming in
  trace w' = trace (teardownPeerConnection "R" p_streaming)
             ++ (PcAddTrack 0 <$> getTracks camera1)
             ++ [PcCreateOffer 0; PcSetLocalDescription 0 offer1;
                 SocketEmit "exam-1" (webrtc_offer offer1 "R")].
Proof.
  refine (proj1 (X19_stream_request_answered_with_offer p_streaming "R" None
                   camera1 offer1 offer1 _ _ _ _)).
  - reflexivity.
  - reflexivity.
  - discriminate.
  - left. reflexivity.
Defined.

(** X20, when [createOffer] fails for the request of proctor "R". *)
Lemma X20_witness :
  let w' := run [EvOfferRequest (Some "R") None;
                 EvSettle 0 (Rejected (ErrorObject "OperationError"))]
              p_streaming in
  peerConnectionsRef w' !! "R" = None.
Proof.
  refine (proj1 (proj2 (X20_failed_offer_closes_the_link p_streaming "R" None
                   camera1 (ErrorObject "OperationError") _ _ _ _))).
  - reflexivity.
  - reflexivity.
  - discriminate.
  - left. reflexivity.
Defined.

End publisher_offer.

(** ** The publisher: which requests are answered, and how links end *)

Section publisher_links.
Import Publisher.

Lemma respondToProctorOfferRequest_acts proctorSocketId w :
  ∃ e t, trace (respondToProctorOfferRequest proctorSocketId w)
         = trace w ++ e :: t.
Proof.
  destruct (socketRef w) as [[|]|] eqn:Hs.
  - destruct (currentStream w) as [stream|] eqn:Hc.
    + rewrite (respondToProctorOfferRequest_streaming _ stream) by done.
      rewrite open_link_eq. cbn [trace suspend with_pending].
      rewrite teardownPeerConnection_trace.
      destruct (peerConnectionsRef w !! proctorSocketId) as [peer|].
      * rewrite <- app_assoc. cbn. eauto.
      * rewrite app_nil_r.
        destruct (getTracks stream) as [|t ts]; cbn; eauto.
    + rewrite respondToProctorOfferRequest_camera_off by done.
      cbn [trace suspend with_pending perform].
      rewrite teardownPeerConnection_trace.
      destruct (peerConnectionsRef w !! proctorSocketId) as [peer|].
      * rewrite <- app_assoc. cbn. eauto.
      * rewrite app_nil_r. eauto.
  - unfold respondToProctorOfferRequest. rewrite Hs. cbn. eauto.
  - unfold respondToProctorOfferRequest. rewrite Hs. cbn. eauto.
Qed.

Lemma respondToProctorOfferRequest_changes proctorSocketId w :
  respondToProctorOfferRequest proctorSocketId w ≠ w.
Proof.
  intros Heq.
  destruct (respondToProctorOfferRequest_acts proctorSocketId w) as (e & t & Ht).
  rewrite Heq in Ht. apply (f_equal length) in Ht.
  rewrite length_app in Ht. cbn in Ht. lia.
Qed.

(** X21.  The hook answers a stream request exactly when it names a
    proctor endpoint and does not name another participant: a request
    without a proctor endpoint, or for the stream of somebody else, leaves
    the hook as it was; every other request has an effect. *)
Theorem X21_only_requests_for_this_participant_are_answered
    w proctorSocketId studentIdToView :
  step (EvOfferRequest proctorSocketId studentIdToView) w = w
  ↔ request_filtered w proctorSocketId studentIdToView.
Proof.
  unfold request_filtered. cbn [step]. unfold handleOfferRequest.
  destruct proctorSocketId as [p|]; [|split; auto].
  destruct (decide (p = "")) as [->|Hp].
  { cbn. split; auto. }
  rewrite (proj2 (truthy_true _) Hp). cbn [negb].
  assert (Hresp : respondToProctorOfferRequest p w = w → False)
    by apply respondToProctorOfferRequest_changes.
  destruct studentIdToView as [s|].
  - destruct (decide (s = "")) as [->|Hs].
    + change (truthy "") with false. cbn [andb].
      split; [intros H; by destruct (Hresp H)|].
      intros [?|[?|(s & ? & ? & ?)]]; congruence.
    + rewrite (proj2 (truthy_true _) Hs). cbn [andb].
      case_bool_decide as Heq; cbn [negb].
      * split; [intros H; by destruct (Hresp H)|].
        intros [?|[?|(s' & ? & ? & ?)]]; congruence.
      * split; [|done]. intros _. right. right. eauto.
  - split; [intros H; by destruct (Hresp H)|].
    intros [?|[?|(s & ? & ? & ?)]]; congruence.
Qed.

(** X22.  A connection that reports [failed], [disconnected] or [closed]
    ends the link of the proctor it was opened for: the connection
    registered for that proctor is closed with its observers detached and
    the proctor is no longer registered.  Any other state leaves the hook
    as it is. *)
Theorem X22_transport_failure_ends_the_link w pc proctorSocketId peer p state :
  pcs w !! pc ≫= onconnectionstatechange = Some proctorSocketId →
  peerConnectionsRef w !! proctorSocketId = Some peer →
  pcs w !! peer = Some p →
  let w' := step (EvConnectionState pc state) w in
  (state = cs_failed ∨ state = cs_disconnected ∨ state = cs_closed →
     peerConnectionsRef w' = delete proctorSocketId (peerConnectionsRef w)
     ∧ pcs w' !! peer = Some (closed_pc p)
     ∧ trace w' = trace w ++ teardown_effects peer)
  ∧ (state = cs_new ∨ state = cs_connecting ∨ state = cs_connected → w' = w).
Proof.
  intros Hobs Hreg Hp w'. subst w'. cbn [step]. rewrite Hobs.
  unfold onconnectionstatechange_handler.
  split.
  - intros Hst.
    assert (Heq : match state with
                  | cs_failed | cs_disconnected | cs_closed =>
                      teardownPeerConnection proctorSocketId w
                  | _ => w
                  end = teardownPeerConnection proctorSocketId w)
      by (destruct Hst as [->|[->| ->]]; done).
    rewrite Heq, (teardownPeerConnection_present _ _ _ Hreg).
    cbn [peerConnectionsRef pcs trace].
    split; [done|]. split; [|done].
    by rewrite list_lookup_alter_eq, Hp.
  - by intros [->|[->| ->]].
Qed.

Lemma closed_pc_idemp p : closed_pc (closed_pc p) = closed_pc p.
Proof. done. Qed.

Lemma teardown_loop_pcs (l : list (string * nat)) w :
  NoDup l.*1 →
  (∀ k pc, (k, pc) ∈ l → peerConnectionsRef w !! k = Some pc) →
  pcs (foldl (λ w entry, teardownPeerConnection entry.1 w) w l)
  = foldl (λ ps entry, alter closed_pc entry.2 ps) (pcs w) l.
Proof.
  revert w. induction l as [|[k pc] l IH]; intros w Hnd Hreg; [done|].
  cbn [foldl fst snd]. cbn [fmap list_fmap fst] in Hnd.
  apply NoDup_cons in Hnd as [Hk Hnd].
  assert (Hkpc : peerConnectionsRef w !! k = Some pc)
    by (apply Hreg, elem_of_cons; by left).
  rewrite IH.
  - by rewrite (teardownPeerConnection_present _ _ _ Hkpc).
  - done.
  - intros k' pc' Hin.
    rewrite (teardownPeerConnection_present _ _ _ Hkpc). cbn.
    rewrite lookup_delete_ne.
    + apply Hreg, elem_of_cons. by right.
    + intros ->. apply Hk. apply list_elem_of_fmap. by exists (k', pc').
Qed.

Lemma close_all_lookup (l : list (string * nat))
    (ps : list RTCPeerConnection) (i : nat) (p : RTCPeerConnection) :
  ps !! i = Some p →
  foldl (λ ps entry, alter closed_pc entry.2 ps) ps l !! i
  = Some (if bool_decide (i ∈ l.*2) then closed_pc p else p).
Proof.
  revert ps p. induction l as [|[k pc] l IH]; intros ps p Hp; [done|].
  cbn [foldl snd fmap list_fmap].
  destruct (decide (pc = i)) as [->|Hne].
  - rewrite (IH _ (closed_pc p)) by by rewrite list_lookup_alter_eq, Hp.
    rewrite (bool_decide_eq_true_2 (i ∈ i :: _))
      by (apply elem_of_cons; by left).
    by destruct (bool_decide _).
  - rewrite (IH _ p) by by rewrite list_lookup_alter_ne.
    f_equal. destruct (decide (i ∈ l.*2)) as [Hin|Hnot].
    + rewrite !bool_decide_eq_true_2; [done| |done].
      apply elem_of_cons. by right.
    + rewrite !bool_decide_eq_false_2; [done| |done].
      intros [?|?]%elem_of_cons; congruence.
Qed.

Lemma teardownAllPeers_closes w proctorSocketId peer p :
  peerConnectionsRef w !! proctorSocketId = Some peer →
  pcs w !! peer = Some p →
  peerConnectionsRef (teardownAllPeers w) = ∅
  ∧ pcs (teardownAllPeers w) !! peer = Some (closed_pc p).
Proof.
  intros Hreg Hp. unfold teardownAllPeers. cbv zeta.
  cbn [peerConnectionsRef pcs with_peerConnectionsRef]. split; [done|].
  rewrite teardown_loop_pcs.
  - rewrite (close_all_lookup _ _ _ p Hp).
    rewrite bool_decide_eq_true_2; [done|].
    apply list_elem_of_fmap. exists (proctorSocketId, peer). split; [done|].
    by apply elem_of_map_to_list.
  - apply NoDup_fst_map_to_list.
  - intros k pc Hin. by apply elem_of_map_to_list.
Qed.

(** X23.  When the socket disconnects, and when monitoring is stopped,
    every link ends: each registered connection is closed with its
    observers detached, and the registry is empty. *)
Theorem X23_disconnect_closes_every_link w ev proctorSocketId peer p :
  ev = EvSocketDisconnect ∨ ev = EvStopMonitoring →
  peerConnectionsRef w !! proctorSocketId = Some peer →
  pcs w !! peer = Some p →
  peerConnectionsRef (step ev w) = ∅
  ∧ pcs (step ev w) !! peer = Some (closed_pc p).
Proof.
  intros [-> | ->] Hreg Hp; cbn [step]; unfold handleSocketDisconnect.
  - by apply (teardownAllPeers_closes _ proctorSocketId).
  - by apply (teardownAllPeers_closes _ proctorSocketId).
Qed.

(** X22, when the connection of proctor "R" fails. *)
Lemma X22_witness :
  peerConnectionsRef (step (EvConnectionState 0 cs_failed) p_offered)
  = delete "R" (peerConnectionsRef p_offered).
Proof.
  refine (proj1 (proj1 (X22_transport_failure_ends_the_link p_offered 0 "R" 0
    (offered_link "R" offer1) cs_failed _ _ _) _)).
  - vm_compute. reflexivity.
  - vm_compute. reflexivity.
  - vm_compute. reflexivity.
  - left. reflexivity.
Defined.

(** X23, when the socket disconnects after the offer was sent. *)
Lemma X23_witness :
  peerConnectionsRef (step EvSocketDisconnect p_offered) = ∅
  ∧ pcs (step EvSocketDisconnect p_offered) !! 0%nat
    = Some (closed_pc (offered_link "R" offer1)).
Proof.
  apply (X23_disconnect_closes_every_link p_offered EvSocketDisconnect "R").
  - left. reflexivity.
  - vm_compute. reflexivity.
  - vm_compute. reflexivity.
Defined.

End publisher_links.

(** ** The publisher: the registry of links *)

Section publisher_registry.
Import Publisher.

Lemma registry_sound_ext w w' :
  peerConnectionsRef w' = peerConnectionsRef w → pcs w' = pcs w →
  registry_sound w → registry_sound w'.
Proof. unfold registry_sound. intros -> ->. done. Qed.

Lemma registry_sound_teardownPeerConnection proctorSocketId w :
  registry_sound w → registry_sound (teardownPeerConnection proctorSocketId w).
Proof.
  intros Hw.
  destruct (peerConnectionsRef w !! proctorSocketId) as [peer|] eqn:E;
    [|by rewrite (teardownPeerConnection_absent _ _ E)].
  rewrite (teardownPeerConnection_present _ _ _ E).
  intros k pc. cbn [peerConnectionsRef pcs]. intros Hk.
  apply lookup_delete_Some in Hk as [Hne Hk].
  destruct (Hw k pc Hk) as (p & Hp & Hc & Hi & Ho).
  exists p. split; [|done].
  rewrite list_lookup_alter_ne; [done|]. intros ->.
  destruct (Hw _ _ E) as (p' & Hp' & _ & Hi' & _). congruence.
Qed.

Lemma registry_sound_open_link proctorSocketId stream w :
  registry_sound w → registry_sound (open_link proctorSocketId stream w).
Proof.
  intros Hw k pc.
  destruct (open_link_links proctorSocketId stream w) as [-> ->].
  intros Hk. destruct (decide (proctorSocketId = k)) as [->|Hne].
  - rewrite lookup_insert_eq in Hk. injection Hk as <-.
    eexists. split; [apply lookup_snoc_length|done].
  - rewrite lookup_insert_ne in Hk by done.
    destruct (Hw k pc Hk) as (p & Hp & Hrest).
    exists p. split; [|done]. by apply lookup_app_l_Some.
Qed.

Lemma registry_sound_respondToProctorOfferRequest proctorSocketId w :
  registry_sound w → registry_sound (respondToProctorOfferRequest proctorSocketId w).
Proof.
  intros Hw. unfold respondToProctorOfferRequest.
  destruct (socketRef w) as [[|]|]; [|done|done].
  assert (Hw0 : registry_sound
                  match peerConnectionsRef w !! proctorSocketId with
                  | Some _ => teardownPeerConnection proctorSocketId w
                  | None => w
                  end).
  { destruct (peerConnectionsRef w !! proctorSocketId); [|done].
    by apply registry_sound_teardownPeerConnection. }
  revert Hw0. generalize (match peerConnectionsRef w !! proctorSocketId with
                          | Some _ => teardownPeerConnection proctorSocketId w
                          | None => w
                          end). intros u Hu.
  destruct (currentStream u) as [stream|]; [|done].
  by apply registry_sound_open_link.
Qed.

Lemma registry_sound_alter (f : RTCPeerConnection → RTCPeerConnection) pc w :
  (∀ p, closed (f p) = closed p ∧ onicecandidate (f p) = onicecandidate p
        ∧ onconnectionstatechange (f p) = onconnectionstatechange p) →
  registry_sound w → registry_sound (with_pcs (alter f pc) w).
Proof.
  intros Hf Hw k pc'. cbn [peerConnectionsRef pcs with_pcs]. intros Hk.
  destruct (Hw k pc' Hk) as (p & Hp & Hc & Hi & Ho).
  destruct (decide (pc = pc')) as [->|Hne].
  - exists (f p). rewrite list_lookup_alter_eq, Hp.
    destruct (Hf p) as (-> & -> & ->). done.
  - exists p. by rewrite list_lookup_alter_ne.
Qed.

Lemma registry_sound_operation_done t o w :
  registry_sound w → registry_sound (operation_done t o w).
Proof.
  intros Hw. destruct t, o; try done; cbn [operation_done];
    by apply registry_sound_alter.
Qed.

Lemma registry_sound_resume t o w :
  registry_sound w → registry_sound (resume t o w).
Proof.
  intros Hw. destruct t, o; try done; cbn [resume];
    try (apply registry_sound_teardownPeerConnection; done).
Qed.

Lemma registry_sound_settle n o w :
  registry_sound w → registry_sound (settle n o w).
Proof.
  intros Hw. unfold settle.
  destruct (pending w !! n) as [t|]; [|done].
  destruct (task_pc t) as [pc|]; [|done]. cbv zeta.
  cbn [pcs with_pending].
  destruct (pcs w !! pc) as [p|]; [|done].
  destruct (closed p); [done|].
  apply registry_sound_resume, registry_sound_operation_done. done.
Qed.

Lemma registry_sound_teardownAllPeers w : registry_sound (teardownAllPeers w).
Proof. intros k pc Hk. unfold teardownAllPeers in Hk. cbn in Hk. done. Qed.

Lemma registry_sound_step ev w :
  registry_sound w → registry_sound (step ev w).
Proof.
  intros Hw. destruct ev; cbn [step].
  - done.
  - apply registry_sound_teardownAllPeers.
  - unfold handleOfferRequest.
    destruct proctorSocketId as [p|]; [|done].
    destruct (negb (truthy p)); [done|].
    destruct studentIdToView as [s|];
      [destruct (truthy s && _); [done|]|];
      by apply registry_sound_respondToProctorOfferRequest.
  - unfold handleAnswerReceived.
    destruct (peerConnectionsRef w !! senderSocketId) as [peer|]; [|done].
    destruct answer as [answer|]; [|done]. cbv zeta.
    by destruct (match pcs w !! peer ≫= remoteDescription with
                 | Some d => negb (bool_decide (sdp_type d = sdp_type answer))
                 | None => true
                 end).
  - unfold handleIceCandidateReceived.
    destruct (peerConnectionsRef w !! senderSocketId) as [peer|]; [|done].
    by destruct candidate.
  - destruct (pcs w !! pc ≫= onicecandidate) as [k|]; [|done].
    by destruct candidate.
  - destruct (pcs w !! pc ≫= onconnectionstatechange) as [k|]; [|done].
    destruct state; cbn [onconnectionstatechange_handler]; try done;
      by apply registry_sound_teardownPeerConnection.
  - done.
  - apply registry_sound_teardownAllPeers.
  - by apply registry_sound_settle.
  - unfold settle_camera.
    destruct (pending w !! n) as [[k| | | |]|]; try done.
    destruct o as [[stream|]|]; cbn [resume_camera]; try done.
    apply registry_sound_open_link. done.
Qed.

Lemma publisher_reachable_registry_sound w :
  publisher_reachable w → registry_sound w.
Proof.
  induction 1 as [examId studentId|ev w _ IH].
  - intros k pc Hk. cbn in Hk. done.
  - by apply registry_sound_step.
Qed.

Lemma publisher_reachable_run evs w :
  publisher_reachable w → publisher_reachable (run evs w).
Proof.
  revert w. induction evs as [|ev evs IH]; intros w Hw; [done|].
  apply IH. by constructor.
Qed.

(** X24.  The hook never keeps a dead link registered: in every world it
    can reach, the connection registered for a proctor exists, is open,
    and reports its candidates and state changes on behalf of that same
    proctor; so two proctors never share a connection. *)
Theorem X24_registered_links_are_open w proctorSocketId pc :
  publisher_reachable w →
  peerConnectionsRef w !! proctorSocketId = Some pc →
  (∃ p, pcs w !! pc = Some p ∧ closed p = false
        ∧ onicecandidate p = Some proctorSocketId
        ∧ onconnectionstatechange p = Some proctorSocketId)
  ∧ ∀ other, peerConnectionsRef w !! other = Some pc → other = proctorSocketId.
Proof.
  intros Hw Hk. apply publisher_reachable_registry_sound in Hw.
  split; [by apply Hw|].
  intros other Ho.
  destruct (Hw _ _ Hk) as (p & Hp & _ & Hi & _).
  destruct (Hw _ _ Ho) as (p' & Hp' & _ & Hi' & _). congruence.
Qed.

(** X24, after the offer was sent to proctor "R". *)
Lemma X24_witness :
  ∃ p, pcs p_offered !! 0%nat = Some p ∧ closed p = false
       ∧ onicecandidate p = Some "R"
       ∧ onconnectionstatechange p = Some "R".
Proof.
  refine (proj1 (X24_registered_links_are_open p_offered "R" 0 _ _)).
  - unfold p_offered, p_offering. repeat apply publisher_reachable_run.
    apply publisher_reachable_initial.
  - vm_compute. reflexivity.
Defined.

End publisher_registry.

(** ** The publisher: starting and stopping the monitoring *)

Section monitoring.
Import Monitoring.

Lemma occurrences_snoc e tr e' :
  occurrences e (tr ++ [e'])
  = (occurrences e tr + (if decide (e' = e) then 1 else 0))%nat.
Proof.
  unfold occurrences. rewrite filter_app, length_app. f_equal.
  rewrite filter_cons, filter_nil. by destruct (decide (e' = e)).
Qed.

Lemma active_timers_snoc tr e acc :
  active_timers (tr ++ [e]) acc
  = match e with
    | SetInterval t => active_timers tr acc ++ [t]
    | ClearInterval t => filter (λ t', t' ≠ t) (active_timers tr acc)
    | _ => active_timers tr acc
    end.
Proof.
  revert acc. induction tr as [|a tr IH]; intros acc.
  - by destruct e.
  - cbn [app active_timers]. by destruct a; rewrite IH.
Qed.

Ltac count_effects :=
  rewrite !occurrences_snoc; intros;
  repeat (destruct (decide (_ = _)); try discriminate; try congruence);
  lia.

(** The two bookkeeping invariants of the hook. *)
Lemma usage_balanced_step ev w :
  usage_balanced w → usage_balanced (step ev w).
Proof.
  unfold usage_balanced.
  destruct w as [st act use timer listener fr n lk tr].
  destruct ev as [|result| |ev]; cbn [step].
  - unfold startMonitoring. cbn [isActiveRef].
    destruct act; [done|]. cbv zeta.
    cbv beta iota delta [with_state with_cameraUsageRef with_starting perform
      state isActiveRef cameraUsageRef analysisIntervalRef
      visibilityListenerRef fresh starting links trace].
    destruct use; count_effects.
  - unfold startMonitoring_settled. cbn [starting].
    destruct n as [|n]; [done|]. cbv zeta.
    destruct result as [err|].
    + cbv beta iota delta [with_state with_cameraUsageRef with_starting perform
        state isActiveRef cameraUsageRef analysisIntervalRef
        visibilityListenerRef fresh starting links trace].
      destruct use; cbv beta iota delta [trace cameraUsageRef];
        count_effects.
    + cbv beta iota delta [with_state with_isActiveRef with_starting
        with_analysisIntervalRef with_visibilityListenerRef with_fresh perform
        state isActiveRef cameraUsageRef analysisIntervalRef
        visibilityListenerRef fresh starting links trace].
      destruct timer; cbv beta iota delta [trace cameraUsageRef fresh];
        count_effects.
  - unfold stopMonitoring. cbv zeta.
    cbv beta iota delta [with_state with_isActiveRef with_cameraUsageRef
      with_analysisIntervalRef with_visibilityListenerRef with_links perform
      state isActiveRef cameraUsageRef analysisIntervalRef
      visibilityListenerRef fresh starting links trace].
    destruct timer, listener, use;
      cbv beta iota delta [trace cameraUsageRef];
      count_effects.
  - done.
Qed.

Lemma single_timer_step ev w :
  single_timer w → single_timer (step ev w).
Proof.
  unfold single_timer.
  destruct w as [st act use timer listener fr n lk tr].
  destruct ev as [|result| |ev]; cbn [step].
  - unfold startMonitoring. cbn [isActiveRef].
    destruct act; [done|]. cbv zeta.
    cbv beta iota delta [with_state with_cameraUsageRef with_starting perform
      state isActiveRef cameraUsageRef analysisIntervalRef
      visibilityListenerRef fresh starting links trace].
    destruct use; rewrite !active_timers_snoc; done.
  - unfold startMonitoring_settled. cbn [starting].
    destruct n as [|n]; [done|]. cbv zeta.
    destruct result as [err|].
    + cbv beta iota delta [with_state with_cameraUsageRef with_starting perform
        state isActiveRef cameraUsageRef analysisIntervalRef
        visibilityListenerRef fresh starting links trace].
      destruct use;
        cbv beta iota delta [trace analysisIntervalRef];
        rewrite !active_timers_snoc; done.
    + cbv beta iota delta [with_state with_isActiveRef with_starting
        with_analysisIntervalRef with_visibilityListenerRef with_fresh perform
        state isActiveRef cameraUsageRef analysisIntervalRef
        visibilityListenerRef fresh starting links trace].
      destruct timer; cbv beta iota delta [trace analysisIntervalRef fresh];
        rewrite !active_timers_snoc; intros ->; done.
  - unfold stopMonitoring. cbv zeta.
    cbv beta iota delta [with_state with_isActiveRef with_cameraUsageRef
      with_analysisIntervalRef with_visibilityListenerRef with_links perform
      state isActiveRef cameraUsageRef analysisIntervalRef
      visibilityListenerRef fresh starting links trace].
    destruct timer as [t|], listener, use;
      cbv beta iota delta [trace analysisIntervalRef];
      rewrite !active_timers_snoc; intros ->;
      rewrite ?filter_cons, ?filter_nil; try done;
      by destruct (decide (t ≠ t)).
  - done.
Qed.

Lemma reachable_usage_balanced w : reachable w → usage_balanced w.
Proof.
  induction 1 as [lk|ev w _ IH]; [done|]. by apply usage_balanced_step.
Qed.

Lemma reachable_single_timer w : reachable w → single_timer w.
Proof.
  induction 1 as [lk|ev w _ IH]; [done|]. by apply single_timer_step.
Qed.

(** X25.  The hook's use of the shared camera is balanced: whatever the
    order of starts, failures and stops, it has announced its use of the
    camera exactly once more than it has released it while it holds the
    camera, and exactly as often while it does not. *)
Theorem X25_camera_use_is_balanced w :
  reachable w →
  occurrences IncrementUsage (trace w)
  = (occurrences DecrementUsage (trace w)
     + (if cameraUsageRef w then 1 else 0))%nat.
Proof. apply reachable_usage_balanced. Qed.

(** X26.  At most one analysis timer runs at any time, and it is the one
    the hook remembers: the timers set and not yet cleared are exactly
    the timer in [analysisIntervalRef], or none when the ref is empty. *)
Theorem X26_at_most_one_analysis_timer w :
  reachable w →
  active_timers (trace w) []
  = match analysisIntervalRef w with Some timer => [timer] | None => [] end.
Proof. apply reachable_single_timer. Qed.


(** X28.  A failed start leaves no use of the camera behind and tells the
    user why: the error shown is never empty (the text of the permission,
    missing-camera or busy-camera case, else the message of the error,
    else the default text), the analysing flag is cleared, and every
    announced use of the camera has been released. *)
Theorem X28_failed_start_releases_the_camera w err :
  reachable w → starting w ≠ 0%nat →
  let w' := step (EvCameraStarted (Some err)) w in
  error (state w') = Some (errorMessage err) ∧ errorMessage err ≠ ""
  ∧ isAnalyzing (state w') = false
  ∧ cameraUsageRef w' = false
  ∧ occurrences IncrementUsage (trace w') = occurrences DecrementUsage (trace w')
  ∧ isActiveRef w' = isActiveRef w
  ∧ analysisIntervalRef w' = analysisIntervalRef w.
Proof.
  intros Hw Hn w'.
  pose proof (reachable_usage_balanced w' (reachable_step _ _ Hw)) as Hu.
  unfold usage_balanced in Hu.
  assert (Hmsg : errorMessage err ≠ "").
  { destruct err as [name message|]; [|done]. unfold errorMessage.
    repeat (case_bool_decide; [done|]).
    destruct (truthy message) eqn:E; [|done]. by apply truthy_true. }
  assert (Hrefs : error (state w') = Some (errorMessage err)
                  ∧ isAnalyzing (state w') = false
                  ∧ cameraUsageRef w' = false
                  ∧ isActiveRef w' = isActiveRef w
                  ∧ analysisIntervalRef w' = analysisIntervalRef w).
  { unfold w'. cbn [step]. clear -Hn.
    destruct w as [st act use timer listener fr n lk tr].
    cbn [starting] in Hn. unfold startMonitoring_settled. cbn [starting].
    destruct n as [|n]; [done|]. cbv zeta.
    cbv beta iota delta [with_state with_cameraUsageRef with_starting perform
      state isActiveRef cameraUsageRef analysisIntervalRef
      visibilityListenerRef fresh starting links trace].
    destruct use; done. }
  destruct Hrefs as (He & Ha & Hc & Hact & Htimer).
  rewrite Hc in Hu. split_and!; try done. lia.
Qed.

(** X29.  The list of detections shown never grows beyond fifty entries:
    recording new detections keeps the last fifty of the old list followed
    by the new ones, and keeps all of them while there are at most
    fifty. *)
Theorem X29_detections_keep_the_last_fifty prev newDetections :
  let kept := record_detections prev newDetections in
  length kept = (length prev + length newDetections) `min` 50
  ∧ kept `suffix_of` prev ++ newDetections
  ∧ ((length prev + length newDetections ≤ 50)%nat →
     kept = prev ++ newDetections).
Proof.
  intros kept. subst kept. unfold record_detections. cbv zeta.
  rewrite length_drop, length_app. split_and!.
  - lia.
  - apply suffix_drop.
  - intros Hle. replace (length prev + length newDetections - 50)%nat with 0%nat by lia.
    done.
Qed.

(** X25, while monitoring runs. *)
Lemma X25_witness :
  occurrences IncrementUsage (trace m_running)
  = (occurrences DecrementUsage (trace m_running)
     + (if cameraUsageRef m_running then 1 else 0))%nat.
Proof.
  apply X25_camera_use_is_balanced.
  unfold m_running, m_starting. repeat apply reachable_step.
  apply reachable_initial.
Defined.

(** X26, while monitoring runs. *)
Lemma X26_witness :
  active_timers (trace m_running) []
  = match analysisIntervalRef m_running with
    | Some timer => [timer]
    | None => []
    end.
Proof.
  apply X26_at_most_one_analysis_timer.
  unfold m_running, m_starting. repeat apply reachable_step.
  apply reachable_initial.
Defined.


(** X28, when the user denies the camera. *)
Lemma X28_witness :
  error (state (step (EvCameraStarted (Some (CaughtError "NotAllowedError" "")))
                  m_starting))
  = Some (errorMessage (CaughtError "NotAllowedError" "")).
Proof.
  refine (proj1 (X28_failed_start_releases_the_camera m_starting
                   (CaughtError "NotAllowedError" "") _ _)).
  - unfold m_starting. repeat apply reachable_step. apply reachable_initial.
  - vm_compute. discriminate.
Defined.

(** X29, for a first detection. *)
Lemma X29_witness :
  let d := {| detection_type := "tab_switch"; severity := "high";
              confidence := 90; timestamp := 1000;
              description := "tab switch" |} in
  record_detections [] [d] = [] ++ [d].
Proof.
  intros d.
  refine (proj2 (proj2 (X29_detections_keep_the_last_fifty [] [d])) _).
  vm_compute. lia.
Defined.

End monitoring.

(** ** The publisher: warnings and terminations of the proctor *)

Section publisher_notices.
Import Publisher.

Lemma should_process_spec sessionId w (ds du de : option string) :
  (if truthy_opt sessionId && truthy_opt ds && bool_decide (ds = sessionId)
   then Some true
   else if truthy_opt du && bool_decide (du = Some (normalizedStudentId w))
   then
     if truthy_opt de then
       if bool_decide (de = Some (normalizedExamId w)) then Some true else None
     else Some true
   else Some false) = Some true
  ↔ addressed_to_hook sessionId w ds du de.
Proof.
  unfold addressed_to_hook.
  destruct (truthy_opt sessionId && truthy_opt ds && bool_decide (ds = sessionId))
    eqn:H1.
  { apply andb_prop in H1 as [H1 H3]. apply andb_prop in H1 as [H1 H2].
    apply bool_decide_eq_true in H3. split; [|done]. intros _. by left. }
  assert (Hleft : ¬ (truthy_opt sessionId = true ∧ ds = sessionId)).
  { intros [Ht ->]. rewrite Ht in H1. cbn in H1.
    by rewrite bool_decide_eq_true_2 in H1. }
  destruct (truthy_opt du && bool_decide (du = Some (normalizedStudentId w)))
    eqn:H2.
  - apply andb_prop in H2 as [H2 H3]. apply bool_decide_eq_true in H3.
    subst du. cbn [truthy_opt] in H2. apply truthy_true in H2.
    destruct (truthy_opt de) eqn:H4.
    + destruct (bool_decide_reflect (de = Some (normalizedExamId w))) as [H5|H5].
      * split; [|done]. intros _. right. auto.
      * split; [done|]. intros [?|(_ & _ & [?|?])]; [tauto|done|done].
    + split; [|done]. intros _. right. auto.
  - split; [done|]. intros [?|(-> & Hne & _)]; [tauto|].
    cbn [truthy_opt] in H2. rewrite (proj2 (truthy_true _) Hne) in H2.
    by rewrite bool_decide_eq_true_2 in H2.
Qed.

(** X30.  A warning and a termination of the proctor reach the callback
    of the hook under the same addressing, and only then: the event names
    the session of the hook, or it names the participant of the hook and
    either no exam or the exam of the hook.  An event for the participant
    in another exam is dropped unless it names the session. *)
Theorem X30_notices_reach_the_addressed_hook sessionId now w
    (warning : AdminWarning) (termination : ExamTerminated) :
  (is_Some (handleAdminWarning sessionId true now warning w)
   ↔ addressed_to_hook sessionId w (aw_sessionId warning)
       (aw_userId warning) (aw_examId warning))
  ∧ (is_Some (handleExamTerminated sessionId true termination w)
     ↔ addressed_to_hook sessionId w (et_sessionId termination)
         (et_userId termination) (et_examId termination)).
Proof.
  split.
  - rewrite <- should_process_spec. unfold handleAdminWarning. cbv zeta.
    destruct (if truthy_opt sessionId && _ && _ then _ else _) as [[|]|].
    + split; [done|]. intros _. by eexists.
    + split; [intros [x Hx]|]; done.
    + split; [intros [x Hx]|]; done.
  - rewrite <- should_process_spec. unfold handleExamTerminated. cbv zeta.
    destruct (if truthy_opt sessionId && _ && _ then _ else _) as [[|]|].
    + split; [done|]. intros _. by eexists.
    + split; [intros [x Hx]|]; done.
    + split; [intros [x Hx]|]; done.
Qed.

End publisher_notices.
